(** * EchoPost: durable queue, replay engine and lifecycle controller

    A shallow embedding of the Go sources of EchoPost and the
    properties of its specification:
    - tools/pebble.go: [logRecord], [SendLog], [FlushPebbleDB],
      [deleteKeysBatch], [ProcessPebble], [PebbleIsEmpty];
    - tools/client.go: [logToFile], [sendToServer], [IsHealthSuccess];
    - tools/config.go: [Files], [ServerConfig], [EnableAcceptingFlag],
      [DisableAcceptingFlag];
    - tools/log.go: [LogJson];
    - main.go: the [mainRoutine] loop.

    The collaborators of the program are modelled by what the code
    observes of them:
    - [encoding/json] by a printer and a parser over JSON text
      (module [Json]) and by the way Go reads a document into an [any],
      a map or the struct (modules [GoJson] and [LogRecordJson]);
    - the Pebble store by an association list kept in ascending key
      order (module [Pebble]);
    - the remote server, the clock, the random generator, the
      cancellation context and the faults of the store by an
      environment of oracles indexed by a logical clock ([Env]).

    The program runs as explicit state passing over a [World]: the
    configuration with the store and the log files it points to, the
    files of the base directory, and the traces of what was printed,
    posted and slept. A nil pointer that the code dereferences is a
    panic, the result [None]. The ingestion handlers and the flusher
    that run beside the control loop are not interleaved with it: each
    function runs from a state to a state. *)

From Stdlib Require Import ZArith List String Ascii Bool Lia Arith.
From Stdlib Require Import DecimalString OrderedTypeEx.
From Stdlib Require DecimalFacts DecimalPos DecimalZ.
Import ListNotations.

Local Open Scope list_scope.
Set Warnings "-register-all".

(** ** Characters and text helpers *)

Module Text.

Definition code (c : ascii) : N := N_of_ascii c.

Definition is_digit (c : ascii) : bool :=
  (48 <=? code c)%N && (code c <=? 57)%N.

Definition is_upper (c : ascii) : bool :=
  (65 <=? code c)%N && (code c <=? 90)%N.

(** ASCII case folding, as Go's field matching applies to ASCII keys. *)
Definition lower_char (c : ascii) : ascii :=
  if is_upper c then ascii_of_N (code c + 32) else c.

Fixpoint lower (s : string) : string :=
  match s with
  | EmptyString => EmptyString
  | String c r => String (lower_char c) (lower r)
  end.

(** [%d] of [fmt.Sprintf]. *)
Definition decimal (z : Z) : string := NilZero.string_of_int (Z.to_int z).

Definition hex_digit (n : N) : ascii :=
  if (n <? 10)%N then ascii_of_N (48 + n) else ascii_of_N (87 + n).

Definition hex_val (c : ascii) : option N :=
  let n := code c in
  if is_digit c then Some (n - 48)%N
  else if (97 <=? n)%N && (n <=? 102)%N then Some (n - 87)%N
  else if (65 <=? n)%N && (n <=? 70)%N then Some (n - 55)%N
  else None.

Definition hex4 (a b c d : ascii) : option N :=
  match hex_val a, hex_val b, hex_val c, hex_val d with
  | Some x, Some y, Some z, Some w => Some (((x * 16 + y) * 16 + z) * 16 + w)%N
  | _, _, _, _ => None
  end.

(** UTF-8 encoding of a code point (utf8.EncodeRune). *)
Definition utf8 (cp : N) : string :=
  if (cp <? 128)%N then String (ascii_of_N cp) EmptyString
  else if (cp <? 2048)%N then
    String (ascii_of_N (192 + cp / 64))
      (String (ascii_of_N (128 + cp mod 64)) EmptyString)
  else if (cp <? 65536)%N then
    String (ascii_of_N (224 + cp / 4096))
      (String (ascii_of_N (128 + (cp / 64) mod 64))
         (String (ascii_of_N (128 + cp mod 64)) EmptyString))
  else
    String (ascii_of_N (240 + cp / 262144))
      (String (ascii_of_N (128 + (cp / 4096) mod 64))
         (String (ascii_of_N (128 + (cp / 64) mod 64))
            (String (ascii_of_N (128 + cp mod 64)) EmptyString))).

End Text.

(** ** Association lists in ascending key order

    Both a Go [map[string]any] as [json.Marshal] prints it (keys sorted)
    and the Pebble key space (bytewise key order) are association lists
    whose keys strictly ascend. *)

Module SMap.

Section Ops.
Context {V : Type}.

Definition t := list (string * V).

Fixpoint insert (k : string) (v : V) (m : list (string * V)) : list (string * V) :=
  match m with
  | [] => [(k, v)]
  | (k', v') :: r =>
      match String.compare k k' with
      | Lt => (k, v) :: m
      | Eq => (k, v) :: r
      | Gt => (k', v') :: insert k v r
      end
  end.

Fixpoint remove (k : string) (m : list (string * V)) : list (string * V) :=
  match m with
  | [] => []
  | (k', v') :: r =>
      if String.eqb k k' then remove k r else (k', v') :: remove k r
  end.

Fixpoint lookup (k : string) (m : list (string * V)) : option V :=
  match m with
  | [] => None
  | (k', v') :: r => if String.eqb k k' then Some v' else lookup k r
  end.

Definition keys (m : list (string * V)) : list string := map fst m.

(** Inserting the pairs of a list one after the other, later pairs
    replacing earlier ones with the same key. *)
Definition of_list_into (m : list (string * V)) (l : list (string * V)) :=
  fold_left (fun acc kv => insert (fst kv) (snd kv) acc) l m.

Definition of_list (l : list (string * V)) := of_list_into [] l.

End Ops.

Definition key_lt (a b : string) : Prop := String.compare a b = Lt.

Fixpoint ascending (ks : list string) : Prop :=
  match ks with
  | [] => True
  | k :: r => Forall (key_lt k) r /\ ascending r
  end.

Definition sorted {V : Type} (m : list (string * V)) : Prop :=
  ascending (map fst m).

End SMap.

(** ** encoding/json

    JSON documents as [encoding/json] decodes them into [any]:
    [nil], [bool], a number, [string], [[]any] and [map[string]any].
    A number is kept as its literal text: the conversion to [float64]
    and back, and the refusal of a literal beyond the range of
    [float64], are not modelled. Strings are byte strings, taken to be
    valid UTF-8 as the RPC layer delivers them: the coercion of invalid
    UTF-8 to U+FFFD is not modelled. The printer writes every escape as
    [\u00XX], where the encoder has short forms for some. *)

Module Json.

Local Open Scope string_scope.
Import Text.

Definition dquote : ascii := "034"%char.
Definition backslash : ascii := "092"%char.

Inductive json : Type :=
| JNull
| JBool (b : bool)
| JNum (lit : string)
| JStr (s : string)
| JArr (xs : list json)
| JObj (kvs : list (string * json)).

(** *** Printing (json.Marshal) *)

Definition needs_u_escape (c : ascii) : bool :=
  (code c <? 32)%N || (c =? "<")%char || (c =? ">")%char || (c =? "&")%char.

Definition escape_char (c : ascii) : string :=
  if (c =? dquote)%char || (c =? backslash)%char then String backslash (String c EmptyString)
  else if needs_u_escape c then
    String backslash (String "u" (String "0" (String "0"
      (String (hex_digit (code c / 16)) (String (hex_digit (code c mod 16)) EmptyString)))))
  else String c EmptyString.

Fixpoint escape (s : string) : string :=
  match s with
  | EmptyString => EmptyString
  | String c r => (escape_char c ++ escape r)%string
  end.

Definition quote (s : string) : string :=
  String dquote (escape s ++ String dquote EmptyString)%string.

Fixpoint encode (v : json) : string :=
  match v with
  | JNull => "null"
  | JBool true => "true"
  | JBool false => "false"
  | JNum lit => lit
  | JStr s => quote s
  | JArr xs =>
      String "["
        ((fix elems (l : list json) : string :=
            match l with
            | [] => "]"
            | [x] => encode x ++ "]"
            | x :: r => encode x ++ String "," (elems r)
            end) xs)%string
  | JObj kvs =>
      String "{"
        ((fix members (l : list (string * json)) : string :=
            match l with
            | [] => "}"
            | [(k, x)] => quote k ++ String ":" (encode x ++ "}")
            | (k, x) :: r => quote k ++ String ":" (encode x ++ String "," (members r))
            end) kvs)%string
  end.

(** *** Parsing (the scanner and the literal decoder) *)

Definition is_ws (c : ascii) : bool :=
  (c =? " ")%char || (c =? "009")%char || (c =? "010")%char || (c =? "013")%char.

Fixpoint skip_ws (s : string) : string :=
  match s with
  | String c r => if is_ws c then skip_ws r else s
  | EmptyString => EmptyString
  end.

Definition unescape (e : ascii) : option ascii :=
  if (e =? dquote)%char then Some dquote
  else if (e =? backslash)%char then Some backslash
  else if (e =? "/")%char then Some "/"%char
  else if (e =? "b")%char then Some "008"%char
  else if (e =? "f")%char then Some "012"%char
  else if (e =? "n")%char then Some "010"%char
  else if (e =? "r")%char then Some "013"%char
  else if (e =? "t")%char then Some "009"%char
  else None.

Definition is_surrogate (cp : N) : bool := (55296 <=? cp)%N && (cp <=? 57343)%N.
Definition is_high (cp : N) : bool := (55296 <=? cp)%N && (cp <=? 56319)%N.
Definition is_low (cp : N) : bool := (56320 <=? cp)%N && (cp <=? 57343)%N.

Definition prepend (p : string) (r : option (string * string)) : option (string * string) :=
  match r with
  | Some (s, rest) => Some ((p ++ s)%string, rest)
  | None => None
  end.

(** The characters of a string literal after its opening quote, up to
    and including the closing quote. *)
Fixpoint parse_chars (s : string) : option (string * string) :=
  match s with
  | EmptyString => None
  | String c r =>
      if (c =? dquote)%char then Some (EmptyString, r)
      else if (code c <? 32)%N then None
      else if (c =? backslash)%char then
        match r with
        | EmptyString => None
        | String e r1 =>
            match unescape e with
            | Some c' => prepend (String c' EmptyString) (parse_chars r1)
            | None =>
                if (e =? "u")%char then
                  match r1 with
                  | String h1 (String h2 (String h3 (String h4 r2))) =>
                      match hex4 h1 h2 h3 h4 with
                      | None => None
                      | Some cp =>
                          if is_surrogate cp then
                            match r2 with
                            | String b (String u (String g1 (String g2 (String g3 (String g4 r3))))) =>
                                match (if (b =? backslash)%char && (u =? "u")%char then hex4 g1 g2 g3 g4 else None) with
                                | Some cp2 =>
                                    if is_high cp && is_low cp2 then
                                      prepend (utf8 (65536 + (cp - 55296) * 1024 + (cp2 - 56320))%N)
                                              (parse_chars r3)
                                    else prepend (utf8 65533%N) (parse_chars r2)
                                | None => prepend (utf8 65533%N) (parse_chars r2)
                                end
                            | _ => prepend (utf8 65533%N) (parse_chars r2)
                            end
                          else prepend (utf8 cp) (parse_chars r2)
                      end
                  | _ => None
                  end
                else None
            end
        end
      else prepend (String c EmptyString) (parse_chars r)
  end.

Definition is_num_char (c : ascii) : bool :=
  is_digit c || (c =? "-")%char || (c =? "+")%char || (c =? ".")%char || (c =? "e")%char || (c =? "E")%char.

Fixpoint drop_digits (s : string) : string :=
  match s with
  | String c r => if is_digit c then drop_digits r else s
  | EmptyString => EmptyString
  end.

Definition valid_exponent (s : string) : bool :=
  match s with
  | EmptyString => true
  | String e r =>
      if (e =? "e")%char || (e =? "E")%char then
        let r1 := match r with
                  | String sg r' => if (sg =? "+")%char || (sg =? "-")%char then r' else r
                  | EmptyString => r
                  end in
        match r1 with
        | String d r2 => is_digit d && (drop_digits r2 =? EmptyString)%string
        | EmptyString => false
        end
      else false
  end.

Definition valid_fraction (s : string) : bool :=
  match s with
  | String c r =>
      if (c =? ".")%char then
        match r with
        | String d r' => is_digit d && valid_exponent (drop_digits r')
        | EmptyString => false
        end
      else valid_exponent s
  | EmptyString => true
  end.

(** The JSON number grammar: an optional minus sign; a zero or a
    digit run that does not start with zero; an optional fraction of
    a point and one or more digits; an optional exponent of e or E, an
    optional sign and one or more digits. *)
Definition valid_number (s : string) : bool :=
  let s1 := match s with
            | String c r => if (c =? "-")%char then r else s
            | EmptyString => s
            end in
  match s1 with
  | String c r =>
      is_digit c && valid_fraction (if (c =? "0")%char then r else drop_digits r)
  | EmptyString => false
  end.

Fixpoint span_num (s : string) : string * string :=
  match s with
  | String c r =>
      if is_num_char c then let (a, b) := span_num r in (String c a, b) else (EmptyString, s)
  | EmptyString => (EmptyString, EmptyString)
  end.

Definition parse_number (s : string) : option (json * string) :=
  let (lit, rest) := span_num s in
  if valid_number lit then Some (JNum lit, rest) else None.

Fixpoint strip_prefix (p s : string) : option string :=
  match p with
  | EmptyString => Some s
  | String a p' =>
      match s with
      | String b s' => if (a =? b)%char then strip_prefix p' s' else None
      | EmptyString => None
      end
  end.

Definition parse_keyword (s : string) : option (json * string) :=
  match strip_prefix "null" s with
  | Some r => Some (JNull, r)
  | None =>
      match strip_prefix "true" s with
      | Some r => Some (JBool true, r)
      | None =>
          match strip_prefix "false" s with
          | Some r => Some (JBool false, r)
          | None => None
          end
      end
  end.

(** The scanner of the decoder refuses a text whose arrays and
    objects nest deeper than this ([maxNestingDepth] of
    encoding/json, 10000); the encoder has no such limit. *)
Definition maxNestingDepth : nat := 100 * 100.

(** [depth] is the number of levels of arrays and objects that may
    still be opened. *)
Fixpoint parse_value (fuel depth : nat) (s : string) {struct fuel} : option (json * string) :=
  match fuel with
  | O => None
  | S fuel' =>
      match skip_ws s with
      | EmptyString => None
      | String c r =>
          if (c =? "{")%char then
            match depth with
            | O => None
            | S depth' =>
                match skip_ws r with
                | EmptyString => None
                | String c1 r1 =>
                    if (c1 =? "}")%char then Some (JObj [], r1)
                    else match parse_members fuel' depth' r with
                         | Some (kvs, r') => Some (JObj kvs, r')
                         | None => None
                         end
                end
            end
          else if (c =? "[")%char then
            match depth with
            | O => None
            | S depth' =>
                match skip_ws r with
                | EmptyString => None
                | String c1 r1 =>
                    if (c1 =? "]")%char then Some (JArr [], r1)
                    else match parse_elems fuel' depth' r with
                         | Some (xs, r') => Some (JArr xs, r')
                         | None => None
                         end
                end
            end
          else if (c =? dquote)%char then
            match parse_chars r with
            | Some (str, r') => Some (JStr str, r')
            | None => None
            end
          else if is_num_char c then parse_number (String c r)
          else parse_keyword (String c r)
      end
  end

with parse_elems (fuel depth : nat) (s : string) {struct fuel} : option (list json * string) :=
  match fuel with
  | O => None
  | S fuel' =>
      match parse_value fuel' depth s with
      | None => None
      | Some (v, r) =>
          match skip_ws r with
          | EmptyString => None
          | String c r' =>
              if (c =? ",")%char then
                match parse_elems fuel' depth r' with
                | Some (vs, r'') => Some (v :: vs, r'')
                | None => None
                end
              else if (c =? "]")%char then Some ([v], r')
              else None
          end
      end
  end

with parse_members (fuel depth : nat) (s : string) {struct fuel}
     : option (list (string * json) * string) :=
  match fuel with
  | O => None
  | S fuel' =>
      match skip_ws s with
      | EmptyString => None
      | String q r =>
          if (q =? dquote)%char then
            match parse_chars r with
            | None => None
            | Some (k, r1) =>
                match skip_ws r1 with
                | EmptyString => None
                | String col r2 =>
                    if (col =? ":")%char then
                      match parse_value fuel' depth r2 with
                      | None => None
                      | Some (v, r3) =>
                          match skip_ws r3 with
                          | EmptyString => None
                          | String c r4 =>
                              if (c =? ",")%char then
                                match parse_members fuel' depth r4 with
                                | Some (kvs, r5) => Some ((k, v) :: kvs, r5)
                                | None => None
                                end
                              else if (c =? "}")%char then Some ([(k, v)], r4)
                              else None
                          end
                      end
                    else None
                end
            end
          else None
      end
  end.

(** A whole document: one value, then only white space. The tree keeps
    the members of an object in the order of the text. *)
Definition parse (s : string) : option json :=
  match parse_value (S (String.length s)) maxNestingDepth s with
  | Some (v, r) => match skip_ws r with EmptyString => Some v | _ => None end
  | None => None
  end.

End Json.

(** ** Go values of the program and their JSON forms *)

(** A Go [error], by its message. *)
Definition error := string.

Module GoJson.

Import Json.
Local Open Scope string_scope.

(** A [map[string]any]: [None] is the nil map. *)
Definition gomap := option (list (string * json)).

(** A [[]string]: [None] is the nil slice. *)
Definition strings := option (list string).

(** A JSON text read into an [any]: each object becomes a map, where
    a repeated key keeps its last value. *)
Fixpoint to_any (v : json) : json :=
  match v with
  | JArr xs => JArr (map to_any xs)
  | JObj kvs => JObj (SMap.of_list (map (fun kv => (fst kv, to_any (snd kv))) kvs))
  | _ => v
  end.

Definition members_to_any (kvs : list (string * json)) : list (string * json) :=
  map (fun kv => (fst kv, to_any (snd kv))) kvs.

(** The error of a text that is not a JSON document or nests too
    deep (the model does not tell the messages of the decoder apart). *)
Definition syntax_error : error := "json: invalid JSON text".

(** [json.Marshal]: the values the program marshals are trees and
    strings, for which it reports no error. *)
Definition Marshal (v : json) : string * option error := (encode v, None).

(** [json.Unmarshal(data, &out)] with [var out map[string]any]. *)
Definition Unmarshal_map (data : string) : gomap * option error :=
  match parse data with
  | None => (None, Some syntax_error)
  | Some JNull => (None, None)
  | Some (JObj kvs) => (Some (SMap.of_list (members_to_any kvs)), None)
  | Some _ => (None, Some "json: cannot unmarshal into Go value of type map[string]interface {}")
  end.

Definition of_gomap (m : gomap) : json :=
  match m with
  | None => JNull
  | Some kvs => JObj kvs
  end.

Definition of_strings (l : strings) : json :=
  match l with
  | None => JNull
  | Some xs => JArr (map JStr xs)
  end.

(** A map literal [map[string]any{...}] as [json.Marshal] sees it. *)
Definition map_literal (kvs : list (string * json)) : json :=
  JObj (SMap.of_list kvs).

End GoJson.

(** ** tools/pebble.go: the stored record *)

Record logRecord : Type := mkLogRecord {
  Payload : GoJson.gomap;
  Pipelines : GoJson.strings;
  ReceivedAt : string
}.

Module LogRecordJson.

Import Json GoJson.
Local Open Scope string_scope.

Definition zero : logRecord :=
  {| Payload := None; Pipelines := None; ReceivedAt := EmptyString |}.

(** The struct as [json.Marshal] prints it: its fields in the order of
    the declaration, under their tags. *)
Definition to_json (rec : logRecord) : json :=
  JObj [("payload", of_gomap (Payload rec));
        ("pipelines", of_strings (Pipelines rec));
        ("received_at", JStr (ReceivedAt rec))].

Inductive field : Type := FPayload | FPipelines | FReceivedAt.

(** A key selects the field whose tag it equals, letter case apart. *)
Definition field_of_key (k : string) : option field :=
  let k' := Text.lower k in
  if (k' =? "payload") then Some FPayload
  else if (k' =? "pipelines") then Some FPipelines
  else if (k' =? "received_at") then Some FReceivedAt
  else None.

(** An array read into a [[]string] that held [old]: a string sets its
    element, [null] leaves the element as it is, anything else is a
    type error that leaves the element too. *)
Fixpoint decode_strings (old : list string) (xs : list json) : list string * bool :=
  match xs with
  | [] => ([], true)
  | x :: r =>
      let cur := hd EmptyString old in
      let (rest, ok) := decode_strings (tl old) r in
      match x with
      | JStr s => (s :: rest, ok)
      | JNull => (cur :: rest, ok)
      | _ => (cur :: rest, false)
      end
  end.

(** One member of the object read into the struct; [false] reports a
    type error, after which decoding goes on. *)
Definition set_field (rec : logRecord) (k : string) (v : json) : logRecord * bool :=
  match field_of_key k with
  | None => (rec, true)
  | Some FPayload =>
      match v with
      | JNull => ({| Payload := None; Pipelines := Pipelines rec; ReceivedAt := ReceivedAt rec |}, true)
      | JObj kvs =>
          let m := match Payload rec with Some m => m | None => [] end in
          ({| Payload := Some (SMap.of_list_into m (members_to_any kvs));
              Pipelines := Pipelines rec; ReceivedAt := ReceivedAt rec |}, true)
      | _ => (rec, false)
      end
  | Some FPipelines =>
      match v with
      | JNull => ({| Payload := Payload rec; Pipelines := None; ReceivedAt := ReceivedAt rec |}, true)
      | JArr xs =>
          let old := match Pipelines rec with Some l => l | None => [] end in
          let (l, ok) := decode_strings old xs in
          ({| Payload := Payload rec; Pipelines := Some l; ReceivedAt := ReceivedAt rec |}, ok)
      | _ => (rec, false)
      end
  | Some FReceivedAt =>
      match v with
      | JNull => (rec, true)
      | JStr s => ({| Payload := Payload rec; Pipelines := Pipelines rec; ReceivedAt := s |}, true)
      | _ => (rec, false)
      end
  end.

Fixpoint set_fields (rec : logRecord) (kvs : list (string * json)) : logRecord * bool :=
  match kvs with
  | [] => (rec, true)
  | (k, v) :: r =>
      let (rec1, ok1) := set_field rec k v in
      let (rec2, ok2) := set_fields rec1 r in
      (rec2, ok1 && ok2)
  end.

Definition type_error : error := "json: cannot unmarshal into Go value of type tools.logRecord".

(** [json.Unmarshal(data, &rec)] with [var rec logRecord]. *)
Definition Unmarshal (data : string) : logRecord * option error :=
  match parse data with
  | None => (zero, Some syntax_error)
  | Some JNull => (zero, None)
  | Some (JObj kvs) =>
      let (rec, ok) := set_fields zero kvs in
      (rec, if ok then None else Some type_error)
  | Some _ => (zero, Some type_error)
  end.

Definition Marshal (rec : logRecord) : string * option error :=
  GoJson.Marshal (to_json rec).

End LogRecordJson.

(** ** The Pebble store

    The contents of an open store are its pairs in ascending bytewise
    key order. Durability is not modelled: [Flush] and [LogData] leave
    the contents as they are. *)

Module Pebble.

Definition DB := list (string * string).

Definition Iterator := list (string * string).

(** [db.Set(key, value, opts)], or the write error the store reports. *)
Definition Set_ (db : DB) (key value : string) (fault : option error) : DB * option error :=
  match fault with
  | Some e => (db, Some e)
  | None => (SMap.insert key value db, None)
  end.

(** [db.NewIter(nil)]: a snapshot of the pairs in key order. With nil
    options an open store reports no error. *)
Definition NewIter (db : DB) : Iterator + error := inl db.

(** A write batch: the keys whose deletion it has recorded. *)
Definition Batch := list string.

Definition NewBatch : Batch := [].

(** [batch.Delete(key, nil)]. *)
Definition Delete (b : Batch) (key : string) (fault : option error) : Batch * option error :=
  match fault with
  | Some e => (b, Some e)
  | None => (b ++ [key], None)
  end.

Definition apply (b : Batch) (db : DB) : DB :=
  fold_left (fun d k => SMap.remove k d) b db.

(** [batch.Commit(opts)]: all the operations of the batch are applied,
    or, when the store reports an error, none is. *)
Definition Commit (b : Batch) (db : DB) (fault : option error) : DB * option error :=
  match fault with
  | Some e => (db, Some e)
  | None => (apply b db, None)
  end.

End Pebble.

(** ** The environment and the state of the agent *)

(** [time.Now()], by the two observations the program makes of it. *)
Record Time : Type := mkTime {
  UnixNano : Z;
  RFC3339Nano : string
}.

(** A response of the HTTP client: its status code and its body. *)
Record Response : Type := mkResponse {
  StatusCode : Z;
  Body : string
}.

(** A request the agent put on the wire. *)
Record Request : Type := mkRequest {
  reqUrl : string;
  reqHeaders : list (string * string);
  reqBody : string
}.

(** What the outside world answers. Each oracle is asked at the current
    value of the logical clock of the state, which every question
    advances. *)
Record Env : Type := mkEnv {
  ctxErr : nat -> bool;                       (* ctx.Err() != nil *)
  timeNow : nat -> Time;                      (* time.Now() *)
  randIntn : nat -> Z;                        (* rand.Intn(1000) *)
  httpPost : nat -> Request -> Response + error;
  httpGet : nat -> string -> Response + error;
  setFault : nat -> option error;             (* db.Set *)
  deleteFault : nat -> option error;          (* batch.Delete *)
  commitFault : nat -> option error           (* batch.Commit *)
}.

(** tools/config.go, [Files]. An open log file is the list of the lines
    appended to it (the handles are opened with O_APPEND); the flag file
    handle is the path it was created at. [None] is the nil handle. *)
Record Files : Type := mkFiles {
  acceptingFlagPath : string;
  AcceptingFlag : option string;
  successLog : option (list string);
  failureLog : option (list string);
  SocketPath : string;
  dbPath : string
}.

(** tools/config.go, [ServerConfig]. [Db] is [None] for the nil pointer
    and otherwise the contents of the open store. *)
Record ServerConfig : Type := mkServerConfig {
  ApiKey : string;
  ServerHost : string;
  Db : option Pebble.DB;
  files : Files
}.

(** A line of tools/log.go, [LogJson]: the event and its fields (the
    time stamp of the line is left out). *)
Record LogLine : Type := mkLogLine {
  event : string;
  fields : list (string * Json.json)
}.

Record World : Type := mkWorld {
  config : ServerConfig;
  clock : nat;                  (* questions put to the environment so far *)
  fs : list string;             (* the paths that exist in the base directory *)
  stdout : list LogLine;        (* what LogJson printed, oldest first *)
  sent : list (nat * Request);  (* the POST requests made and when, oldest first *)
  slept : list Z                (* the time.Sleep calls, in milliseconds *)
}.

Module Agent.

Import Json GoJson.
Local Open Scope string_scope.
Local Open Scope list_scope.
Local Open Scope Z_scope.

(** *** State updates *)

Definition tick (w : World) : World :=
  {| config := config w; clock := S (clock w); fs := fs w;
     stdout := stdout w; sent := sent w; slept := slept w |}.

Definition with_config (c : ServerConfig) (w : World) : World :=
  {| config := c; clock := clock w; fs := fs w;
     stdout := stdout w; sent := sent w; slept := slept w |}.

Definition with_files (f : Files) (w : World) : World :=
  with_config {| ApiKey := ApiKey (config w); ServerHost := ServerHost (config w);
                 Db := Db (config w); files := f |} w.

Definition with_Db (d : option Pebble.DB) (w : World) : World :=
  with_config {| ApiKey := ApiKey (config w); ServerHost := ServerHost (config w);
                 Db := d; files := files (config w) |} w.

Definition with_fs (l : list string) (w : World) : World :=
  {| config := config w; clock := clock w; fs := l;
     stdout := stdout w; sent := sent w; slept := slept w |}.

Definition Sleep (ms : Z) (w : World) : World :=
  {| config := config w; clock := clock w; fs := fs w;
     stdout := stdout w; sent := sent w; slept := slept w ++ [ms] |}.

(** tools/log.go *)
Definition LogJson (ev : string) (fl : list (string * json)) (w : World) : World :=
  {| config := config w; clock := clock w; fs := fs w;
     stdout := stdout w ++ [{| event := ev; fields := fl |}];
     sent := sent w; slept := slept w |}.

(** *** tools/pebble.go *)

Record LogRequest : Type := mkLogRequest {
  JsonData : string;
  reqPipelines : strings
}.

Record LogResponse : Type := mkLogResponse {
  Success : bool;
  Message : string
}.

(** The key of [SendLog]: [fmt.Sprintf] of the clock reading and the
    random draw, joined by an underscore. *)
Definition make_key (nanos rnd : Z) : string :=
  (Text.decimal nanos ++ "_" ++ Text.decimal rnd)%string.

(** [SendLog]. [None] is the panic of a nil store. The three questions
    to the environment are the two clock readings and the random
    draw; the fourth is the write. *)
Definition SendLog (E : Env) (req : LogRequest) (w : World) : option (World * LogResponse) :=
  let out :=
    match Unmarshal_map (JsonData req) with
    | (_, Some _) => Some []
    | (m, None) => m
    end in
  let rec := {| Payload := out;
                Pipelines := reqPipelines req;
                ReceivedAt := RFC3339Nano (timeNow E (clock w)) |} in
  let w := tick w in
  let data := fst (LogRecordJson.Marshal rec) in
  let key := make_key (UnixNano (timeNow E (clock w))) (randIntn E (S (clock w))) in
  let w := tick (tick w) in
  match Db (config w) with
  | None => None
  | Some db =>
      match Pebble.Set_ db key data (setFault E (clock w)) with
      | (_, Some err) =>
          Some (LogJson "pebble_write_error" [("error", JStr err)] (tick w),
                {| Success := false; Message := "Db write failed" |})
      | (db', None) =>
          Some (LogJson "log_stored" [("key", JStr key)] (with_Db (Some db') (tick w)),
                {| Success := true; Message := "stored" |})
      end
  end.

(** [FlushPebbleDB]: [Flush] and the sync of the write-ahead log leave
    the contents of the store as they are; their errors, which the
    code only logs, are not modelled. *)
Definition FlushPebbleDB (w : World) : World :=
  match Db (config w) with
  | Some _ => w
  | None => w
  end.

(** [deleteKeysBatch] on an open store. *)
Fixpoint batch_deletes (E : Env) (keys : list string) (b : Pebble.Batch) (t : nat)
  : Pebble.Batch * nat * option error :=
  match keys with
  | [] => (b, t, None)
  | key :: r =>
      match Pebble.Delete b key (deleteFault E t) with
      | (_, Some err) => (b, S t, Some err)
      | (b', None) => batch_deletes E r b' (S t)
      end
  end.

Definition deleteKeysBatch (E : Env) (db : Pebble.DB) (keys : list string) (t : nat)
  : Pebble.DB * nat * option error :=
  match batch_deletes E keys Pebble.NewBatch t with
  | (_, t', Some err) => (db, t', Some err)
  | (batch, t', None) =>
      let (db', err) := Pebble.Commit batch db (commitFault E t') in
      (db', S t', err)
  end.

(** [PebbleIsEmpty]. *)
Definition PebbleIsEmpty (db : option Pebble.DB) : bool :=
  match db with
  | None => true
  | Some d =>
      match Pebble.NewIter d with
      | inr _ => true
      | inl iter => match iter with [] => true | _ :: _ => false end
      end
  end.

(** *** tools/client.go *)

Definition append_line (log : option (list string)) (line : string) : option (list string) :=
  match log with
  | None => None
  | Some l => Some (l ++ [line])
  end.

Definition newline : string := String "010"%char EmptyString.

Definition is_open {A : Type} (f : option A) : bool :=
  match f with Some _ => true | None => false end.

(** [logToFile]. The errors of [Write] are dropped by the code; the
    model takes every write to an open handle to append its line. *)
Definition logToFile (rec : logRecord) (isSuccess : bool) (extras : list (string * json))
           (w : World) : World :=
  let logRecord := map_literal [("log_data", LogRecordJson.to_json rec);
                                ("context", map_literal extras)] in
  let data := fst (Marshal logRecord) in
  let f := files (config w) in
  if isSuccess && is_open (successLog f) then
    with_files {| acceptingFlagPath := acceptingFlagPath f; AcceptingFlag := AcceptingFlag f;
                  successLog := append_line (successLog f) (data ++ newline)%string;
                  failureLog := failureLog f;
                  SocketPath := SocketPath f; dbPath := dbPath f |} w
  else if negb isSuccess && is_open (failureLog f) then
    with_files {| acceptingFlagPath := acceptingFlagPath f; AcceptingFlag := AcceptingFlag f;
                  successLog := successLog f;
                  failureLog := append_line (failureLog f) (data ++ newline)%string;
                  SocketPath := SocketPath f; dbPath := dbPath f |} w
  else w.

Definition JInt (z : Z) : json := JNum (Text.decimal z).

Definition post (E : Env) (rq : Request) (w : World) : World * (Response + error) :=
  ({| config := config w; clock := S (clock w); fs := fs w;
      stdout := stdout w; sent := sent w ++ [(clock w, rq)]; slept := slept w |},
   httpPost E (clock w) rq).

(** [sendToServer]: whether the record is to be deleted, and the error
    of a transient failure. *)
Definition sendToServer (E : Env) (rec : logRecord) (w : World) : World * (bool * option error) :=
  let triggerURL := (ServerHost (config w) ++ "/log")%string in
  let payload := map_literal [("pipelines", of_strings (Pipelines rec));
                              ("log_data", of_gomap (Payload rec))] in
  match Marshal payload with
  | (_, Some err) =>
      (LogJson "json_marshal_error" [("error", JStr err)] w, (false, None))
  | (jsonBody, None) =>
      let headers := [("DATANADHI-API-KEY"%string, ApiKey (config w))] in
      match post E {| reqUrl := triggerURL; reqHeaders := headers; reqBody := jsonBody |} w with
      | (w, inr err) =>
          (LogJson "trigger_post_error" [("error", JStr err)] w, (false, Some err))
      | (w, inl resp) =>
          if (200 <=? StatusCode resp) && (StatusCode resp <? 300) then
            (logToFile rec true [] w, (true, None))
          else if (300 <=? StatusCode resp) && (StatusCode resp <=? 500) then
            let respString := Body resp in
            let w := logToFile rec false [("response", JStr respString);
                                          ("responseCode", JInt (StatusCode resp))] w in
            (LogJson "trigger_client_error_final" [("status", JInt (StatusCode resp))] w,
             (true, None))
          else if (StatusCode resp >? 500) then
            (LogJson "trigger_server_error" [("status", JInt (StatusCode resp))] w,
             (false, Some ("server_error, status " ++ Text.decimal (StatusCode resp))%string))
          else (w, (true, None))
      end
  end.

(** [IsHealthSuccess]. *)
Definition IsHealthSuccess (E : Env) (w : World) : World * bool :=
  match httpGet E (clock w) (ServerHost (config w)) with
  | inr err => (LogJson "health_check_error" [("error", JStr err)] (tick w), false)
  | inl resp => (tick w, StatusCode resp =? 200)
  end.


(** *** tools/pebble.go: the replay pass *)

Inductive Flow : Type := Next | Break.

(** The variables of the loop of [ProcessPebble]. *)
Record Pass : Type := mkPass {
  keys : list string;
  count : Z;
  serverErr : option error
}.

Definition set_clock (t : nat) (w : World) : World :=
  {| config := config w; clock := t; fs := fs w;
     stdout := stdout w; sent := sent w; slept := slept w |}.

(** The body of the loop at the pair the iterator stands on. *)
Definition visit (E : Env) (kv : string * string) (w : World) (p : Pass)
  : World * Pass * Flow :=
  if ctxErr E (clock w) then (tick w, p, Break)
  else
    let w := tick w in
    match LogRecordJson.Unmarshal (snd kv) with
    | (_, Some err) => (LogJson "pebble_read_error" [("error", JStr err)] w, p, Next)
    | (rec, None) =>
        match sendToServer E rec w with
        | (w, (_, Some err)) =>
            (w, {| keys := keys p; count := count p; serverErr := Some err |}, Break)
        | (w, (addKey, None)) =>
            if addKey then
              (w, {| keys := keys p ++ [fst kv]; count := count p + 1;
                     serverErr := serverErr p |}, Next)
            else (w, p, Next)
        end
    end.

(** [for iter.First(); iter.Valid(); iter.Next()] over the snapshot. *)
Fixpoint scan (E : Env) (iter : Pebble.Iterator) (w : World) (p : Pass) : World * Pass :=
  match iter with
  | [] => (w, p)
  | kv :: rest =>
      match visit E kv w p with
      | (w', p', Break) => (w', p')
      | (w', p', Next) => scan E rest w' p'
      end
  end.

(** [ProcessPebble]. [None] is the panic of a nil store. *)
Definition ProcessPebble (E : Env) (w : World) : option (World * option error) :=
  let w := FlushPebbleDB w in
  match Db (config w) with
  | None => None
  | Some db =>
      match Pebble.NewIter db with
      | inr err => Some (FlushPebbleDB w, Some err)
      | inl iter =>
          let (w, p) := scan E iter w {| keys := []; count := 0; serverErr := None |} in
          if (0 <? List.length (keys p))%nat then
            match Db (config w) with
            | None => None
            | Some db =>
                match deleteKeysBatch E db (keys p) (clock w) with
                | (_, t, Some err) =>
                    Some (FlushPebbleDB
                            (LogJson "pebble_delete_error" [("error", JStr err)] (set_clock t w)),
                          Some err)
                | (db', t, None) =>
                    Some (FlushPebbleDB
                            (LogJson "pebble_processed" [("processed_count", JInt (count p))]
                               (with_Db (Some db') (set_clock t w))),
                          serverErr p)
                end
            end
          else Some (FlushPebbleDB (LogJson "pebble_processed_none" [] w), serverErr p)
      end
  end.

(** *** tools/config.go: the accepting flag *)

Definition exists_path (path : string) (l : list string) : bool :=
  existsb (String.eqb path) l.

(** [os.OpenFile(path, O_CREATE|O_EXCL, 0644)] in the base directory,
    which exists and is writable once the setup has succeeded. *)
Definition OpenFile_excl (path : string) (l : list string) : (list string * string) + error :=
  if exists_path path l then inr ("open " ++ path ++ ": file exists")%string
  else inl (path :: l, path).

(** [os.Remove(path)], its error dropped. *)
Definition Remove (path : string) (l : list string) : list string :=
  filter (fun p => negb (String.eqb path p)) l.

Definition set_AcceptingFlag (h : option string) (w : World) : World :=
  let f := files (config w) in
  with_files {| acceptingFlagPath := acceptingFlagPath f; AcceptingFlag := h;
                successLog := successLog f; failureLog := failureLog f;
                SocketPath := SocketPath f; dbPath := dbPath f |} w.

(** [EnableAcceptingFlag]. *)
Definition EnableAcceptingFlag (w : World) : World * option error :=
  let path := acceptingFlagPath (files (config w)) in
  match OpenFile_excl path (fs w) with
  | inr err => (w, Some err)
  | inl (l, f) => (set_AcceptingFlag (Some f) (with_fs l w), None)
  end.

(** [DisableAcceptingFlag]. *)
Definition DisableAcceptingFlag (w : World) : World * option error :=
  let w := match AcceptingFlag (files (config w)) with
           | Some _ => set_AcceptingFlag None w
           | None => w
           end in
  (with_fs (Remove (acceptingFlagPath (files (config w))) (fs w)) w, None).

(** *** main.go: the control loop *)

Inductive LoopCtl : Type := Continue | BreakMain.

(** One turn of the [mainRoutine] loop. [None] is a panic. *)
Definition mainIteration (E : Env) (w : World) : option (World * LoopCtl) :=
  if ctxErr E (clock w) then Some (tick w, BreakMain)
  else
    let w := tick w in
    let (w, healthy) := IsHealthSuccess E w in
    if healthy then
      let w := fst (DisableAcceptingFlag w) in
      let w := LogJson "main_healthy_not_accepting_logs" [] w in
      let w := FlushPebbleDB w in
      let w := Sleep 100 w in
      if PebbleIsEmpty (Db (config w)) then
        Some (LogJson "pebble_empty_exiting" [] w, BreakMain)
      else
        match ProcessPebble E w with
        | None => None
        | Some (w, Some err) =>
            let w := LogJson "pebble_process_error" [("error", JStr err)] w in
            if ctxErr E (clock w) then Some (tick w, BreakMain)
            else Some (tick w, Continue)
        | Some (w, None) =>
            if ctxErr E (clock w) then Some (tick w, BreakMain)
            else Some (Sleep 10000 (tick w), Continue)
        end
    else
      match AcceptingFlag (files (config w)) with
      | None =>
          let w := fst (EnableAcceptingFlag w) in
          let w := LogJson "main_unhealthy_accepting_logs" [] w in
          let w := FlushPebbleDB w in
          Some (Sleep 5000 w, Continue)
      | Some _ =>
          let w := FlushPebbleDB w in
          Some (Sleep 5000 w, Continue)
      end.

(** The loop, for at most [fuel] turns; the flag tells whether the
    loop was left. *)
Fixpoint mainRoutine (fuel : nat) (E : Env) (w : World) : option (World * bool) :=
  match fuel with
  | O => Some (w, false)
  | S n =>
      match mainIteration E w with
      | None => None
      | Some (w', BreakMain) => Some (w', true)
      | Some (w', Continue) => mainRoutine n E w'
      end
  end.

End Agent.

(** ** JSON documents the codec is exact on *)

Module JsonSpec.

Import Json GoJson.
Local Open Scope string_scope.

(** The elements of an array and the members of an object as [encode]
    prints them after the opening bracket. *)
Fixpoint encode_elems (l : list json) : string :=
  match l with
  | [] => "]"
  | [x] => encode x ++ "]"
  | x :: r => encode x ++ String "," (encode_elems r)
  end.

Fixpoint encode_members (l : list (string * json)) : string :=
  match l with
  | [] => "}"
  | [(k, x)] => quote k ++ String ":" (encode x ++ "}")
  | (k, x) :: r => quote k ++ String ":" (encode x ++ String "," (encode_members r))
  end.

(** Every number of the document is a number literal of JSON. *)
Inductive lit_ok : json -> Prop :=
| lit_null : lit_ok JNull
| lit_bool : forall b, lit_ok (JBool b)
| lit_num : forall lit, valid_number lit = true -> lit_ok (JNum lit)
| lit_str : forall s, lit_ok (JStr s)
| lit_arr : forall xs, Forall lit_ok xs -> lit_ok (JArr xs)
| lit_obj : forall kvs, Forall (fun kv => lit_ok (snd kv)) kvs -> lit_ok (JObj kvs).

(** A value as [json.Unmarshal] stores it in an [any]: its numbers
    are number literals and the keys of each of its maps ascend. *)
Inductive go_value : json -> Prop :=
| gv_null : go_value JNull
| gv_bool : forall b, go_value (JBool b)
| gv_num : forall lit, valid_number lit = true -> go_value (JNum lit)
| gv_str : forall s, go_value (JStr s)
| gv_arr : forall xs, Forall go_value xs -> go_value (JArr xs)
| gv_obj : forall kvs,
    SMap.sorted kvs -> Forall (fun kv => go_value (snd kv)) kvs -> go_value (JObj kvs).

Definition go_map (m : gomap) : Prop :=
  match m with
  | None => True
  | Some kvs => go_value (JObj kvs)
  end.

(** How deep the arrays and objects of a document nest. *)
Fixpoint nesting (v : json) : nat :=
  match v with
  | JArr xs => S (list_max (map nesting xs))
  | JObj kvs => S (list_max (map (fun kv => nesting (snd kv)) kvs))
  | _ => O
  end.

Definition gomap_nesting (m : gomap) : nat :=
  match m with
  | None => O
  | Some kvs => nesting (JObj kvs)
  end.

Fixpoint all_num (s : string) : bool :=
  match s with
  | EmptyString => true
  | String c r => is_num_char c && all_num r
  end.

(** The text after a number does not go on with a character of a
    number. *)
Definition delimited (rest : string) : Prop :=
  match rest with
  | EmptyString => True
  | String c _ => is_num_char c = false
  end.

(** Parsing the text printed for a document, whatever follows it:
    the document comes back when it nests no deeper than the parser
    may go, and the text is refused when it nests deeper. *)
Definition parses_back (v : json) : Prop :=
  forall fuel depth rest,
    (String.length (encode v) < fuel)%nat -> delimited rest ->
    parse_value fuel depth (encode v ++ rest)
    = if (nesting v <=? depth)%nat then Some (v, rest) else None.

(** What the parser returns has number literals for numbers and nests
    no deeper than it was allowed to go. *)
Definition parsed_ok (depth : nat) (v : json) : Prop :=
  lit_ok v /\ (nesting v <= depth)%nat.

(** Induction on documents, through the lists they nest. *)
Section Induction.
Variable P : json -> Prop.
Hypothesis Hnull : P JNull.
Hypothesis Hbool : forall b, P (JBool b).
Hypothesis Hnum : forall lit, P (JNum lit).
Hypothesis Hstr : forall s, P (JStr s).
Hypothesis Harr : forall xs, Forall P xs -> P (JArr xs).
Hypothesis Hobj : forall kvs, Forall (fun kv => P (snd kv)) kvs -> P (JObj kvs).

Fixpoint json_ind (v : json) : P v :=
  match v with
  | JNull => Hnull
  | JBool b => Hbool b
  | JNum lit => Hnum lit
  | JStr s => Hstr s
  | JArr xs =>
      Harr xs ((fix go (l : list json) : Forall P l :=
                  match l with
                  | [] => Forall_nil P
                  | x :: r => Forall_cons x (json_ind x) (go r)
                  end) xs)
  | JObj kvs =>
      Hobj kvs ((fix go (l : list (string * json)) : Forall (fun kv => P (snd kv)) l :=
                   match l with
                   | [] => Forall_nil _
                   | kv :: r => Forall_cons kv (json_ind (snd kv)) (go r)
                   end) kvs)
  end.
End Induction.

End JsonSpec.

(** ** Notions the properties are stated with *)

Module Props.

Import Json GoJson Agent.
Local Open Scope string_scope.
Local Open Scope list_scope.
Local Open Scope Z_scope.

(** The request [sendToServer] posts for a record. *)
Definition delivery_request (w : World) (rec : logRecord) : Request :=
  {| reqUrl := (ServerHost (config w) ++ "/log")%string;
     reqHeaders := [("DATANADHI-API-KEY", ApiKey (config w))];
     reqBody := encode (JObj [("log_data", of_gomap (Payload rec));
                              ("pipelines", of_strings (Pipelines rec))]) |}.

(** The line of the success log for a record. *)
Definition success_line (rec : logRecord) : string :=
  (encode (JObj [("context", JObj []); ("log_data", LogRecordJson.to_json rec)])
     ++ newline)%string.

(** The line of the failure log for a record and the response that
    refused it: the body and the status are its context. *)
Definition failure_line (rec : logRecord) (resp : Response) : string :=
  (encode (JObj [("context", JObj [("response", JStr (Body resp));
                                   ("responseCode", JNum (Text.decimal (StatusCode resp)))]);
                 ("log_data", LogRecordJson.to_json rec)])
     ++ newline)%string.

(** A transient outcome of a delivery attempt: a transport failure or
    a status above 500. *)
Definition transient (r : Response + error) : Prop :=
  match r with
  | inr _ => True
  | inl resp => 500 < StatusCode resp
  end.

(** The loop of the pass walks the pairs of [iter] from [(w, p)]
    without leaving early and arrives at [(w', p')]. *)
Inductive walks (E : Env) : Pebble.Iterator -> World -> Pass -> World -> Pass -> Prop :=
| walks_nil : forall w p, walks E [] w p w p
| walks_cons : forall kv rest w p w1 p1 w' p',
    visit E kv w p = (w1, p1, Next) ->
    walks E rest w1 p1 w' p' ->
    walks E (kv :: rest) w p w' p'.

Definition successLines (w : World) : option (list string) := successLog (files (config w)).
Definition failureLines (w : World) : option (list string) := failureLog (files (config w)).
Definition store (w : World) : option Pebble.DB := Db (config w).

(** The flag file is present in the base directory. *)
Definition flag_exists (w : World) : bool :=
  exists_path (acceptingFlagPath (files (config w))) (fs w).

(** The health probe of a turn of the control loop that starts in
    [w] sees the server healthy: the GET is answered with status 200. *)
Definition probe_healthy (E : Env) (w : World) : Prop :=
  exists resp, httpGet E (S (clock w)) (ServerHost (config w)) = inl resp /\
               StatusCode resp = 200.

(** The cancellation is seen at one of the questions put to the
    context between the two states. *)
Definition cancelled_between (E : Env) (w w' : World) : Prop :=
  exists t, (clock w <= t < clock w')%nat /\ ctxErr E t = true.

(** The payload [SendLog] keeps for a request: the decoded document,
    or the empty document when the data does not decode. *)
Definition kept_payload (jsonData : string) : gomap :=
  match Unmarshal_map jsonData with
  | (_, Some _) => Some []
  | (m, None) => m
  end.

(** The record [SendLog] builds for a request received in [w]. *)
Definition enqueued_record (E : Env) (req : LogRequest) (w : World) : logRecord :=
  {| Payload := kept_payload (JsonData req);
     Pipelines := reqPipelines req;
     ReceivedAt := RFC3339Nano (timeNow E (clock w)) |}.

(** The key [SendLog] writes under for a request received in [w]. *)
Definition enqueue_key (E : Env) (w : World) : string :=
  make_key (UnixNano (timeNow E (S (clock w)))) (randIntn E (S (S (clock w)))).

(** What the replay pass reads back for a request enqueued in [w]:
    the bytes found under its key, unmarshalled. *)
Definition readback (E : Env) (req : LogRequest) (w : World)
  : option (logRecord * option error) :=
  match SendLog E req w with
  | Some (w', _) =>
      match Db (config w') with
      | Some db =>
          match SMap.lookup (enqueue_key E w) db with
          | Some data => Some (LogRecordJson.Unmarshal data)
          | None => None
          end
      | None => None
      end
  | None => None
  end.

Definition stored : LogResponse := {| Success := true; Message := "stored" |}.
Definition write_failed : LogResponse := {| Success := false; Message := "Db write failed" |}.

(** The error [sendToServer] returns for a transient outcome. *)
Definition delivery_error (r : Response + error) : error :=
  match r with
  | inr err => err
  | inl resp => ("server_error, status " ++ Text.decimal (StatusCode resp))%string
  end.

(** The variables of the loop when a pass starts. *)
Definition pass0 : Pass := {| keys := []; count := 0; serverErr := None |}.

(** The error of the batch delete of a pass that marked [ks] and
    reaches the delete at clock [t]; a pass that marked nothing does
    not delete. *)
Definition delete_error (E : Env) (db : Pebble.DB) (ks : list string) (t : nat) : option error :=
  match ks with
  | [] => None
  | _ :: _ => snd (deleteKeysBatch E db ks t)
  end.

(** [n] replay passes one after the other, whatever each returns. *)
Fixpoint replays (E : Env) (n : nat) (w : World) : option World :=
  match n with
  | O => Some w
  | S m =>
      match ProcessPebble E w with
      | Some (w', _) => replays E m w'
      | None => None
      end
  end.

End Props.

(** ** A concrete agent and concrete environments *)

Module Scenario.

Import Json GoJson Agent.
Local Open Scope string_scope.
Local Open Scope list_scope.
Local Open Scope Z_scope.

Definition files0 : Files :=
  {| acceptingFlagPath := "/var/datanadhi/agent-status.lock";
     AcceptingFlag := None;
     successLog := Some [];
     failureLog := Some [];
     SocketPath := "/var/datanadhi/data-nadhi-agent.sock";
     dbPath := "/var/datanadhi/pebble" |}.

(** The agent right after its setup, with the given store. *)
Definition agent (db : Pebble.DB) : World :=
  {| config := {| ApiKey := "secret"; ServerHost := "http://server:5000";
                  Db := Some db; files := files0 |};
     clock := O; fs := []; stdout := []; sent := []; slept := [] |}.

(** A server that answers every POST with the same status. *)
Definition always (status : Z) : Env :=
  {| ctxErr := fun _ => false;
     timeNow := fun _ => {| UnixNano := 1700000000000000000;
                            RFC3339Nano := "2023-11-14T22:13:20Z" |};
     randIntn := fun _ => 7;
     httpPost := fun _ _ => inl {| StatusCode := status; Body := "answer" |};
     httpGet := fun _ _ => inl {| StatusCode := 200; Body := EmptyString |};
     setFault := fun _ => None;
     deleteFault := fun _ => None;
     commitFault := fun _ => None |}.

Definition record0 : logRecord :=
  {| Payload := Some [("msg", JStr "hello")];
     Pipelines := Some ["test-pipeline"];
     ReceivedAt := "2023-11-14T22:13:20Z" |}.

Definition value0 : string := encode (LogRecordJson.to_json record0).

(** Two requests of two producers. *)
Definition requestA : LogRequest :=
  {| JsonData := encode (JObj [("msg", JStr "first")]);
     reqPipelines := Some ["test-pipeline"] |}.
Definition requestB : LogRequest :=
  {| JsonData := encode (JObj [("msg", JStr "second")]);
     reqPipelines := Some ["test-pipeline"] |}.

(** A server that answers the POST asked at clock 1 with 200 and every
    other POST with 503, and a store that refuses to commit. *)
Definition ok_then_busy (commit : option error) : Env :=
  {| ctxErr := fun _ => false;
     timeNow := fun _ => {| UnixNano := 1700000000000000000;
                            RFC3339Nano := "2023-11-14T22:13:20Z" |};
     randIntn := fun _ => 7;
     httpPost := fun t _ => if Nat.eqb t 1
                            then inl {| StatusCode := 200; Body := "ok" |}
                            else inl {| StatusCode := 503; Body := "busy" |};
     httpGet := fun _ _ => inl {| StatusCode := 200; Body := EmptyString |};
     setFault := fun _ => None;
     deleteFault := fun _ => None;
     commitFault := fun _ => commit |}.

(** [n] arrays around a document. *)
Fixpoint wrap (n : nat) (v : json) : json :=
  match n with
  | O => v
  | S m => JArr [wrap m v]
  end.

(** A document that nests as deep as the scanner allows, an object
    that holds arrays within arrays, and the request that carries it. *)
Definition deep_payload : list (string * json) :=
  [("a", wrap (maxNestingDepth - 1) JNull)].

Definition requestDeep : LogRequest :=
  {| JsonData := encode (JObj deep_payload);
     reqPipelines := Some ["test-pipeline"] |}.

(** A store of three records A, B and C in key order. *)
Definition storeABC : Pebble.DB :=
  [("1700000000000000001_7", value0);
   ("1700000000000000002_7", value0);
   ("1700000000000000003_7", value0)].

End Scenario.

(** * Further parts of the code and notions to state their properties *)

(** ** Decimal numerals *)

Module Numerals.

Local Open Scope N_scope.

(** The characters of a decimal numeral: the digits and the sign. *)
Fixpoint numeral (s : string) : bool :=
  match s with
  | EmptyString => true
  | String c r => (Text.is_digit c || (c =? "-")%char) && numeral r
  end.

(** The number a numeral denotes, most significant digit first,
    continuing from the number [acc] of the digits read before. *)
Fixpoint uint_value (d : Decimal.uint) (acc : N) : N :=
  match d with
  | Decimal.Nil => acc
  | Decimal.D0 l => uint_value l (10 * acc)
  | Decimal.D1 l => uint_value l (1 + 10 * acc)
  | Decimal.D2 l => uint_value l (2 + 10 * acc)
  | Decimal.D3 l => uint_value l (3 + 10 * acc)
  | Decimal.D4 l => uint_value l (4 + 10 * acc)
  | Decimal.D5 l => uint_value l (5 + 10 * acc)
  | Decimal.D6 l => uint_value l (6 + 10 * acc)
  | Decimal.D7 l => uint_value l (7 + 10 * acc)
  | Decimal.D8 l => uint_value l (8 + 10 * acc)
  | Decimal.D9 l => uint_value l (9 + 10 * acc)
  end.

(** Ten to the power [n]. *)
Fixpoint pow10 (n : nat) : N :=
  match n with
  | O => 1
  | S m => 10 * pow10 m
  end.

(** The first digit of the numeral is not a zero. *)
Definition head_nonzero (d : Decimal.uint) : bool :=
  match d with
  | Decimal.Nil | Decimal.D0 _ => false
  | _ => true
  end.

End Numerals.

(** ** The replay pass, entry by entry *)

Module Replay.

Import Json GoJson JsonSpec Agent Props.
Local Open Scope string_scope.
Local Open Scope list_scope.
Local Open Scope Z_scope.

(** The stored value decodes as a [logRecord]. *)
Definition decodes (v : string) : bool :=
  match snd (LogRecordJson.Unmarshal v) with
  | None => true
  | Some _ => false
  end.

(** The record a stored value decodes to. *)
Definition record_of (v : string) : logRecord := fst (LogRecordJson.Unmarshal v).

(** The entries of a store that decode, and those that do not. *)
Definition readable (db : Pebble.DB) : Pebble.DB :=
  filter (fun kv => decodes (snd kv)) db.
Definition unreadable (db : Pebble.DB) : Pebble.DB :=
  filter (fun kv => negb (decodes (snd kv))) db.

(** The requests for the entries of a store that decode, in key
    order. *)
Definition requests_for (w : World) (db : Pebble.DB) : list Request :=
  map (fun kv => delivery_request w (record_of (snd kv))) (readable db).

(** The attempt made at clock [t] was answered, with a status of at
    most 500: the outcomes after which [sendToServer] has the record
    deleted. *)
Definition resolved (E : Env) (t : nat) (rq : Request) : Prop :=
  exists resp, httpPost E t rq = inl resp /\ StatusCode resp <= 500.

(** The variables of the loop once it has marked the key [k]. *)
Definition mark (k : string) (p : Pass) : Pass :=
  {| keys := keys p ++ [k]; count := count p + 1; serverErr := serverErr p |}.

(** The variables of the loop once an attempt has failed with
    [err]. *)
Definition failed (err : error) (p : Pass) : Pass :=
  {| keys := keys p; count := count p; serverErr := Some err |}.

(** What [sendToServer] leaves as it is. *)
Definition same_agent (w w' : World) : Prop :=
  ServerHost (config w') = ServerHost (config w) /\
  ApiKey (config w') = ApiKey (config w) /\
  fs w' = fs w /\
  slept w' = slept w /\
  AcceptingFlag (files (config w')) = AcceptingFlag (files (config w)) /\
  acceptingFlagPath (files (config w')) = acceptingFlagPath (files (config w)) /\
  store w' = store w.

(** A request of a pass was made right after the context was asked
    and had not been cancelled. *)
Definition checked (E : Env) (t0 : nat) (x : nat * Request) : Prop :=
  exists t, fst x = S t /\ (t0 <= t)%nat /\ ctxErr E t = false.


End Replay.

(** ** main.go: a turn of the control loop *)

Module Loop.

Import Json GoJson Agent Props.
Local Open Scope string_scope.
Local Open Scope list_scope.
Local Open Scope Z_scope.

(** What the health probe of the turn that starts in [w] reports. *)
Definition probe (E : Env) (w : World) : bool :=
  match httpGet E (S (clock w)) (ServerHost (config w)) with
  | inl resp => StatusCode resp =? 200
  | inr _ => false
  end.

(** A flag handle the agent holds stands for a flag file that
    exists. *)
Definition flag_held_exists (w : World) : Prop :=
  AcceptingFlag (files (config w)) <> None -> flag_exists w = true.

(** The state in which a healthy turn looks at the store. *)
Definition after_probe (w : World) : World :=
  Sleep 100 (LogJson "main_healthy_not_accepting_logs" []
               (fst (DisableAcceptingFlag (tick (tick w))))).

End Loop.

(** ** internal/client/main.go: the test client *)

Module Client.

Import Json GoJson Agent.
Local Open Scope list_scope.
Local Open Scope string_scope.

Definition q : string := String dquote EmptyString.

(** [fmt.Sprintf] of the payload of the message of index [i]. *)
Definition jsonPayload (i : Z) : string :=
  "{" ++ q ++ "msg" ++ q ++ ":" ++ q ++ "log message " ++ Text.decimal i ++ q ++ ","
      ++ q ++ "level" ++ q ++ ":" ++ q ++ "INFO" ++ q ++ "}".

(** The request of index [i]. *)
Definition request (i : Z) : LogRequest :=
  {| JsonData := jsonPayload i; reqPipelines := Some ["test-pipeline"] |}.

(** The payload the agent is to keep for it. *)
Definition payload (i : Z) : list (string * json) :=
  [("level", JStr "INFO"); ("msg", JStr ("log message " ++ Text.decimal i))].

End Client.

(** ** tools/log.go: the text of a line *)

Module LogText.

Import Json GoJson Agent.
Local Open Scope string_scope.
Local Open Scope list_scope.

(** The map [LogJson] marshals for a line printed when the clock
    reads [now]: the two entries of the literal, then the fields
    merged into it. *)
Definition entry (now : string) (l : LogLine) : list (string * json) :=
  SMap.of_list_into (SMap.of_list [("time", JStr now); ("event", JStr (event l))])
                    (fields l).

(** What [fmt.Println] writes for it. *)
Definition text (now : string) (l : LogLine) : string :=
  (encode (JObj (entry now l)) ++ newline)%string.

(** A string or a number. *)
Definition scalar (v : json) : bool :=
  match v with
  | JStr _ => true
  | JNum lit => valid_number lit
  | _ => false
  end.

(** The fields of the line are scalars under keys other than the two
    of the literal. *)
Definition plain (l : LogLine) : bool :=
  forallb (fun kv => negb (fst kv =? "time") && negb (fst kv =? "event") && scalar (snd kv))
          (fields l).

(** From [w] to [w'] only plain lines were printed. *)
Definition prints_plain (w w' : World) : Prop :=
  exists out, stdout w' = stdout w ++ out /\ Forall (fun l => plain l = true) out.

End LogText.

(** ** tools/config.go and main.go: the way out *)

Module Shutdown.

Import Json GoJson Agent Props.
Local Open Scope string_scope.
Local Open Scope list_scope.

Inductive Handle : Type := HAcceptingFlag | HSuccessLog | HFailureLog | HDb.

(** [CloseFiles]: the state it leaves and the handles it closes, in
    the order of the calls. Closing a handle does not change what the
    state records of it. [os.RemoveAll] of the store directory removes
    its path. *)
Definition CloseFiles (w : World) : World * list Handle :=
  let f := files (config w) in
  let closed :=
    (if is_open (AcceptingFlag f) then [HAcceptingFlag] else []) ++
    (if is_open (successLog f) then [HSuccessLog] else []) ++
    (if is_open (failureLog f) then [HFailureLog] else []) in
  let w := with_fs (Remove (SocketPath f) (fs w)) w in
  let shouldRemovePebble := PebbleIsEmpty (Db (config w)) in
  match Db (config w) with
  | Some _ =>
      if shouldRemovePebble
      then (with_fs (Remove (dbPath (files (config w))) (fs w)) w, closed ++ [HDb])
      else (w, closed ++ [HDb])
  | None => (w, closed)
  end.

(** The calls [main] defers once the setup has succeeded, in the order
    they run when it returns. *)
Definition deferred (w : World) : World * list Handle :=
  CloseFiles (fst (DisableAcceptingFlag w)).

(** The store is open and holds nothing. *)
Definition drained (w : World) : bool :=
  match store w with
  | Some [] => true
  | _ => false
  end.

End Shutdown.

(** ** Further concrete environments and states *)

Module Cases.

Import Json GoJson Agent.
Local Open Scope string_scope.
Local Open Scope list_scope.
Local Open Scope Z_scope.

(** A clock that advances by a nanosecond at each question, under a
    server that accepts every record. *)
Definition ticking : Env :=
  {| ctxErr := fun _ => false;
     timeNow := fun t => {| UnixNano := 1700000000000001000 + Z.of_nat t;
                            RFC3339Nano := "2023-11-14T22:13:20Z" |};
     randIntn := fun _ => 7;
     httpPost := fun _ _ => inl {| StatusCode := 200; Body := "ok" |};
     httpGet := fun _ _ => inl {| StatusCode := 200; Body := EmptyString |};
     setFault := fun _ => None;
     deleteFault := fun _ => None;
     commitFault := fun _ => None |}.

(** A server that cannot be reached. *)
Definition unreachable : Env :=
  {| ctxErr := fun _ => false;
     timeNow := fun _ => {| UnixNano := 1700000000000000000;
                            RFC3339Nano := "2023-11-14T22:13:20Z" |};
     randIntn := fun _ => 7;
     httpPost := fun _ _ => inr "connection refused";
     httpGet := fun _ _ => inr "connection refused";
     setFault := fun _ => None;
     deleteFault := fun _ => None;
     commitFault := fun _ => None |}.

(** A server that accepts every record, over a store that refuses
    every commit. *)
Definition full_disk : Env :=
  {| ctxErr := fun _ => false;
     timeNow := fun _ => {| UnixNano := 1700000000000000000;
                            RFC3339Nano := "2023-11-14T22:13:20Z" |};
     randIntn := fun _ => 7;
     httpPost := fun _ _ => inl {| StatusCode := 200; Body := "ok" |};
     httpGet := fun _ _ => inl {| StatusCode := 200; Body := EmptyString |};
     setFault := fun _ => None;
     deleteFault := fun _ => None;
     commitFault := fun _ => Some "no space left on device" |}.

(** The state an enqueue, a turn of the loop and the loop leave. *)
Definition after_SendLog (E : Env) (req : LogRequest) (w : World) : World :=
  match SendLog E req w with
  | Some (w', _) => w'
  | None => w
  end.

Definition after_turn (E : Env) (w : World) : World :=
  match mainIteration E w with
  | Some (w', _) => w'
  | None => w
  end.

Definition after_loop (fuel : nat) (E : Env) (w : World) : World :=
  match mainRoutine fuel E w with
  | Some (w', _) => w'
  | None => w
  end.

End Cases.

(** * Proof automation *)

(** A case for each of the 256 characters. *)
Ltac each_char c :=
  destruct c as [[] [] [] [] [] [] [] []].

(** Case analysis on every scrutinee of the term that a hypothesis
    equates with a result, dropping the cases it excludes. *)
Ltac break_matches H :=
  repeat match type of H with
         | match ?x with _ => _ end = _ =>
             let Eq := fresh "Eq" in destruct x eqn:Eq; try discriminate H
         end.

(** Case analysis on the answer of the context that the goal or a
    hypothesis branches on. *)
Ltac case_cancelled :=
  match goal with
  | |- context [if ctxErr ?E ?t then _ else _] => destruct (ctxErr E t)
  | H : context [if ctxErr ?E ?t then _ else _] |- _ => destruct (ctxErr E t)
  end.

(** The value of a numeral whose first digit is known, split by the
    lemma [lem] into that of the digit and that of the rest. *)
Ltac digit_values lem d d' :=
  repeat match goal with
         | H : context [Numerals.uint_value d (?k + 10 * 0)%N] |- _ =>
             rewrite (proj1 (lem d (k + 10 * 0)%N)) in H
         | H : context [Numerals.uint_value d (10 * 0)%N] |- _ =>
             rewrite (proj1 (lem d (10 * 0)%N)) in H
         | H : context [Numerals.uint_value d' (?k + 10 * 0)%N] |- _ =>
             rewrite (proj1 (lem d' (k + 10 * 0)%N)) in H
         | H : context [Numerals.uint_value d' (10 * 0)%N] |- _ =>
             rewrite (proj1 (lem d' (10 * 0)%N)) in H
         end.


(** * Facts about the models *)

(** ** The order of keys *)

Section KeyOrder.

Lemma compare_refl a : String.compare a a = Eq.
Proof. apply String_as_OT.cmp_eq. reflexivity. Qed.

Lemma key_lt_trans a b c : SMap.key_lt a b -> SMap.key_lt b c -> SMap.key_lt a c.
Proof.
  unfold SMap.key_lt. intros H1 H2.
  apply String_as_OT.cmp_lt. apply String_as_OT.cmp_lt in H1, H2.
  eapply String_as_OT.lt_trans; eassumption.
Qed.

Lemma key_lt_irrefl a : ~ SMap.key_lt a a.
Proof.
  unfold SMap.key_lt. intros H.
  rewrite compare_refl in H. discriminate.
Qed.

Lemma compare_Gt_lt a b : String.compare a b = Gt -> SMap.key_lt b a.
Proof.
  unfold SMap.key_lt. intros H. rewrite String.compare_antisym, H. reflexivity.
Qed.

Lemma key_lt_Gt a b : SMap.key_lt a b -> String.compare b a = Gt.
Proof.
  unfold SMap.key_lt. intros H. rewrite String.compare_antisym, H. reflexivity.
Qed.

Lemma ascending_NoDup ks : SMap.ascending ks -> NoDup ks.
Proof.
  induction ks as [|k r IH]; cbn; intros H; constructor.
  - destruct H as [Hall _]. intros Hin.
    rewrite Forall_forall in Hall. apply (key_lt_irrefl k). auto.
  - apply IH. apply H.
Qed.

Lemma ascending_app l1 l2 :
  SMap.ascending (l1 ++ l2) <->
  SMap.ascending l1 /\ SMap.ascending l2 /\
  (forall a b, In a l1 -> In b l2 -> SMap.key_lt a b).
Proof.
  induction l1 as [|k r IH]; cbn.
  - intuition.
  - rewrite Forall_app, IH. split.
    + intros [[H1 H2] (H3 & H4 & H5)]. repeat split; auto.
      intros a b [<-|Ha] Hb; [|auto].
      rewrite Forall_forall in H2. auto.
    + intros ([H1 H2] & H3 & H4). repeat split; auto.
      apply Forall_forall. intros b Hb. auto.
Qed.

End KeyOrder.

(** ** Association lists *)

Section SMapFacts.

Context {V : Type}.
Implicit Types (m : list (string * V)) (k : string) (v : V).

Lemma lookup_remove_same k m : SMap.lookup k (SMap.remove k m) = None.
Proof.
  induction m as [|[k' v'] r IH]; cbn; [reflexivity|].
  destruct (String.eqb k k') eqn:Hk; [exact IH|].
  cbn. rewrite Hk. exact IH.
Qed.

Lemma lookup_remove_other k k' m :
  k <> k' -> SMap.lookup k' (SMap.remove k m) = SMap.lookup k' m.
Proof.
  intros Hne. induction m as [|[k1 v1] r IH]; cbn; [reflexivity|].
  destruct (String.eqb k k1) eqn:Hk.
  - apply String.eqb_eq in Hk. subst k1.
    destruct (String.eqb k' k) eqn:Hk'; [|exact IH].
    apply String.eqb_eq in Hk'. congruence.
  - cbn. destruct (String.eqb k' k1); [reflexivity|exact IH].
Qed.

Lemma In_remove_other k k' v m :
  k <> k' -> In (k', v) m -> In (k', v) (SMap.remove k m).
Proof.
  intros Hne. induction m as [|[k1 v1] r IH]; cbn; [auto|].
  intros [Heq|Hin].
  - inversion Heq; subst. destruct (String.eqb k k') eqn:Hk.
    + apply String.eqb_eq in Hk. congruence.
    + left. reflexivity.
  - destruct (String.eqb k k1); [auto|]. right. auto.
Qed.

Lemma In_remove k kv m : In kv (SMap.remove k m) -> In kv m.
Proof.
  induction m as [|[k1 v1] r IH]; cbn; [auto|].
  destruct (String.eqb k k1); cbn; intuition.
Qed.

Lemma lookup_insert_same k v m : SMap.lookup k (SMap.insert k v m) = Some v.
Proof.
  induction m as [|[k' v'] r IH]; cbn.
  - rewrite String.eqb_refl. reflexivity.
  - destruct (String.compare k k') eqn:Hc; cbn.
    + rewrite String.eqb_refl. reflexivity.
    + rewrite String.eqb_refl. reflexivity.
    + destruct (String.eqb k k') eqn:Hk; [|exact IH].
      apply String.eqb_eq in Hk. subst k'.
      rewrite compare_refl in Hc. discriminate.
Qed.

Lemma lookup_insert_other k k' v m :
  k <> k' -> SMap.lookup k' (SMap.insert k v m) = SMap.lookup k' m.
Proof.
  intros Hne. induction m as [|[k1 v1] r IH]; cbn.
  - destruct (String.eqb k' k) eqn:Hk; [|reflexivity].
    apply String.eqb_eq in Hk. congruence.
  - destruct (String.compare k k1) eqn:Hc; cbn.
    + apply String.compare_eq_iff in Hc. subst k1.
      destruct (String.eqb k' k) eqn:Hk; [|reflexivity].
      apply String.eqb_eq in Hk. congruence.
    + destruct (String.eqb k' k) eqn:Hk; [|reflexivity].
      apply String.eqb_eq in Hk. congruence.
    + destruct (String.eqb k' k1); [reflexivity|exact IH].
Qed.

End SMapFacts.

Section SortedFacts.

Context {V : Type}.
Implicit Types (m : list (string * V)) (k : string) (v : V).

Lemma sorted_lookup_In k v m : SMap.sorted m -> In (k, v) m -> SMap.lookup k m = Some v.
Proof.
  unfold SMap.sorted. induction m as [|[k1 v1] r IH]; cbn; [tauto|].
  intros [Hall Hs] [Heq|Hin].
  - inversion Heq; subst. rewrite String.eqb_refl. reflexivity.
  - destruct (String.eqb k k1) eqn:Hk; [|auto].
    apply String.eqb_eq in Hk. subst k1. exfalso.
    rewrite Forall_forall in Hall. apply (key_lt_irrefl k). apply Hall.
    apply in_map_iff. exists (k, v). auto.
Qed.

Lemma lookup_In k v m : SMap.lookup k m = Some v -> In (k, v) m.
Proof.
  induction m as [|[k1 v1] r IH]; cbn; [discriminate|].
  destruct (String.eqb k k1) eqn:Hk.
  - apply String.eqb_eq in Hk. subst. intros [= ->]. auto.
  - auto.
Qed.

Lemma keys_remove_incl k m a : In a (map fst (SMap.remove k m)) -> In a (map fst m).
Proof.
  rewrite !in_map_iff. intros (kv & H1 & H2). exists kv. split; [auto|].
  eapply In_remove; eauto.
Qed.

Lemma sorted_remove k m : SMap.sorted m -> SMap.sorted (SMap.remove k m).
Proof.
  unfold SMap.sorted. induction m as [|[k1 v1] r IH]; cbn; [auto|].
  intros [Hall Hs]. destruct (String.eqb k k1); [auto|].
  cbn. split; [|auto].
  rewrite Forall_forall in *. intros a Ha. apply Hall.
  eapply keys_remove_incl; eauto.
Qed.

Lemma keys_insert k v m a :
  In a (map fst (SMap.insert k v m)) -> a = k \/ In a (map fst m).
Proof.
  induction m as [|[k1 v1] r IH]; cbn.
  - intuition.
  - destruct (String.compare k k1) eqn:Hc; cbn; intuition.
Qed.

Lemma sorted_insert k v m : SMap.sorted m -> SMap.sorted (SMap.insert k v m).
Proof.
  unfold SMap.sorted. induction m as [|[k1 v1] r IH]; cbn.
  - auto.
  - intros [Hall Hs]. destruct (String.compare k k1) eqn:Hc; cbn.
    + apply String.compare_eq_iff in Hc. subst k1. auto.
    + split; [|auto]. constructor; [exact Hc|].
      rewrite Forall_forall in *. intros a Ha.
      eapply key_lt_trans; [exact Hc|auto].
    + split; [|auto].
      rewrite Forall_forall in *. intros a Ha.
      apply keys_insert in Ha. destruct Ha as [->|Ha]; [|auto].
      apply compare_Gt_lt. exact Hc.
Qed.

Lemma insert_last k v m :
  (forall a, In a (map fst m) -> SMap.key_lt a k) ->
  SMap.insert k v m = m ++ [(k, v)].
Proof.
  induction m as [|[k1 v1] r IH]; cbn; [reflexivity|].
  intros H. rewrite (key_lt_Gt k1 k) by auto.
  f_equal. apply IH. auto.
Qed.

Lemma of_list_into_sorted m l :
  SMap.sorted (m ++ l) -> SMap.of_list_into m l = m ++ l.
Proof.
  revert m. induction l as [|[k v] r IH]; intros m Hs.
  - cbn. rewrite app_nil_r. reflexivity.
  - unfold SMap.of_list_into in *. cbn [fold_left fst snd].
    rewrite insert_last.
    + rewrite IH; rewrite <- app_assoc; [reflexivity|exact Hs].
    + intros a Ha. unfold SMap.sorted in Hs. rewrite map_app in Hs.
      apply ascending_app in Hs. destruct Hs as (_ & _ & H). apply H; cbn; auto.
Qed.

Lemma of_list_sorted_id (l : list (string * V)) : SMap.sorted l -> SMap.of_list l = l.
Proof. intros H. change (SMap.of_list_into [] l = [] ++ l). apply of_list_into_sorted. exact H. Qed.

Lemma of_list_into_is_sorted m l : SMap.sorted m -> SMap.sorted (SMap.of_list_into m l).
Proof.
  revert m. induction l as [|[k v] r IH]; intros m Hs; [exact Hs|].
  unfold SMap.of_list_into in *. cbn [fold_left]. apply IH. apply sorted_insert. exact Hs.
Qed.

Lemma In_insert k v m kv : In kv (SMap.insert k v m) -> kv = (k, v) \/ In kv m.
Proof.
  induction m as [|[k1 v1] r IH]; cbn.
  - intuition.
  - destruct (String.compare k k1); cbn; intuition.
Qed.

Lemma Forall_insert (P : string * V -> Prop) k v m :
  P (k, v) -> Forall P m -> Forall P (SMap.insert k v m).
Proof.
  intros Hk Hm. apply Forall_forall. intros kv Hin.
  apply In_insert in Hin. destruct Hin as [->|Hin]; [exact Hk|].
  rewrite Forall_forall in Hm. auto.
Qed.

Lemma Forall_of_list_into (P : string * V -> Prop) m l :
  Forall P m -> Forall P l -> Forall P (SMap.of_list_into m l).
Proof.
  revert m. induction l as [|[k v] r IH]; intros m Hm Hl; [exact Hm|].
  unfold SMap.of_list_into in *. cbn [fold_left]. inversion Hl; subst.
  apply IH; [|assumption]. apply Forall_insert; assumption.
Qed.

End SortedFacts.

(** ** The JSON codec: printing, then parsing *)

Section StringFacts.

Local Open Scope string_scope.

Lemma append_assoc (a b c : string) : (a ++ b) ++ c = a ++ (b ++ c).
Proof. induction a as [|x a IH]; cbn; [reflexivity|]. rewrite IH. reflexivity. Qed.

Lemma append_nil_r (a : string) : a ++ EmptyString = a.
Proof. induction a as [|x a IH]; cbn; [reflexivity|]. rewrite IH. reflexivity. Qed.

Lemma length_append (a b : string) :
  String.length (a ++ b) = String.length a + String.length b.
Proof. induction a as [|x a IH]; cbn; [reflexivity|]. rewrite IH. reflexivity. Qed.

End StringFacts.

Import Json GoJson JsonSpec Agent Props.


Section CharFacts.

Local Open Scope string_scope.

Lemma parse_chars_escape_char (c : ascii) (r : string) :
  parse_chars (escape_char c ++ r) = prepend (String c EmptyString) (parse_chars r).
Proof. each_char c; reflexivity. Qed.

Lemma parse_chars_escape (s rest : string) :
  parse_chars (escape s ++ String dquote rest) = Some (s, rest).
Proof.
  induction s as [|c s IH]; [reflexivity|].
  cbn [escape]. rewrite append_assoc, parse_chars_escape_char, IH. reflexivity.
Qed.

Lemma parse_chars_quote (s rest : string) :
  parse_chars (escape s ++ String dquote EmptyString ++ rest) = Some (s, rest).
Proof. apply parse_chars_escape. Qed.

End CharFacts.

Section NumberFacts.

Local Open Scope string_scope.

Lemma is_digit_num_char (c : ascii) : Text.is_digit c = true -> is_num_char c = true.
Proof. unfold is_num_char. intros ->. reflexivity. Qed.

Lemma all_num_drop_digits (s : string) :
  all_num (drop_digits s) = true -> all_num s = true.
Proof.
  induction s as [|c s IH]; [auto|]. cbn.
  destruct (Text.is_digit c) eqn:Hd; [|auto].
  intros H. rewrite (is_digit_num_char c Hd). cbn. auto.
Qed.

Lemma eqb_empty (s : string) : (s =? EmptyString) = true -> s = EmptyString.
Proof. apply String.eqb_eq. Qed.

Lemma valid_exponent_all_num (s : string) : valid_exponent s = true -> all_num s = true.
Proof.
  destruct s as [|e r]; [reflexivity|]. unfold valid_exponent.
  destruct ((e =? "e")%char || (e =? "E")%char) eqn:He; [|discriminate].
  assert (Hne : is_num_char e = true).
  { unfold is_num_char. apply orb_true_iff in He. destruct He as [->| ->];
      rewrite ?orb_true_r; reflexivity. }
  cbn [all_num]. rewrite Hne. cbn [andb].
  assert (Hdigits : forall d r2, Text.is_digit d && (drop_digits r2 =? EmptyString) = true ->
                                 all_num (String d r2) = true).
  { intros d r2 H. apply andb_true_iff in H. destruct H as [Hd Hr].
    cbn. rewrite (is_digit_num_char d Hd). cbn.
    apply all_num_drop_digits. apply eqb_empty in Hr. rewrite Hr. reflexivity. }
  destruct r as [|sg r']; [discriminate|].
  destruct ((sg =? "+")%char || (sg =? "-")%char) eqn:Hsg.
  - destruct r' as [|d r2]; [discriminate|]. intros H.
    assert (Hns : is_num_char sg = true).
    { unfold is_num_char. apply orb_true_iff in Hsg. destruct Hsg as [->| ->];
        rewrite ?orb_true_r; reflexivity. }
    cbn [all_num]. rewrite Hns. cbn [andb]. apply Hdigits. exact H.
  - apply Hdigits.
Qed.

Lemma valid_fraction_all_num (s : string) : valid_fraction s = true -> all_num s = true.
Proof.
  destruct s as [|c r]; [reflexivity|]. unfold valid_fraction.
  destruct (c =? ".")%char eqn:Hc.
  - destruct r as [|d r']; [discriminate|]. intros H.
    apply andb_true_iff in H. destruct H as [Hd Hr].
    apply Ascii.eqb_eq in Hc. subst c.
    cbn [all_num]. rewrite (is_digit_num_char d Hd).
    change (is_num_char ".") with true. cbn [andb].
    apply all_num_drop_digits. apply valid_exponent_all_num. exact Hr.
  - apply valid_exponent_all_num.
Qed.

Lemma valid_number_all_num (s : string) : valid_number s = true -> all_num s = true.
Proof.
  unfold valid_number.
  assert (Hbody : forall s1,
             match s1 with
             | EmptyString => false
             | String c r =>
                 Text.is_digit c && valid_fraction (if (c =? "0")%char then r else drop_digits r)
             end = true -> all_num s1 = true).
  { intros [|c r]; [discriminate|]. intros H.
    apply andb_true_iff in H. destruct H as [Hd Hr].
    cbn [all_num]. rewrite (is_digit_num_char c Hd). cbn [andb].
    apply valid_fraction_all_num in Hr.
    destruct (c =? "0")%char; [exact Hr|]. apply all_num_drop_digits. exact Hr. }
  destruct s as [|c r]; [discriminate|].
  destruct (c =? "-")%char eqn:Hc; [|apply (Hbody (String c r))].
  intros H. apply Hbody in H. apply Ascii.eqb_eq in Hc. subst c.
  cbn [all_num]. change (is_num_char "-") with true. exact H.
Qed.

Lemma span_num_app (lit rest : string) :
  all_num lit = true -> delimited rest -> span_num (lit ++ rest) = (lit, rest).
Proof.
  intros Hlit Hrest. induction lit as [|c lit IH].
  - cbn. destruct rest as [|c r]; [reflexivity|]. cbn in Hrest. cbn. rewrite Hrest. reflexivity.
  - cbn in Hlit. apply andb_true_iff in Hlit. destruct Hlit as [Hc Hl].
    cbn. rewrite Hc, (IH Hl). reflexivity.
Qed.

Lemma parse_number_valid (lit rest : string) :
  valid_number lit = true -> delimited rest ->
  parse_number (lit ++ rest) = Some (JNum lit, rest).
Proof.
  intros Hv Hr. unfold parse_number.
  rewrite span_num_app by (auto using valid_number_all_num). rewrite Hv. reflexivity.
Qed.

Lemma valid_number_head (lit : string) :
  valid_number lit = true ->
  exists c r, lit = String c r /\ is_num_char c = true.
Proof.
  intros H. pose proof (valid_number_all_num lit H) as Ha.
  destruct lit as [|c r]; [discriminate|].
  exists c, r. split; [reflexivity|]. cbn in Ha. apply andb_true_iff in Ha. apply Ha.
Qed.

End NumberFacts.

Section ParserFacts.

Local Open Scope string_scope.
Local Open Scope nat_scope.

Lemma num_char_head (c : ascii) :
  is_num_char c = true ->
  is_ws c = false /\ (c =? "]")%char = false /\ (c =? "}")%char = false.
Proof. each_char c; intros H; try discriminate H; repeat split. Qed.

Lemma parse_value_num (f d : nat) (c : ascii) (r : string) :
  is_num_char c = true ->
  parse_value (S f) d (String c r) = parse_number (String c r).
Proof. each_char c; intros H; try discriminate H; reflexivity. Qed.

Lemma parse_value_str (f d : nat) (r : string) :
  parse_value (S f) d (String dquote r) =
  match parse_chars r with
  | Some (str, r') => Some (JStr str, r')
  | None => None
  end.
Proof. reflexivity. Qed.

Lemma parse_value_arr (f d : nat) (r : string) :
  parse_value (S f) d (String "[" r) =
  match d with
  | O => None
  | S d' =>
      match skip_ws r with
      | EmptyString => None
      | String c1 r1 =>
          if (c1 =? "]")%char then Some (JArr [], r1)
          else match parse_elems f d' r with
               | Some (xs, r') => Some (JArr xs, r')
               | None => None
               end
      end
  end.
Proof. reflexivity. Qed.

Lemma parse_value_obj (f d : nat) (r : string) :
  parse_value (S f) d (String "{" r) =
  match d with
  | O => None
  | S d' =>
      match skip_ws r with
      | EmptyString => None
      | String c1 r1 =>
          if (c1 =? "}")%char then Some (JObj [], r1)
          else match parse_members f d' r with
               | Some (kvs, r') => Some (JObj kvs, r')
               | None => None
               end
      end
  end.
Proof. reflexivity. Qed.

Lemma parse_elems_S (f d : nat) (s : string) :
  parse_elems (S f) d s =
  match parse_value f d s with
  | None => None
  | Some (v, r) =>
      match skip_ws r with
      | EmptyString => None
      | String c r' =>
          if (c =? ",")%char then
            match parse_elems f d r' with
            | Some (vs, r'') => Some (v :: vs, r'')
            | None => None
            end
          else if (c =? "]")%char then Some ([v], r')
          else None
      end
  end.
Proof. reflexivity. Qed.

Lemma parse_members_quote (f d : nat) (r : string) :
  parse_members (S f) d (String dquote r) =
  match parse_chars r with
  | None => None
  | Some (k, r1) =>
      match skip_ws r1 with
      | EmptyString => None
      | String col r2 =>
          if (col =? ":")%char then
            match parse_value f d r2 with
            | None => None
            | Some (v, r3) =>
                match skip_ws r3 with
                | EmptyString => None
                | String c r4 =>
                    if (c =? ",")%char then
                      match parse_members f d r4 with
                      | Some (kvs, r5) => Some ((k, v) :: kvs, r5)
                      | None => None
                      end
                    else if (c =? "}")%char then Some ([(k, v)], r4)
                    else None
                end
            end
          else None
      end
  end.
Proof. reflexivity. Qed.

Lemma encode_arr (xs : list json) : encode (JArr xs) = String "[" (encode_elems xs).
Proof. reflexivity. Qed.

Lemma encode_obj (kvs : list (string * json)) :
  encode (JObj kvs) = String "{" (encode_members kvs).
Proof. reflexivity. Qed.

(** The first character of a printed document. *)
Lemma encode_head (v : json) :
  lit_ok v ->
  exists c r, encode v = String c r /\
              is_ws c = false /\ (c =? "]")%char = false /\ (c =? "}")%char = false.
Proof.
  intros H. destruct H as [|b|lit Hlit|s|xs _|kvs _].
  - do 2 eexists. split; [reflexivity|]. repeat split.
  - destruct b; do 2 eexists; (split; [reflexivity|]); repeat split.
  - destruct (valid_number_head lit Hlit) as (c & r & -> & Hc).
    exists c, r. split; [reflexivity|]. apply num_char_head. exact Hc.
  - do 2 eexists. split; [reflexivity|]. repeat split.
  - do 2 eexists. split; [apply encode_arr|]. repeat split.
  - do 2 eexists. split; [apply encode_obj|]. repeat split.
Qed.

Lemma skip_ws_head (c : ascii) (r : string) :
  is_ws c = false -> skip_ws (String c r) = String c r.
Proof. intros H. cbn. rewrite H. reflexivity. Qed.

Lemma nesting_arr_leb (xs : list json) (d : nat) :
  (nesting (JArr xs) <=? S d) = forallb (fun x => nesting x <=? d) xs.
Proof.
  cbn [nesting]. change (S ?a <=? S d) with (a <=? d).
  induction xs as [|x r IH]; [reflexivity|].
  cbn [map list_max fold_right forallb]. rewrite <- IH.
  unfold list_max. cbn [fold_right].
  destruct (nesting x <=? d) eqn:H1;
    destruct (fold_right Init.Nat.max 0 (map nesting r) <=? d) eqn:H2; cbn [andb];
    rewrite ?Nat.leb_le, ?Nat.leb_gt in *; lia.
Qed.

Lemma nesting_obj_leb (kvs : list (string * json)) (d : nat) :
  (nesting (JObj kvs) <=? S d) = forallb (fun kv => nesting (snd kv) <=? d) kvs.
Proof.
  cbn [nesting]. change (S ?a <=? S d) with (a <=? d).
  induction kvs as [|x r IH]; [reflexivity|].
  cbn [map list_max fold_right forallb]. rewrite <- IH.
  unfold list_max. cbn [fold_right].
  destruct (nesting (snd x) <=? d) eqn:H1;
    destruct (fold_right Init.Nat.max 0 (map (fun kv => nesting (snd kv)) r) <=? d) eqn:H2;
    cbn [andb]; rewrite ?Nat.leb_le, ?Nat.leb_gt in *; lia.
Qed.

Lemma parse_elems_encode (xs : list json) :
  xs <> [] ->
  Forall parses_back xs ->
  forall fuel depth rest,
    String.length (encode_elems xs) < fuel ->
    parse_elems fuel depth (encode_elems xs ++ rest)
    = if forallb (fun x => nesting x <=? depth) xs then Some (xs, rest) else None.
Proof.
  induction xs as [|x r IH]; [congruence|].
  intros _ HF fuel depth rest Hlen. inversion HF as [|? ? Hx HF']; subst.
  unfold parses_back in Hx.
  destruct fuel as [|f]; [lia|]. rewrite parse_elems_S. cbn [forallb].
  destruct r as [|y r'].
  - cbn [encode_elems] in *. rewrite append_assoc. rewrite length_append in Hlen.
    cbn [String.length append] in *.
    rewrite (Hx f depth (String "]" rest)); [|lia|reflexivity].
    destruct (nesting x <=? depth); reflexivity.
  - change (encode_elems (x :: y :: r'))
      with (encode x ++ String "," (encode_elems (y :: r'))) in *.
    rewrite append_assoc. rewrite length_append in Hlen.
    cbn [String.length append] in *.
    rewrite (Hx f depth (String "," (encode_elems (y :: r') ++ rest)));
      [|lia|reflexivity].
    destruct (nesting x <=? depth); [|reflexivity].
    cbn [skip_ws is_ws Ascii.eqb Bool.eqb orb]. cbn [Ascii.eqb Bool.eqb].
    rewrite (IH ltac:(congruence) HF' f depth rest ltac:(lia)). cbn [andb].
    destruct (forallb _ (y :: r')); reflexivity.
Qed.

Lemma parse_members_encode (kvs : list (string * json)) :
  kvs <> [] ->
  Forall (fun kv => parses_back (snd kv)) kvs ->
  forall fuel depth rest,
    String.length (encode_members kvs) < fuel ->
    parse_members fuel depth (encode_members kvs ++ rest)
    = if forallb (fun kv => nesting (snd kv) <=? depth) kvs then Some (kvs, rest) else None.
Proof.
  induction kvs as [|[k x] r IH]; [congruence|].
  intros _ HF fuel depth rest Hlen. inversion HF as [|? ? Hx HF']; subst. cbn [snd] in Hx.
  unfold parses_back in Hx.
  destruct fuel as [|f]; [lia|]. cbn [forallb snd].
  destruct r as [|y r'].
  - cbn [encode_members] in *. unfold quote in *.
    cbn [append] in *. rewrite !append_assoc. cbn [append].
    rewrite parse_members_quote, parse_chars_escape.
    cbn [String.length] in Hlen. rewrite !length_append in Hlen.
    cbn [String.length] in Hlen. rewrite length_append in Hlen.
    cbn [skip_ws is_ws Ascii.eqb Bool.eqb orb]. cbn [Ascii.eqb Bool.eqb].
    rewrite ?append_assoc. cbn [append String.length] in *.
    rewrite (Hx f depth (String "}" rest)); [|lia|reflexivity].
    destruct (nesting x <=? depth); reflexivity.
  - change (encode_members ((k, x) :: y :: r'))
      with (quote k ++ String ":" (encode x ++ String "," (encode_members (y :: r')))) in *.
    unfold quote in *. cbn [append] in *. rewrite !append_assoc. cbn [append].
    rewrite parse_members_quote, parse_chars_escape.
    cbn [String.length] in Hlen. rewrite !length_append in Hlen.
    cbn [String.length] in Hlen. rewrite length_append in Hlen.
    cbn [skip_ws is_ws Ascii.eqb Bool.eqb orb]. cbn [Ascii.eqb Bool.eqb].
    rewrite ?append_assoc. cbn [append String.length] in *.
    rewrite (Hx f depth (String "," (encode_members (y :: r') ++ rest)));
      [|lia|reflexivity].
    destruct (nesting x <=? depth); [|reflexivity].
    cbn [skip_ws is_ws Ascii.eqb Bool.eqb orb]. cbn [Ascii.eqb Bool.eqb].
    rewrite (IH ltac:(congruence) HF' f depth rest ltac:(lia)). cbn [andb].
    destruct (forallb _ (y :: r')); reflexivity.
Qed.

End ParserFacts.

Section RoundTrip.

Local Open Scope string_scope.
Local Open Scope nat_scope.

Lemma parse_value_encode (v : json) : lit_ok v -> parses_back v.
Proof.
  induction v as [|b|lit|s|xs IH|kvs IH] using JsonSpec.json_ind;
    intros Hok fuel depth rest Hlen Hrest; (destruct fuel as [|f]; [lia|]).
  - reflexivity.
  - destruct b; reflexivity.
  - inversion Hok as [| |? Hlit| | |]; subst. cbn [encode nesting Nat.leb].
    destruct (valid_number_head lit Hlit) as (c & r & -> & Hc).
    cbn [append]. rewrite (parse_value_num f depth c _ Hc).
    apply (parse_number_valid (String c r) rest Hlit Hrest).
  - cbn [encode nesting Nat.leb]. unfold quote. cbn [append].
    rewrite append_assoc. cbn [append].
    rewrite parse_value_str, parse_chars_escape. reflexivity.
  - inversion Hok as [| | | |? Hall|]; subst.
    rewrite encode_arr in *. cbn [append String.length] in *.
    rewrite parse_value_arr.
    destruct depth as [|d]; [reflexivity|].
    rewrite nesting_arr_leb.
    destruct xs as [|x r]; [reflexivity|].
    assert (HF : Forall parses_back (x :: r)).
    { rewrite Forall_forall in *. intros y Hy. apply IH; [exact Hy|]. apply Hall. exact Hy. }
    inversion Hall as [|? ? Hx _]; subst.
    destruct (encode_head x Hx) as (c & t & Hc & Hws & Hb & _).
    assert (Hhead : exists t', encode_elems (x :: r) ++ rest = String c t').
    { destruct r as [|y r'].
      - cbn [encode_elems]. rewrite Hc. cbn [append]. eauto.
      - change (encode_elems (x :: y :: r'))
          with (encode x ++ String "," (encode_elems (y :: r'))).
        rewrite Hc. cbn [append]. eauto. }
    destruct Hhead as (t' & Ht').
    rewrite Ht' at 1. rewrite (skip_ws_head c t' Hws), Hb.
    rewrite (parse_elems_encode (x :: r) ltac:(congruence) HF f d rest ltac:(lia)).
    destruct (forallb _ (x :: r)); reflexivity.
  - inversion Hok as [| | | | |? Hall]; subst.
    rewrite encode_obj in *. cbn [append String.length] in *.
    rewrite parse_value_obj.
    destruct depth as [|d]; [reflexivity|].
    rewrite nesting_obj_leb.
    destruct kvs as [|[k x] r]; [reflexivity|].
    assert (HF : Forall (fun kv => parses_back (snd kv)) ((k, x) :: r)).
    { rewrite Forall_forall in *. intros y Hy. apply IH; [exact Hy|]. apply Hall. exact Hy. }
    assert (Hhead : exists t', encode_members ((k, x) :: r) ++ rest = String dquote t').
    { destruct r as [|y r'].
      - cbn [encode_members]. unfold quote. cbn [append]. eauto.
      - change (encode_members ((k, x) :: y :: r'))
          with (quote k ++ String ":" (encode x ++ String "," (encode_members (y :: r')))).
        unfold quote. cbn [append]. eauto. }
    destruct Hhead as (t' & Ht').
    rewrite Ht' at 1. cbn [skip_ws is_ws Ascii.eqb Bool.eqb orb dquote].
    cbn [Ascii.eqb Bool.eqb].
    rewrite (parse_members_encode ((k, x) :: r) ltac:(congruence) HF f d rest ltac:(lia)).
    destruct (forallb _ ((k, x) :: r)); reflexivity.
Qed.

Lemma skip_ws_empty : skip_ws EmptyString = EmptyString.
Proof. reflexivity. Qed.

(** [parse] inverts [encode] on the documents that nest no deeper than
    the scanner allows, and refuses the text of the others. *)
Lemma parse_encode_depth (v : json) :
  lit_ok v ->
  parse (encode v) = if nesting v <=? maxNestingDepth then Some v else None.
Proof.
  intros Hok. unfold parse.
  pose proof (parse_value_encode v Hok (S (String.length (encode v))) maxNestingDepth
                EmptyString ltac:(lia) I) as H.
  rewrite append_nil_r in H. rewrite H.
  destruct (nesting v <=? maxNestingDepth); reflexivity.
Qed.

Lemma parse_encode (v : json) :
  lit_ok v -> nesting v <= maxNestingDepth -> parse (encode v) = Some v.
Proof.
  intros Hok Hd. rewrite (parse_encode_depth v Hok).
  apply Nat.leb_le in Hd. rewrite Hd. reflexivity.
Qed.

Lemma parse_encode_too_deep (v : json) :
  lit_ok v -> maxNestingDepth < nesting v -> parse (encode v) = None.
Proof.
  intros Hok Hd. rewrite (parse_encode_depth v Hok).
  apply Nat.leb_gt in Hd. rewrite Hd. reflexivity.
Qed.

End RoundTrip.


Section ParsedDocuments.

Local Open Scope string_scope.

Lemma parse_keyword_lit_ok (s : string) v r : parse_keyword s = Some (v, r) -> lit_ok v.
Proof.
  unfold parse_keyword. intros H. break_matches H; inversion H; subst; constructor.
Qed.

Lemma parse_number_lit_ok (s : string) v r : parse_number s = Some (v, r) -> lit_ok v.
Proof.
  unfold parse_number. intros H. break_matches H. inversion H; subst.
  constructor. assumption.
Qed.

Lemma parsed_ok_arr (d : nat) (xs : list json) :
  Forall (parsed_ok d) xs -> parsed_ok (S d) (JArr xs).
Proof.
  intros H. split.
  - constructor. eapply Forall_impl; [|exact H]. intros x Hx. apply Hx.
  - cbn [nesting]. apply le_n_S. apply list_max_le. rewrite Forall_map.
    eapply Forall_impl; [|exact H]. intros x Hx. apply Hx.
Qed.

Lemma parsed_ok_obj (d : nat) (kvs : list (string * json)) :
  Forall (fun kv => parsed_ok d (snd kv)) kvs -> parsed_ok (S d) (JObj kvs).
Proof.
  intros H. split.
  - constructor. eapply Forall_impl; [|exact H]. intros x Hx. apply Hx.
  - cbn [nesting]. apply le_n_S. apply list_max_le. rewrite Forall_map.
    eapply Forall_impl; [|exact H]. intros x Hx. apply Hx.
Qed.

Lemma parsed_ok_scalar (d : nat) (v : json) : lit_ok v -> nesting v = 0 -> parsed_ok d v.
Proof. intros H1 H2. split; [exact H1|lia]. Qed.

Lemma parse_fuel_ok (fuel : nat) :
  forall depth,
    (forall s v r, parse_value fuel depth s = Some (v, r) -> parsed_ok depth v) /\
    (forall s vs r, parse_elems fuel depth s = Some (vs, r) -> Forall (parsed_ok depth) vs) /\
    (forall s kvs r, parse_members fuel depth s = Some (kvs, r) ->
                     Forall (fun kv => parsed_ok depth (snd kv)) kvs).
Proof.
  induction fuel as [|f IH]; intros depth; [repeat split; intros; discriminate|].
  split; [|split].
  - intros s v r H. cbn [parse_value] in H.
    destruct (skip_ws s) as [|c t]; [discriminate|].
    destruct (c =? "{")%char.
    { destruct depth as [|d]; [discriminate|].
      destruct (IH d) as (_ & _ & IHm).
      destruct (skip_ws t) as [|c1 t1]; [discriminate|].
      destruct (c1 =? "}")%char.
      - inversion H; subst. apply parsed_ok_obj. constructor.
      - destruct (parse_members f d t) as [[kvs t2]|] eqn:Hm; [|discriminate].
        inversion H; subst. apply parsed_ok_obj. eapply IHm. eassumption. }
    destruct (c =? "[")%char.
    { destruct depth as [|d]; [discriminate|].
      destruct (IH d) as (_ & IHe & _).
      destruct (skip_ws t) as [|c1 t1]; [discriminate|].
      destruct (c1 =? "]")%char.
      - inversion H; subst. apply parsed_ok_arr. constructor.
      - destruct (parse_elems f d t) as [[xs t2]|] eqn:He; [|discriminate].
        inversion H; subst. apply parsed_ok_arr. eapply IHe. eassumption. }
    destruct (c =? dquote)%char.
    { destruct (parse_chars t) as [[str t2]|]; [|discriminate].
      inversion H; subst. apply parsed_ok_scalar; [constructor|reflexivity]. }
    destruct (is_num_char c).
    + unfold parse_number in H. break_matches H. inversion H; subst.
      apply parsed_ok_scalar; [constructor; assumption|reflexivity].
    + unfold parse_keyword in H.
      break_matches H; inversion H; subst;
        (apply parsed_ok_scalar; [constructor|reflexivity]).
  - destruct (IH depth) as (IHv & IHe & _).
    intros s vs r H. rewrite parse_elems_S in H.
    destruct (parse_value f depth s) as [[v t]|] eqn:Hv; [|discriminate].
    apply IHv in Hv.
    destruct (skip_ws t) as [|c t1]; [discriminate|].
    destruct (c =? ",")%char.
    + destruct (parse_elems f depth t1) as [[vs' t2]|] eqn:He; [|discriminate].
      inversion H; subst. constructor; [exact Hv|]. eapply IHe. eassumption.
    + destruct (c =? "]")%char; [|discriminate].
      inversion H; subst. constructor; [exact Hv|constructor].
  - destruct (IH depth) as (IHv & _ & IHm).
    intros s kvs r H. cbn [parse_members] in H.
    destruct (skip_ws s) as [|q t]; [discriminate|].
    destruct (q =? dquote)%char; [|discriminate].
    destruct (parse_chars t) as [[k t1]|]; [|discriminate].
    destruct (skip_ws t1) as [|col t2]; [discriminate|].
    destruct (col =? ":")%char; [|discriminate].
    destruct (parse_value f depth t2) as [[v t3]|] eqn:Hv; [|discriminate].
    apply IHv in Hv.
    destruct (skip_ws t3) as [|c t4]; [discriminate|].
    destruct (c =? ",")%char.
    + destruct (parse_members f depth t4) as [[kvs' t5]|] eqn:Hm; [|discriminate].
      inversion H; subst. constructor; [exact Hv|]. eapply IHm. eassumption.
    + destruct (c =? "}")%char; [|discriminate].
      inversion H; subst. constructor; [exact Hv|constructor].
Qed.

Lemma parse_ok (s : string) (v : json) : parse s = Some v -> parsed_ok maxNestingDepth v.
Proof.
  unfold parse. intros H.
  destruct (parse_value (S (String.length s)) maxNestingDepth s) as [[v' r]|] eqn:Hv;
    [|discriminate].
  destruct (skip_ws r); [|discriminate]. inversion H; subst.
  eapply (proj1 (parse_fuel_ok _ _)). eassumption.
Qed.

Lemma parse_lit_ok (s : string) (v : json) : parse s = Some v -> lit_ok v.
Proof. intros H. apply (parse_ok s v H). Qed.

Lemma go_value_lit_ok (v : json) : go_value v -> lit_ok v.
Proof.
  induction v as [|b|lit|s|xs IH|kvs IH] using JsonSpec.json_ind;
    intros H; inversion H; subst; constructor; try assumption.
  - rewrite Forall_forall in *. auto.
  - rewrite Forall_forall in *. auto.
Qed.

(** Reading a parsed document into an [any] gives a Go value. *)
Lemma to_any_go_value (v : json) : lit_ok v -> go_value (to_any v).
Proof.
  induction v as [|b|lit|s|xs IH|kvs IH] using JsonSpec.json_ind;
    intros H; inversion H; subst; cbn [to_any]; try (constructor; assumption).
  - constructor. apply Forall_forall. intros y Hy.
    apply in_map_iff in Hy. destruct Hy as (x & <- & Hx).
    rewrite Forall_forall in *. auto.
  - constructor.
    + apply (of_list_into_is_sorted (V := json) []). exact I.
    + apply Forall_of_list_into; [constructor|].
      apply Forall_forall. intros y Hy.
      apply in_map_iff in Hy. destruct Hy as (x & <- & Hx).
      rewrite Forall_forall in *. cbn [snd]. auto.
Qed.

Lemma map_id_Forall {A : Type} (f : A -> A) (P : A -> Prop) (l : list A) :
  Forall (fun x => P x -> f x = x) l -> Forall P l -> map f l = l.
Proof.
  induction l as [|x r IH]; [reflexivity|].
  intros H1 H2. inversion H1; inversion H2; subst. cbn. f_equal; auto.
Qed.

(** A Go value is read into an [any] as itself. *)
Lemma to_any_id (v : json) : go_value v -> to_any v = v.
Proof.
  induction v as [|b|lit|s|xs IH|kvs IH] using JsonSpec.json_ind;
    intros H; inversion H as [| | | |? Hall|? Hs Hall]; subst; cbn [to_any];
    try reflexivity.
  - f_equal. apply (map_id_Forall to_any go_value); assumption.
  - f_equal.
    rewrite (map_id_Forall (fun kv => (fst kv, to_any (snd kv)))
               (fun kv => go_value (snd kv))).
    + apply of_list_sorted_id. exact Hs.
    + apply Forall_forall. intros [k x] Hin Hg. cbn [fst snd] in *.
      rewrite Forall_forall in IH. f_equal. exact (IH (k, x) Hin Hg).
    + exact Hall.
Qed.

(** Reading into an [any] does not deepen a document. *)
Lemma list_max_of_list_into (f : string * json -> nat) (d : nat)
      (m l : list (string * json)) :
  Forall (fun kv => f kv <= d) m -> Forall (fun kv => f kv <= d) l ->
  Forall (fun kv => f kv <= d) (SMap.of_list_into m l).
Proof. apply Forall_of_list_into. Qed.

Lemma to_any_nesting (v : json) : nesting (to_any v) <= nesting v.
Proof.
  induction v as [|b|lit|s|xs IH|kvs IH] using JsonSpec.json_ind; cbn [to_any nesting];
    try lia.
  - apply le_n_S. apply list_max_le. rewrite map_map, Forall_map.
    apply Forall_forall. intros x Hx. rewrite Forall_forall in IH.
    etransitivity; [apply IH; exact Hx|].
    assert (Hle : list_max (map nesting xs) <= list_max (map nesting xs)) by lia.
    apply list_max_le in Hle. rewrite Forall_map, Forall_forall in Hle. auto.
  - apply le_n_S. apply list_max_le. rewrite Forall_map.
    apply (Forall_of_list_into
             (fun kv => nesting (snd kv)
                        <= list_max (map (fun kv0 => nesting (snd kv0)) kvs)) []);
      [constructor|].
    rewrite Forall_map. cbn [snd].
    apply Forall_forall. intros x Hx. rewrite Forall_forall in IH.
    etransitivity; [apply IH; exact Hx|].
    assert (Hle : list_max (map (fun kv0 => nesting (snd kv0)) kvs)
                  <= list_max (map (fun kv0 => nesting (snd kv0)) kvs)) by lia.
    apply list_max_le in Hle. rewrite Forall_map, Forall_forall in Hle. auto.
Qed.

Lemma members_to_any_id (kvs : list (string * json)) :
  go_value (JObj kvs) -> members_to_any kvs = kvs /\ SMap.of_list kvs = kvs.
Proof.
  intros H. pose proof (to_any_id _ H) as Hid. cbn [to_any] in Hid.
  inversion H as [| | | | |? Hs Hall]; subst.
  split; [|apply of_list_sorted_id; exact Hs].
  unfold members_to_any.
  apply (map_id_Forall _ (fun kv => go_value (snd kv))); [|exact Hall].
  apply Forall_forall. intros [k x] Hin Hg. cbn [fst snd] in *.
  rewrite (to_any_id x Hg). reflexivity.
Qed.

(** The payload [json.Unmarshal] leaves in the map variable. *)
Lemma Unmarshal_map_go (data : string) (m : gomap) :
  Unmarshal_map data = (m, None) -> go_map m /\ gomap_nesting m <= maxNestingDepth.
Proof.
  unfold Unmarshal_map. intros H.
  destruct (parse data) as [v|] eqn:Hp; [|discriminate].
  apply parse_ok in Hp. destruct Hp as [Hlit Hnest].
  destruct v; inversion H; subst; cbn [go_map gomap_nesting]; try (split; [exact I|lia]).
  split.
  - apply (to_any_go_value (JObj kvs)). exact Hlit.
  - etransitivity; [apply (to_any_nesting (JObj kvs))|exact Hnest].
Qed.

Lemma two_le_maxNestingDepth : 2 <= maxNestingDepth.
Proof. unfold maxNestingDepth. lia. Qed.

Lemma kept_payload_go (data : string) :
  go_map (kept_payload data) /\ gomap_nesting (kept_payload data) <= maxNestingDepth.
Proof.
  unfold kept_payload.
  destruct (Unmarshal_map data) as [m [e|]] eqn:H.
  - split; [cbn; constructor; [exact I|constructor]|].
    cbn. pose proof two_le_maxNestingDepth. lia.
  - eapply Unmarshal_map_go. eassumption.
Qed.

End ParsedDocuments.

(** * Properties *)



Local Open Scope string_scope.
Local Open Scope list_scope.

(** ** Delivery and classification (tools/client.go) *)

Section Delivery.

Local Open Scope string_scope.
Local Open Scope list_scope.
Local Open Scope Z_scope.

Variable E : Env.

Lemma sendToServer_eq (rec : logRecord) (w : World) :
  sendToServer E rec w =
  let w1 := fst (post E (delivery_request w rec) w) in
  match httpPost E (clock w) (delivery_request w rec) with
  | inr err => (LogJson "trigger_post_error" [("error", JStr err)] w1, (false, Some err))
  | inl resp =>
      if (200 <=? StatusCode resp) && (StatusCode resp <? 300) then
        (logToFile rec true [] w1, (true, None))
      else if (300 <=? StatusCode resp) && (StatusCode resp <=? 500) then
        (LogJson "trigger_client_error_final" [("status", JInt (StatusCode resp))]
           (logToFile rec false [("response", JStr (Body resp));
                                 ("responseCode", JInt (StatusCode resp))] w1),
         (true, None))
      else if (StatusCode resp >? 500) then
        (LogJson "trigger_server_error" [("status", JInt (StatusCode resp))] w1,
         (false, Some ("server_error, status " ++ Text.decimal (StatusCode resp))%string))
      else (w1, (true, None))
  end.
Proof.
  reflexivity.
Qed.

(** C10: a response whose status is below 200 makes [sendToServer]
    return [true] with no error, and appends a line to neither the
    success log nor the failure log. *)
Theorem sendToServer_below_200 (rec : logRecord) (w : World) (resp : Response) :
  httpPost E (clock w) (delivery_request w rec) = inl resp ->
  StatusCode resp < 200 ->
  exists w',
    sendToServer E rec w = (w', (true, None)) /\
    successLines w' = successLines w /\
    failureLines w' = failureLines w.
Proof.
  intros Hpost Hlow.
  rewrite sendToServer_eq. cbv zeta. rewrite Hpost.
  replace ((200 <=? StatusCode resp) && (StatusCode resp <? 300)) with false
    by (symmetry; apply andb_false_iff; left; apply Z.leb_gt; lia).
  replace ((300 <=? StatusCode resp) && (StatusCode resp <=? 500)) with false
    by (symmetry; apply andb_false_iff; left; apply Z.leb_gt; lia).
  replace (StatusCode resp >? 500) with false
    by (symmetry; rewrite Z.gtb_ltb; apply Z.ltb_ge; lia).
  eexists. split; [reflexivity|]. split; reflexivity.
Qed.

End Delivery.

Lemma sendToServer_below_200_witness :
  httpPost (Scenario.always 102) (clock (Scenario.agent []))
    (delivery_request (Scenario.agent []) Scenario.record0)
  = inl {| StatusCode := 102; Body := "answer" |} /\
  (102 < 200)%Z /\
  exists w',
    sendToServer (Scenario.always 102) Scenario.record0 (Scenario.agent []) = (w', (true, None)) /\
    successLines w' = successLines (Scenario.agent []) /\
    failureLines w' = failureLines (Scenario.agent []).
Proof.
  split; [reflexivity|]. split; [reflexivity|].
  apply (sendToServer_below_200 (Scenario.always 102) Scenario.record0 (Scenario.agent [])
           {| StatusCode := 102; Body := "answer" |}); reflexivity.
Defined.

(** ** One turn of the replay loop (tools/pebble.go) *)

Section Visit.

Local Open Scope string_scope.
Local Open Scope list_scope.
Local Open Scope Z_scope.

Variable E : Env.

Lemma logToFile_success (rec : logRecord) (w : World) (sl : list string) :
  successLines w = Some sl ->
  successLines (logToFile rec true [] w) = Some (sl ++ [success_line rec]) /\
  failureLines (logToFile rec true [] w) = failureLines w.
Proof.
  unfold successLines, failureLines, logToFile. intros H. rewrite H. cbn. auto.
Qed.

Lemma logToFile_failure (rec : logRecord) (resp : Response) (w : World) (fl : list string) :
  failureLines w = Some fl ->
  failureLines (logToFile rec false [("response", JStr (Body resp));
                                     ("responseCode", JInt (StatusCode resp))] w)
  = Some (fl ++ [failure_line rec resp]) /\
  successLines (logToFile rec false [("response", JStr (Body resp));
                                     ("responseCode", JInt (StatusCode resp))] w)
  = successLines w.
Proof.
  unfold successLines, failureLines, logToFile. intros H. rewrite H. cbn. auto.
Qed.

(** C1: at an entry that is decoded and whose delivery is attempted,
    with both outcome logs open: a status in [200,299] marks the key
    and appends one line to the success log; a status in [300,500]
    marks the key and appends one line, holding the body and the
    status of the response, to the failure log; a status above 500 or
    a transport failure does not mark the key. *)
Theorem visit_classifies (k v : string) (w : World) (p : Pass)
        (rec : logRecord) (sl fl : list string) :
  ctxErr E (clock w) = false ->
  LogRecordJson.Unmarshal v = (rec, None) ->
  successLines w = Some sl ->
  failureLines w = Some fl ->
  exists w' p' flow,
    visit E (k, v) w p = (w', p', flow) /\
    match httpPost E (S (clock w)) (delivery_request w rec) with
    | inl resp =>
        (200 <= StatusCode resp <= 299 ->
         keys p' = keys p ++ [k] /\
         successLines w' = Some (sl ++ [success_line rec]) /\
         failureLines w' = Some fl) /\
        (300 <= StatusCode resp <= 500 ->
         keys p' = keys p ++ [k] /\
         failureLines w' = Some (fl ++ [failure_line rec resp]) /\
         successLines w' = Some sl) /\
        (500 < StatusCode resp ->
         keys p' = keys p /\ flow = Break /\
         successLines w' = Some sl /\ failureLines w' = Some fl)
    | inr _ =>
        keys p' = keys p /\ flow = Break /\
        successLines w' = Some sl /\ failureLines w' = Some fl
    end.
Proof.
  intros Hctx Hdec Hsl Hfl.
  unfold visit. rewrite Hctx. cbn [snd fst]. rewrite Hdec.
  rewrite sendToServer_eq. cbv zeta.
  change (clock (tick w)) with (S (clock w)).
  change (delivery_request (tick w) rec) with (delivery_request w rec).
  destruct (httpPost E (S (clock w)) (delivery_request w rec)) as [resp|err] eqn:Hpost.
  - destruct ((200 <=? StatusCode resp) && (StatusCode resp <? 300)) eqn:H2.
    + apply andb_true_iff in H2. destruct H2 as [Ha Hb].
      apply Z.leb_le in Ha. apply Z.ltb_lt in Hb.
      do 3 eexists. split; [reflexivity|].
      destruct (logToFile_success rec (fst (post E (delivery_request w rec) (tick w))) sl Hsl)
        as [Hs Hf].
      split; [|split]; intros Hr; try lia.
      cbn [keys]. split; [reflexivity|]. split; [exact Hs|]. rewrite Hf. exact Hfl.
    + destruct ((300 <=? StatusCode resp) && (StatusCode resp <=? 500)) eqn:H3.
      * apply andb_true_iff in H3. destruct H3 as [Ha Hb].
        apply Z.leb_le in Ha. apply Z.leb_le in Hb.
        do 3 eexists. split; [reflexivity|].
        destruct (logToFile_failure rec resp (fst (post E (delivery_request w rec) (tick w))) fl Hfl)
          as [Hf Hs].
        split; [|split]; intros Hr; try lia.
        cbn [keys]. split; [reflexivity|]. split; [exact Hf|]. rewrite <- Hsl. exact Hs.
      * apply andb_false_iff in H2. apply andb_false_iff in H3.
        rewrite Z.leb_gt, Z.ltb_ge in H2. rewrite Z.leb_gt, Z.leb_gt in H3.
        destruct (StatusCode resp >? 500) eqn:H5.
        -- do 3 eexists. split; [reflexivity|].
           split; [|split]; intros Hr; try lia.
           cbn [keys]. repeat split; assumption.
        -- rewrite Z.gtb_ltb in H5. apply Z.ltb_ge in H5.
           do 3 eexists. split; [reflexivity|].
           split; [|split]; intros Hr; lia.
  - do 3 eexists. split; [reflexivity|]. cbn [keys]. repeat split; assumption.
Qed.

End Visit.

Lemma visit_classifies_witness :
  ctxErr (Scenario.always 404) (clock (Scenario.agent [])) = false /\
  LogRecordJson.Unmarshal Scenario.value0 = (Scenario.record0, None) /\
  successLines (Scenario.agent []) = Some [] /\
  failureLines (Scenario.agent []) = Some [] /\
  exists w' p' flow,
    visit (Scenario.always 404) ("1700000000000000000_7"%string, Scenario.value0)
          (Scenario.agent []) {| keys := []; count := 0; serverErr := None |}
    = (w', p', flow) /\
    keys p' = ["1700000000000000000_7"%string] /\
    failureLines w'
    = Some [failure_line Scenario.record0 {| StatusCode := 404; Body := "answer" |}] /\
    successLines w' = Some [].
Proof.
  split; [reflexivity|]. split; [vm_compute; reflexivity|].
  split; [reflexivity|]. split; [reflexivity|].
  destruct (visit_classifies (Scenario.always 404) "1700000000000000000_7" Scenario.value0
              (Scenario.agent []) {| keys := []; count := 0; serverErr := None |}
              Scenario.record0 [] [] eq_refl ltac:(vm_compute; reflexivity) eq_refl eq_refl)
    as (w' & p' & flow & Hv & Hc).
  exists w', p', flow. split; [exact Hv|].
  cbn in Hc. destruct Hc as (_ & H & _). apply H. lia.
Defined.

(** ** The batch delete (tools/pebble.go) *)

Section BatchDelete.

Variable E : Env.

Lemma batch_deletes_ok (ks : list string) :
  forall b t b' t', batch_deletes E ks b t = (b', t', None) -> b' = b ++ ks.
Proof.
  induction ks as [|k r IH]; intros b t b' t' H; cbn in H.
  - inversion H. rewrite app_nil_r. reflexivity.
  - unfold Pebble.Delete in H. destruct (deleteFault E t); [discriminate|].
    apply IH in H. rewrite H, <- app_assoc. reflexivity.
Qed.

Lemma batch_deletes_clock (ks : list string) :
  forall b t b' t' e, batch_deletes E ks b t = (b', t', e) -> t <= t'.
Proof.
  induction ks as [|k r IH]; intros b t b' t' e H; cbn in H.
  - inversion H. lia.
  - unfold Pebble.Delete in H. destruct (deleteFault E t).
    + inversion H. lia.
    + apply IH in H. lia.
Qed.

Lemma lookup_apply_in (b : Pebble.Batch) :
  forall (db : Pebble.DB) k, In k b -> SMap.lookup k (Pebble.apply b db) = None.
Proof.
  unfold Pebble.apply.
  induction b as [|k1 r IH] using rev_ind; intros db k Hin; [destruct Hin|].
  rewrite fold_left_app. cbn. apply in_app_or in Hin.
  destruct (string_dec k1 k) as [->|Hne].
  - apply lookup_remove_same.
  - rewrite lookup_remove_other by exact Hne.
    destruct Hin as [Hin|[Heq|[]]]; [auto|congruence].
Qed.

Lemma lookup_apply_out (b : Pebble.Batch) :
  forall (db : Pebble.DB) k, ~ In k b -> SMap.lookup k (Pebble.apply b db) = SMap.lookup k db.
Proof.
  unfold Pebble.apply.
  induction b as [|k1 r IH]; intros db k Hout; [reflexivity|].
  cbn. rewrite IH by (intros H; apply Hout; right; exact H).
  apply lookup_remove_other. intros ->. apply Hout. left. reflexivity.
Qed.

Lemma In_apply_out (b : Pebble.Batch) :
  forall (db : Pebble.DB) k v, ~ In k b -> In (k, v) db -> In (k, v) (Pebble.apply b db).
Proof.
  unfold Pebble.apply.
  induction b as [|k1 r IH]; intros db k v Hout Hin; [exact Hin|].
  cbn. apply IH; [intros H; apply Hout; right; exact H|].
  apply In_remove_other; [|exact Hin]. intros ->. apply Hout. left. reflexivity.
Qed.

Lemma sorted_apply (b : Pebble.Batch) :
  forall (db : Pebble.DB), SMap.sorted db -> SMap.sorted (Pebble.apply b db).
Proof.
  unfold Pebble.apply.
  induction b as [|k1 r IH]; intros db Hs; [exact Hs|].
  cbn. apply IH. apply sorted_remove. exact Hs.
Qed.

Lemma deleteKeysBatch_clock (db : Pebble.DB) (ks : list string) (t : nat) :
  forall db' t' e, deleteKeysBatch E db ks t = (db', t', e) -> t <= t'.
Proof.
  unfold deleteKeysBatch. intros db' t' e H.
  destruct (batch_deletes E ks Pebble.NewBatch t) as [[b t1] e1] eqn:Hb.
  apply batch_deletes_clock in Hb.
  destruct e1; [inversion H; lia|].
  unfold Pebble.Commit in H. destruct (commitFault E t1); inversion H; lia.
Qed.

Lemma deleteKeysBatch_ok (db : Pebble.DB) (ks : list string) (t : nat) :
  forall db' t', deleteKeysBatch E db ks t = (db', t', None) -> db' = Pebble.apply ks db.
Proof.
  unfold deleteKeysBatch. intros db' t' H.
  destruct (batch_deletes E ks Pebble.NewBatch t) as [[b t1] e1] eqn:Hb.
  destruct e1; [discriminate|].
  apply batch_deletes_ok in Hb. cbn in Hb. subst b.
  unfold Pebble.Commit in H. destruct (commitFault E t1); inversion H. reflexivity.
Qed.

Lemma deleteKeysBatch_err (db : Pebble.DB) (ks : list string) (t : nat) :
  forall db' t' e, deleteKeysBatch E db ks t = (db', t', Some e) -> db' = db.
Proof.
  unfold deleteKeysBatch. intros db' t' e H.
  destruct (batch_deletes E ks Pebble.NewBatch t) as [[b t1] e1] eqn:Hb.
  destruct e1; [inversion H; reflexivity|].
  unfold Pebble.Commit in H. destruct (commitFault E t1); inversion H. reflexivity.
Qed.

(** C4: [deleteKeysBatch] over the keys [ks] either returns no error,
    and then none of the keys is left in the store while every other
    key keeps its value, or returns an error, and then the store is
    what it was: no state with only some of the keys removed comes
    out of it. *)
Theorem deleteKeysBatch_all_or_none (db : Pebble.DB) (ks : list string) (t : nat) :
  exists db' t' err,
    deleteKeysBatch E db ks t = (db', t', err) /\
    match err with
    | None =>
        (forall k, In k ks -> SMap.lookup k db' = None) /\
        (forall k, ~ In k ks -> SMap.lookup k db' = SMap.lookup k db)
    | Some _ => db' = db
    end.
Proof.
  destruct (deleteKeysBatch E db ks t) as [[db' t'] err] eqn:H.
  exists db', t', err. split; [reflexivity|].
  destruct err as [e|].
  - eapply deleteKeysBatch_err; eassumption.
  - apply deleteKeysBatch_ok in H. subst db'. split; intros k Hk.
    + apply lookup_apply_in. exact Hk.
    + apply lookup_apply_out. exact Hk.
Qed.

End BatchDelete.

(** ** The accepting flag (tools/config.go) *)

Section AcceptingFlagProps.

Local Open Scope string_scope.

Lemma Enable_when_absent (w : World) :
  flag_exists w = false ->
  EnableAcceptingFlag w =
  (set_AcceptingFlag (Some (acceptingFlagPath (files (config w))))
     (with_fs (acceptingFlagPath (files (config w)) :: fs w) w), None).
Proof.
  unfold flag_exists, EnableAcceptingFlag, OpenFile_excl. intros H. rewrite H. reflexivity.
Qed.

Lemma Enable_when_present (w : World) :
  flag_exists w = true ->
  EnableAcceptingFlag w =
  (w, Some ("open " ++ acceptingFlagPath (files (config w)) ++ ": file exists")).
Proof.
  unfold flag_exists, EnableAcceptingFlag, OpenFile_excl. intros H. rewrite H. reflexivity.
Qed.

Lemma flag_exists_after_Enable (w : World) :
  flag_exists (fst (EnableAcceptingFlag w)) = true.
Proof.
  destruct (flag_exists w) eqn:H.
  - rewrite Enable_when_present by exact H. exact H.
  - rewrite Enable_when_absent by exact H.
    unfold flag_exists, exists_path. cbn. rewrite String.eqb_refl. reflexivity.
Qed.

(** C8, as amended: of two successive calls of [EnableAcceptingFlag]
    with no release in between, the first succeeds exactly when the
    flag file did not exist before it, the second always fails with
    an error and changes nothing, and the flag file exists after
    both. *)
Theorem Enable_twice (w : World) :
  let w1 := fst (EnableAcceptingFlag w) in
  (snd (EnableAcceptingFlag w) = None <-> flag_exists w = false) /\
  (exists err, EnableAcceptingFlag w1 = (w1, Some err)) /\
  flag_exists w1 = true.
Proof.
  cbv zeta. split; [|split].
  - destruct (flag_exists w) eqn:H.
    + rewrite Enable_when_present by exact H. cbn. split; discriminate.
    + rewrite Enable_when_absent by exact H. cbn. split; reflexivity.
  - eexists. apply Enable_when_present. apply flag_exists_after_Enable.
  - apply flag_exists_after_Enable.
Qed.

Lemma flag_exists_after_Disable (w : World) :
  flag_exists (fst (DisableAcceptingFlag w)) = false.
Proof.
  unfold flag_exists, DisableAcceptingFlag, exists_path, Remove.
  destruct (AcceptingFlag (files (config w))); cbn;
    (destruct (existsb _ _) eqn:H; [|reflexivity]);
    apply existsb_exists in H; destruct H as (x & Hin & Hx);
    apply filter_In in Hin; destruct Hin as [_ Hn]; rewrite Hx in Hn; discriminate.
Qed.

End AcceptingFlagProps.

(** C8 as stated fails: in the state an acquire leaves, where the flag
    is held and its file exists, the first of two successive acquire
    operations does not succeed. *)
Lemma Enable_first_fails_when_held :
  let held := fst (EnableAcceptingFlag (Scenario.agent [])) in
  AcceptingFlag (files (config held)) = Some "/var/datanadhi/agent-status.lock" /\
  flag_exists held = true /\
  snd (EnableAcceptingFlag held)
  = Some "open /var/datanadhi/agent-status.lock: file exists".
Proof. cbv zeta. repeat split. Qed.

(** ** The replay pass as a whole: what it keeps *)

Section PassFrame.

Local Open Scope string_scope.
Local Open Scope list_scope.

Variable E : Env.

Lemma logToFile_frame rec b ex w :
  store (logToFile rec b ex w) = store w /\
  clock (logToFile rec b ex w) = clock w /\
  sent (logToFile rec b ex w) = sent w /\
  stdout (logToFile rec b ex w) = stdout w.
Proof.
  unfold logToFile, store.
  destruct (b && is_open (successLog (files (config w))));
    [cbn; auto|].
  destruct (negb b && is_open (failureLog (files (config w)))); cbn; auto.
Qed.

Lemma sendToServer_frame rec w :
  store (fst (sendToServer E rec w)) = store w /\
  clock (fst (sendToServer E rec w)) = S (clock w) /\
  sent (fst (sendToServer E rec w)) = sent w ++ [(clock w, delivery_request w rec)].
Proof.
  rewrite sendToServer_eq. cbv zeta.
  destruct (httpPost E (clock w) (delivery_request w rec)) as [resp|err].
  - destruct (_ && _).
    + cbn [fst]. destruct (logToFile_frame rec true [] (fst (post E (delivery_request w rec) w)))
        as (H1 & H2 & H3 & _).
      rewrite H1, H2, H3. auto.
    + destruct (_ && _).
      * cbn [fst].
        destruct (logToFile_frame rec false
                    [("response", JStr (Body resp)); ("responseCode", JInt (StatusCode resp))]
                    (fst (post E (delivery_request w rec) w))) as (H1 & H2 & H3 & _).
        unfold store in *. cbn [LogJson config clock sent]. rewrite H1, H2, H3. auto.
      * destruct (Z.gtb _ _); cbn; auto.
  - cbn. auto.
Qed.

Lemma visit_frame kv w p w' p' fl :
  visit E kv w p = (w', p', fl) ->
  store w' = store w /\ (clock w < clock w')%nat.
Proof.
  unfold visit. destruct (ctxErr E (clock w)).
  - intros [= <- <- <-]. cbn. auto.
  - destruct (LogRecordJson.Unmarshal (snd kv)) as [rec [err|]].
    + intros [= <- <- <-]. cbn. auto.
    + destruct (sendToServer E rec (tick w)) as [w1 [addKey err]] eqn:Hs.
      destruct (sendToServer_frame rec (tick w)) as (H1 & H2 & _).
      rewrite Hs in H1, H2. cbn [fst] in H1, H2.
      assert (Hres : store w1 = store w /\ (clock w < clock w1)%nat).
      { rewrite H1, H2. cbn. auto. }
      destruct err; [intros [= <- <- <-]; exact Hres|].
      destruct addKey; intros [= <- <- <-]; exact Hres.
Qed.

Lemma scan_frame iter :
  forall w p w' p', scan E iter w p = (w', p') ->
                    store w' = store w /\ (clock w <= clock w')%nat.
Proof.
  induction iter as [|kv rest IH]; intros w p w' p' H; cbn in H.
  - inversion H. auto.
  - destruct (visit E kv w p) as [[w1 p1] fl] eqn:Hv.
    apply visit_frame in Hv. destruct Hv as [Hs Hc].
    destruct fl.
    + apply IH in H. destruct H as [Hs' Hc']. rewrite Hs', Hs. split; [reflexivity|lia].
    + inversion H; subst. split; [exact Hs|lia].
Qed.

Lemma FlushPebbleDB_id w : FlushPebbleDB w = w.
Proof. unfold FlushPebbleDB. destruct (Db (config w)); reflexivity. Qed.

(** The pass on an open store: the scan, then the batch delete of the
    marked keys. *)
Lemma ProcessPebble_eq (w : World) (db : Pebble.DB) :
  store w = Some db ->
  ProcessPebble E w =
  let (w1, p) := scan E db w {| keys := []; count := 0; serverErr := None |} in
  if (0 <? List.length (keys p))%nat then
    match deleteKeysBatch E db (keys p) (clock w1) with
    | (_, t, Some err) =>
        Some (LogJson "pebble_delete_error" [("error", JStr err)] (set_clock t w1), Some err)
    | (db', t, None) =>
        Some (LogJson "pebble_processed" [("processed_count", JInt (count p))]
                (with_Db (Some db') (set_clock t w1)), serverErr p)
    end
  else Some (LogJson "pebble_processed_none" [] w1, serverErr p).
Proof.
  intros Hdb. unfold ProcessPebble. rewrite FlushPebbleDB_id.
  unfold store in Hdb. rewrite Hdb. cbn [Pebble.NewIter].
  destruct (scan E db w _) as [w1 p] eqn:Hscan.
  apply scan_frame in Hscan. destruct Hscan as [Hs _].
  unfold store in Hs. rewrite Hs, Hdb.
  destruct (0 <? List.length (keys p))%nat; [|rewrite FlushPebbleDB_id; reflexivity].
  destruct (deleteKeysBatch E db (keys p) (clock w1)) as [[db' t] [err|]];
    rewrite FlushPebbleDB_id; reflexivity.
Qed.

Lemma ProcessPebble_clock (w w' : World) (db : Pebble.DB) r :
  store w = Some db ->
  ProcessPebble E w = Some (w', r) ->
  (clock w <= clock w')%nat /\ exists db', store w' = Some db'.
Proof.
  intros Hdb H. rewrite (ProcessPebble_eq w db Hdb) in H.
  destruct (scan E db w _) as [w1 p] eqn:Hscan.
  apply scan_frame in Hscan. destruct Hscan as [Hs Hc].
  destruct (0 <? List.length (keys p))%nat.
  - destruct (deleteKeysBatch E db (keys p) (clock w1)) as [[db' t] [err|]] eqn:Hd;
      apply deleteKeysBatch_clock in Hd; inversion H; subst; cbn; split; try lia.
    + exists db. rewrite <- Hdb, <- Hs. reflexivity.
    + exists db'. reflexivity.
  - inversion H; subst. cbn. split; [lia|]. exists db. rewrite <- Hdb, <- Hs. reflexivity.
Qed.

End PassFrame.

(** ** Ingestion (tools/pebble.go, [SendLog]) *)

Section Ingestion.

Local Open Scope string_scope.
Local Open Scope list_scope.

Variable E : Env.

Lemma SendLog_eq (req : LogRequest) (w : World) (db : Pebble.DB) :
  store w = Some db ->
  SendLog E req w =
  let data := encode (LogRecordJson.to_json (enqueued_record E req w)) in
  let w3 := tick (tick (tick (tick w))) in
  match setFault E (3 + clock w) with
  | Some err =>
      Some (LogJson "pebble_write_error" [("error", JStr err)] w3, write_failed)
  | None =>
      Some (LogJson "log_stored" [("key", JStr (enqueue_key E w))]
              (with_Db (Some (SMap.insert (enqueue_key E w) data db)) w3), stored)
  end.
Proof.
  unfold store. intros Hdb. unfold SendLog. cbn [tick config clock]. rewrite Hdb.
  unfold Pebble.Set_. cbn [Nat.add].
  destruct (setFault E (S (S (S (clock w))))); reflexivity.
Qed.


End Ingestion.


(** C3 fails on the code: two calls of [SendLog] whose clock readings and
    random draws coincide write under the same key; both report
    success, and the second record has replaced the first, of which
    nothing is left in the store. *)
Lemma SendLog_key_collision :
  exists w1 w2 k,
    SendLog (Scenario.always 200) Scenario.requestA (Scenario.agent []) = Some (w1, stored) /\
    SendLog (Scenario.always 200) Scenario.requestB w1 = Some (w2, stored) /\
    enqueue_key (Scenario.always 200) (Scenario.agent []) = k /\
    enqueue_key (Scenario.always 200) w1 = k /\
    store w1 = Some [(k, encode (LogRecordJson.to_json
                                   (enqueued_record (Scenario.always 200) Scenario.requestA
                                                    (Scenario.agent []))))] /\
    store w2 = Some [(k, encode (LogRecordJson.to_json
                                   (enqueued_record (Scenario.always 200) Scenario.requestB w1)))] /\
    Payload (enqueued_record (Scenario.always 200) Scenario.requestA (Scenario.agent []))
    <> Payload (enqueued_record (Scenario.always 200) Scenario.requestB w1).
Proof.
  do 3 eexists.
  split; [vm_compute; reflexivity|].
  split; [vm_compute; reflexivity|].
  split; [vm_compute; reflexivity|].
  split; [vm_compute; reflexivity|].
  split; [vm_compute; reflexivity|].
  split; [vm_compute; reflexivity|].
  vm_compute. discriminate.
Qed.

(** ** The stored record read back (tools/pebble.go, [logRecord]) *)

Section RecordRoundTrip.

Lemma decode_strings_strings (xs old : list string) :
  LogRecordJson.decode_strings old (map JStr xs) = (xs, true).
Proof.
  revert old. induction xs as [|x r IH]; intros old; [reflexivity|].
  cbn. rewrite IH. reflexivity.
Qed.

Lemma set_field_payload (rec : logRecord) (v : json) :
  LogRecordJson.set_field rec "payload" v =
  match v with
  | JNull => ({| Payload := None; Pipelines := Pipelines rec;
                 ReceivedAt := ReceivedAt rec |}, true)
  | JObj kvs =>
      ({| Payload := Some (SMap.of_list_into
                             (match Payload rec with Some m => m | None => [] end)
                             (members_to_any kvs));
          Pipelines := Pipelines rec; ReceivedAt := ReceivedAt rec |}, true)
  | _ => (rec, false)
  end.
Proof. reflexivity. Qed.

Lemma set_field_pipelines (rec : logRecord) (v : json) :
  LogRecordJson.set_field rec "pipelines" v =
  match v with
  | JNull => ({| Payload := Payload rec; Pipelines := None;
                 ReceivedAt := ReceivedAt rec |}, true)
  | JArr xs =>
      let (l, ok) := LogRecordJson.decode_strings
                       (match Pipelines rec with Some l => l | None => [] end) xs in
      ({| Payload := Payload rec; Pipelines := Some l; ReceivedAt := ReceivedAt rec |}, ok)
  | _ => (rec, false)
  end.
Proof. reflexivity. Qed.

Lemma set_field_received_at (rec : logRecord) (v : json) :
  LogRecordJson.set_field rec "received_at" v =
  match v with
  | JNull => (rec, true)
  | JStr s => ({| Payload := Payload rec; Pipelines := Pipelines rec;
                  ReceivedAt := s |}, true)
  | _ => (rec, false)
  end.
Proof. reflexivity. Qed.

Lemma to_json_lit_ok (rec : logRecord) :
  go_map (Payload rec) -> lit_ok (LogRecordJson.to_json rec).
Proof.
  intros Hp. unfold LogRecordJson.to_json. constructor.
  repeat constructor; cbn [snd].
  - destruct (Payload rec) as [kvs|]; cbn; [|constructor].
    apply go_value_lit_ok. exact Hp.
  - destruct (Pipelines rec) as [xs|]; cbn; [|constructor].
    constructor. apply Forall_forall. intros y Hy.
    apply in_map_iff in Hy. destruct Hy as (x & <- & _). constructor.
Qed.

Lemma nesting_of_strings (l : strings) : nesting (of_strings l) <= 1.
Proof.
  destruct l as [xs|]; cbn [of_strings nesting]; [|lia].
  apply le_n_S. apply list_max_le. rewrite map_map, Forall_map.
  apply Forall_forall. intros x _. cbn. lia.
Qed.

Lemma to_json_nesting (rec : logRecord) :
  gomap_nesting (Payload rec) < maxNestingDepth ->
  nesting (LogRecordJson.to_json rec) <= maxNestingDepth.
Proof.
  intros Hp. unfold LogRecordJson.to_json.
  change (nesting (JObj ?l)) with (S (list_max (map (fun kv => nesting (snd kv)) l))).
  unfold list_max. cbn [map snd fold_right nesting].
  pose proof (nesting_of_strings (Pipelines rec)) as Hs.
  assert (Hpay : nesting (of_gomap (Payload rec)) = gomap_nesting (Payload rec))
    by (destruct (Payload rec); reflexivity).
  rewrite Hpay. pose proof two_le_maxNestingDepth. lia.
Qed.

(** Marshalling a record whose payload is a Go value that nests less
    deep than the scanner allows, and unmarshalling the bytes, gives
    the record back. *)
Lemma Unmarshal_Marshal (rec : logRecord) :
  go_map (Payload rec) ->
  gomap_nesting (Payload rec) < maxNestingDepth ->
  LogRecordJson.Unmarshal (fst (LogRecordJson.Marshal rec)) = (rec, None).
Proof.
  intros Hp Hn. unfold LogRecordJson.Marshal, GoJson.Marshal. cbn [fst].
  unfold LogRecordJson.Unmarshal.
  rewrite (parse_encode _ (to_json_lit_ok rec Hp) (to_json_nesting rec Hn)).
  unfold LogRecordJson.to_json. cbn [LogRecordJson.set_fields].
  rewrite set_field_payload.
  destruct rec as [payload pipelines received]. cbn [Payload Pipelines ReceivedAt] in *.
  assert (Hpay : forall p, LogRecordJson.set_field
                      {| Payload := payload; Pipelines := p; ReceivedAt := EmptyString |}
                      "pipelines" (of_strings pipelines)
                    = ({| Payload := payload; Pipelines := pipelines;
                          ReceivedAt := EmptyString |}, true)).
  { intros p. rewrite set_field_pipelines. cbn [Payload Pipelines ReceivedAt].
    destruct pipelines as [xs|]; cbn [of_strings]; [|reflexivity].
    rewrite decode_strings_strings. reflexivity. }
  destruct payload as [kvs|]; cbn [of_gomap LogRecordJson.zero Payload Pipelines ReceivedAt].
  - destruct (members_to_any_id kvs Hp) as [Hm Ho].
    rewrite Hm. change (SMap.of_list_into [] kvs) with (SMap.of_list kvs). rewrite Ho.
    rewrite Hpay, set_field_received_at. reflexivity.
  - rewrite Hpay, set_field_received_at. reflexivity.
Qed.

Variable E : Env.

(** X4: when [SendLog] has stored a record whose payload nests less deep
    than the scanner of [encoding/json] allows, the bytes found in
    the store under its key decode, by the [json.Unmarshal] of the
    replay pass, to the record that was enqueued. *)
Theorem SendLog_round_trip_below_limit (req : LogRequest) (w w' : World) (resp : LogResponse) :
  SendLog E req w = Some (w', resp) ->
  Success resp = true ->
  gomap_nesting (kept_payload (JsonData req)) < maxNestingDepth ->
  readback E req w = Some (enqueued_record E req w, None).
Proof.
  intros Hsend Hok Hn. unfold readback. rewrite Hsend.
  destruct (store w) as [db|] eqn:Hdb.
  - rewrite (SendLog_eq E req w db Hdb) in Hsend. cbv zeta in Hsend.
    destruct (setFault E (3 + clock w)); injection Hsend as Hw Hr; subst w' resp;
      [discriminate|].
    cbn [LogJson with_Db with_config config Db]. rewrite lookup_insert_same.
    f_equal. apply (Unmarshal_Marshal (enqueued_record E req w)); [|exact Hn].
    apply kept_payload_go.
  - unfold SendLog in Hsend. cbn [tick config] in Hsend. unfold store in Hdb.
    rewrite Hdb in Hsend. discriminate.
Qed.

Lemma to_json_too_deep (rec : logRecord) :
  gomap_nesting (Payload rec) = maxNestingDepth ->
  maxNestingDepth < nesting (LogRecordJson.to_json rec).
Proof.
  intros Hp. unfold LogRecordJson.to_json.
  change (nesting (JObj ?l)) with (S (list_max (map (fun kv => nesting (snd kv)) l))).
  unfold list_max. cbn [map snd fold_right nesting].
  assert (Hpay : nesting (of_gomap (Payload rec)) = gomap_nesting (Payload rec))
    by (destruct (Payload rec); reflexivity).
  rewrite Hpay. lia.
Qed.

Lemma Unmarshal_too_deep (rec : logRecord) :
  go_map (Payload rec) ->
  gomap_nesting (Payload rec) = maxNestingDepth ->
  LogRecordJson.Unmarshal (fst (LogRecordJson.Marshal rec))
  = (LogRecordJson.zero, Some syntax_error).
Proof.
  intros Hp Hn. unfold LogRecordJson.Marshal, GoJson.Marshal. cbn [fst].
  unfold LogRecordJson.Unmarshal.
  rewrite (parse_encode_too_deep _ (to_json_lit_ok rec Hp) (to_json_too_deep rec Hn)).
  reflexivity.
Qed.

(** When [SendLog] has stored a record whose payload nests as deep as
    the scanner allows, the [json.Unmarshal] of the replay pass
    refuses the stored bytes. *)
Theorem SendLog_payload_at_limit (req : LogRequest) (w w' : World) (resp : LogResponse) :
  SendLog E req w = Some (w', resp) ->
  Success resp = true ->
  gomap_nesting (kept_payload (JsonData req)) = maxNestingDepth ->
  readback E req w = Some (LogRecordJson.zero, Some syntax_error).
Proof.
  intros Hsend Hok Hn. unfold readback. rewrite Hsend.
  destruct (store w) as [db|] eqn:Hdb.
  - rewrite (SendLog_eq E req w db Hdb) in Hsend. cbv zeta in Hsend.
    destruct (setFault E (3 + clock w)); injection Hsend as Hw Hr; subst w' resp;
      [discriminate|].
    cbn [LogJson with_Db with_config config Db]. rewrite lookup_insert_same.
    f_equal. apply (Unmarshal_too_deep (enqueued_record E req w)); [|exact Hn].
    apply kept_payload_go.
  - unfold SendLog in Hsend. cbn [tick config] in Hsend. unfold store in Hdb.
    rewrite Hdb in Hsend. discriminate.
Qed.

End RecordRoundTrip.

Section DeepDocument.

Lemma wrap_lit_ok (n : nat) (v : json) : lit_ok v -> lit_ok (Scenario.wrap n v).
Proof. intros H. induction n as [|n IH]; cbn; [exact H|]. repeat constructor. exact IH. Qed.

Lemma wrap_go_value (n : nat) (v : json) : go_value v -> go_value (Scenario.wrap n v).
Proof. intros H. induction n as [|n IH]; cbn; [exact H|]. repeat constructor. exact IH. Qed.

Lemma wrap_nesting (n : nat) (v : json) : nesting (Scenario.wrap n v) = n + nesting v.
Proof.
  induction n as [|n IH]; [reflexivity|].
  cbn [Scenario.wrap nesting map]. unfold list_max. cbn [fold_right].
  rewrite IH. lia.
Qed.

Lemma deep_payload_go_value : go_value (JObj Scenario.deep_payload).
Proof.
  constructor.
  - unfold SMap.sorted. cbn. auto.
  - constructor; [|constructor]. cbn [snd]. apply wrap_go_value. constructor.
Qed.

Lemma deep_payload_nesting : nesting (JObj Scenario.deep_payload) = maxNestingDepth.
Proof.
  unfold Scenario.deep_payload.
  change (nesting (JObj ?l)) with (S (list_max (map (fun kv => nesting (snd kv)) l))).
  unfold list_max. cbn [map snd fold_right]. rewrite wrap_nesting.
  pose proof two_le_maxNestingDepth. cbn [nesting]. lia.
Qed.

Lemma Unmarshal_map_deep :
  Unmarshal_map (JsonData Scenario.requestDeep) = (Some Scenario.deep_payload, None).
Proof.
  unfold Unmarshal_map, Scenario.requestDeep. cbn [JsonData].
  rewrite parse_encode.
  - destruct (members_to_any_id Scenario.deep_payload deep_payload_go_value) as [Hm Ho].
    rewrite Hm, Ho. reflexivity.
  - apply go_value_lit_ok. exact deep_payload_go_value.
  - rewrite deep_payload_nesting. lia.
Qed.

End DeepDocument.

(** C6 fails on the code: a request whose document nests as deep as the
    scanner of [encoding/json] allows is decoded and stored by
    [SendLog], which reports success; the stored record holds the
    payload one level deeper, so the [json.Unmarshal] of the replay
    pass refuses the stored bytes and the record is not read back. *)
Lemma SendLog_deep_payload_not_read_back :
  option_map snd (SendLog (Scenario.always 200) Scenario.requestDeep (Scenario.agent []))
  = Some stored /\
  snd (Unmarshal_map (JsonData Scenario.requestDeep)) = None /\
  gomap_nesting (kept_payload (JsonData Scenario.requestDeep)) = maxNestingDepth /\
  readback (Scenario.always 200) Scenario.requestDeep (Scenario.agent [])
  = Some (LogRecordJson.zero, Some syntax_error).
Proof.
  assert (Hsend : SendLog (Scenario.always 200) Scenario.requestDeep (Scenario.agent [])
                  = Some (LogJson "log_stored"
                            [("key", JStr (enqueue_key (Scenario.always 200) (Scenario.agent [])))]
                            (with_Db (Some (SMap.insert
                                              (enqueue_key (Scenario.always 200) (Scenario.agent []))
                                              (encode (LogRecordJson.to_json
                                                         (enqueued_record (Scenario.always 200)
                                                            Scenario.requestDeep
                                                            (Scenario.agent []))))
                                              []))
                               (tick (tick (tick (tick (Scenario.agent [])))))), stored))
    by (rewrite (SendLog_eq (Scenario.always 200) Scenario.requestDeep (Scenario.agent [])
                   [] eq_refl); reflexivity).
  assert (Hkept : kept_payload (JsonData Scenario.requestDeep) = Some Scenario.deep_payload)
    by (unfold kept_payload; rewrite Unmarshal_map_deep; reflexivity).
  assert (Hn : gomap_nesting (kept_payload (JsonData Scenario.requestDeep)) = maxNestingDepth)
    by (rewrite Hkept; exact deep_payload_nesting).
  split; [rewrite Hsend; reflexivity|].
  split; [rewrite Unmarshal_map_deep; reflexivity|].
  split; [exact Hn|].
  exact (SendLog_payload_at_limit _ _ _ _ _ Hsend eq_refl Hn).
Qed.

Lemma SendLog_round_trip_below_limit_witness :
  SendLog (Scenario.always 200) Scenario.requestA (Scenario.agent [])
  = Some (LogJson "log_stored" [("key", JStr "1700000000000000000_7")]
            (with_Db (Some [("1700000000000000000_7",
                             encode (LogRecordJson.to_json
                                       (enqueued_record (Scenario.always 200) Scenario.requestA
                                                        (Scenario.agent []))))])
               (tick (tick (tick (tick (Scenario.agent [])))))), stored) /\
  Success stored = true /\
  gomap_nesting (kept_payload (JsonData Scenario.requestA)) < maxNestingDepth /\
  readback (Scenario.always 200) Scenario.requestA (Scenario.agent [])
  = Some ({| Payload := Some [("msg", JStr "first")];
             Pipelines := Some ["test-pipeline"];
             ReceivedAt := "2023-11-14T22:13:20Z" |}, None).
Proof.
  assert (Hn : gomap_nesting (kept_payload (JsonData Scenario.requestA)) < maxNestingDepth)
    by (apply Nat.ltb_lt; vm_compute; reflexivity).
  split; [vm_compute; reflexivity|]. split; [reflexivity|]. split; [exact Hn|].
  rewrite (SendLog_round_trip_below_limit (Scenario.always 200) Scenario.requestA
             (Scenario.agent []) _ stored ltac:(vm_compute; reflexivity) eq_refl Hn).
  vm_compute. reflexivity.
Defined.


(** ** The control loop (main.go) *)

Section Controller.

Local Open Scope string_scope.
Local Open Scope list_scope.

Variable E : Env.

Lemma Disable_frame (w : World) :
  store (fst (DisableAcceptingFlag w)) = store w /\
  clock (fst (DisableAcceptingFlag w)) = clock w /\
  sent (fst (DisableAcceptingFlag w)) = sent w /\
  stdout (fst (DisableAcceptingFlag w)) = stdout w.
Proof.
  unfold DisableAcceptingFlag, store.
  destruct (AcceptingFlag (files (config w))); cbn; auto.
Qed.

Lemma IsHealthSuccess_healthy (w : World) (resp : Response) :
  httpGet E (clock w) (ServerHost (config w)) = inl resp ->
  IsHealthSuccess E w = (tick w, (StatusCode resp =? 200)%Z).
Proof. unfold IsHealthSuccess. intros ->. reflexivity. Qed.

Lemma PebbleIsEmpty_open (db : Pebble.DB) :
  PebbleIsEmpty (Some db) = true <-> db = [].
Proof. destruct db; cbn; split; intros H; congruence. Qed.

(** C7: in a turn of the control loop where the context is not
    cancelled, the probe reports healthy and the store is empty, the
    loop is left without a replay pass (no request is posted, nothing
    but the two lines of that branch is printed, the store stays
    empty); and a turn leaves the loop only when the cancellation was
    seen during it or when the probe reported healthy and the store
    was empty. *)
Theorem main_loop_exit (w : World) (db : Pebble.DB) :
  store w = Some db ->
  (ctxErr E (clock w) = false -> probe_healthy E w -> db = [] ->
   exists w',
     mainIteration E w = Some (w', BreakMain) /\
     (forall fuel, mainRoutine (S fuel) E w = Some (w', true)) /\
     sent w' = sent w /\
     store w' = Some [] /\
     stdout w' = stdout w ++ [{| event := "main_healthy_not_accepting_logs"; fields := [] |};
                              {| event := "pebble_empty_exiting"; fields := [] |}]) /\
  (forall w', mainIteration E w = Some (w', BreakMain) ->
              cancelled_between E w w' \/ (probe_healthy E w /\ db = [])).
Proof.
  intros Hdb. split.
  - intros Hctx (resp & Hget & H200) ->.
    assert (Hit : exists w', mainIteration E w = Some (w', BreakMain) /\
              sent w' = sent w /\ store w' = Some [] /\
              stdout w' = stdout w ++
                [{| event := "main_healthy_not_accepting_logs"; fields := [] |};
                 {| event := "pebble_empty_exiting"; fields := [] |}]).
    { unfold mainIteration. rewrite Hctx.
      rewrite (IsHealthSuccess_healthy (tick w) resp) by exact Hget.
      rewrite H200. cbn [Z.eqb Pos.eqb].
      destruct (Disable_frame (tick (tick w))) as (Hs & Hc & Hse & Hso).
      rewrite FlushPebbleDB_id.
      cbn [Sleep LogJson config].
      unfold store in Hs, Hdb. rewrite Hs. cbn [tick config]. rewrite Hdb.
      cbn [PebbleIsEmpty Pebble.NewIter].
      eexists. split; [reflexivity|].
      unfold store. cbn [LogJson Sleep sent stdout config].
      rewrite Hse, Hso, Hs. cbn [tick config sent stdout].
      rewrite Hdb, <- app_assoc. auto. }
    destruct Hit as (w' & Hit & Hrest). exists w'. split; [exact Hit|].
    split; [|exact Hrest]. intros fuel. cbn [mainRoutine]. rewrite Hit. reflexivity.
  - intros w' H. unfold mainIteration in H.
    destruct (ctxErr E (clock w)) eqn:Hctx.
    + inversion H; subst. left. exists (clock w). cbn. split; [lia|exact Hctx].
    + unfold IsHealthSuccess in H. cbn [tick clock config] in H.
      destruct (httpGet E (S (clock w)) (ServerHost (config w))) as [resp|err] eqn:Hget.
      * destruct (StatusCode resp =? 200)%Z eqn:H200.
        -- rewrite FlushPebbleDB_id in H.
           destruct (Disable_frame (tick (tick w))) as (Hs & Hc & _).
           cbn [Sleep LogJson config] in H.
           unfold store in Hs, Hdb. rewrite Hs in H. cbn [tick config] in H.
           rewrite Hdb in H.
           destruct (PebbleIsEmpty (Some db)) eqn:Hempty.
           ++ right. split.
              ** exists resp. split; [exact Hget|]. apply Z.eqb_eq. exact H200.
              ** apply PebbleIsEmpty_open. exact Hempty.
           ++ left.
              match type of H with
              | match ProcessPebble E ?w0 with _ => _ end = _ =>
                  destruct (ProcessPebble E w0) as [[w2 r]|] eqn:Hpp; [|discriminate];
                  assert (Hclk : (clock w0 <= clock w2)%nat)
                    by (eapply (ProcessPebble_clock E w0 w2 db);
                        [unfold store; cbn [Sleep LogJson config]; rewrite Hs;
                         cbn [tick config]; exact Hdb | exact Hpp]);
                  cbn [Sleep LogJson clock] in Hclk; rewrite Hc in Hclk;
                  cbn [tick clock] in Hclk
              end.
              destruct r as [err|].
              ** cbn [LogJson clock] in H.
                 destruct (ctxErr E (clock w2)) eqn:Hc2; inversion H; subst.
                 exists (clock w2). cbn. split; [lia|exact Hc2].
              ** destruct (ctxErr E (clock w2)) eqn:Hc2; inversion H; subst.
                 exists (clock w2). cbn. split; [lia|exact Hc2].
        -- cbn [LogJson] in H.
           destruct (AcceptingFlag (files (config (tick (tick w))))); discriminate.
      * cbn [LogJson] in H.
        destruct (AcceptingFlag _); discriminate.
Qed.

End Controller.

Lemma main_loop_exit_witness :
  store (Scenario.agent []) = Some [] /\
  ctxErr (Scenario.always 200) (clock (Scenario.agent [])) = false /\
  probe_healthy (Scenario.always 200) (Scenario.agent []) /\
  exists w',
    mainIteration (Scenario.always 200) (Scenario.agent []) = Some (w', BreakMain) /\
    (forall fuel, mainRoutine (S fuel) (Scenario.always 200) (Scenario.agent []) = Some (w', true)) /\
    sent w' = [] /\
    store w' = Some [].
Proof.
  assert (Hp : probe_healthy (Scenario.always 200) (Scenario.agent []))
    by (eexists; split; reflexivity).
  split; [reflexivity|]. split; [reflexivity|]. split; [exact Hp|].
  destruct (main_loop_exit (Scenario.always 200) (Scenario.agent []) [] eq_refl) as [H _].
  destruct (H eq_refl Hp eq_refl) as (w' & H1 & H2 & H3 & H4 & _).
  exists w'. auto.
Defined.

(** ** The replay pass (tools/pebble.go, [ProcessPebble]) *)

Section ReplayPass.

Variable E : Env.

Lemma scan_after_walks (pre rest : Pebble.Iterator) (w w1 : World) (p p1 : Pass) :
  walks E pre w p w1 p1 ->
  scan E (pre ++ rest) w p = scan E rest w1 p1.
Proof.
  induction 1 as [|kv r w p w1 p1 w' p' Hv _ IH]; [reflexivity|].
  cbn. rewrite Hv. exact IH.
Qed.

Lemma visit_keys (kv : string * string) (w w' : World) (p p' : Pass) (fl : Flow) :
  visit E kv w p = (w', p', fl) ->
  keys p' = keys p \/
  (keys p' = keys p ++ [fst kv] /\ snd (LogRecordJson.Unmarshal (snd kv)) = None).
Proof.
  unfold visit. destruct (ctxErr E (clock w)).
  - intros [= <- <- <-]. auto.
  - destruct (LogRecordJson.Unmarshal (snd kv)) as [rec [err|]].
    + intros [= <- <- <-]. auto.
    + destruct (sendToServer E rec (tick w)) as [w1 [addKey [err|]]].
      * intros [= <- <- <-]. auto.
      * destruct addKey; intros [= <- <- <-]; auto.
Qed.

Lemma walks_keys (pre : Pebble.Iterator) (w w1 : World) (p p1 : Pass) :
  walks E pre w p w1 p1 ->
  forall k, In k (keys p1) ->
            In k (keys p) \/
            exists v, In (k, v) pre /\ snd (LogRecordJson.Unmarshal v) = None.
Proof.
  induction 1 as [|kv r w p w1 p1 w' p' Hv _ IH]; intros k Hk; [auto|].
  destruct (IH k Hk) as [Hin|(v & Hin & Hd)].
  - apply visit_keys in Hv. destruct Hv as [Hv|[Hv Hd]]; rewrite Hv in Hin.
    + auto.
    + apply in_app_or in Hin. destruct Hin as [Hin|[<-|[]]]; [auto|].
      right. exists (snd kv). split; [left; destruct kv; reflexivity|exact Hd].
  - right. exists v. split; [right; exact Hin|exact Hd].
Qed.

Lemma scan_keys (iter : Pebble.Iterator) :
  forall (w w' : World) (p p' : Pass),
    scan E iter w p = (w', p') ->
    forall k, In k (keys p') ->
              In k (keys p) \/
              exists v, In (k, v) iter /\ snd (LogRecordJson.Unmarshal v) = None.
Proof.
  induction iter as [|kv r IH]; intros w w' p p' H k Hk; cbn in H.
  - inversion H; subst. auto.
  - destruct (visit E kv w p) as [[w1 p1] fl] eqn:Hv.
    apply visit_keys in Hv.
    assert (Hstep : In k (keys p1) ->
                    In k (keys p) \/
                    exists v, In (k, v) (kv :: r) /\ snd (LogRecordJson.Unmarshal v) = None).
    { intros Hin. destruct Hv as [Hv|[Hv Hd]]; rewrite Hv in Hin; [auto|].
      apply in_app_or in Hin. destruct Hin as [Hin|[<-|[]]]; [auto|].
      right. exists (snd kv). split; [left; destruct kv; reflexivity|exact Hd]. }
    destruct fl.
    + destruct (IH _ _ _ _ H k Hk) as [Hin|(v & Hin & Hd)]; [auto|].
      right. exists v. split; [right; exact Hin|exact Hd].
    + inversion H; subst. auto.
Qed.

Lemma sorted_In_unique {V : Type} (m : list (string * V)) k v v' :
  SMap.sorted m -> In (k, v) m -> In (k, v') m -> v = v'.
Proof.
  intros Hs H1 H2.
  apply (sorted_lookup_In k v m Hs) in H1. apply (sorted_lookup_In k v' m Hs) in H2.
  congruence.
Qed.

Lemma sorted_split_disjoint {V : Type} (pre post : list (string * V)) k v :
  SMap.sorted (pre ++ post) -> In (k, v) post -> ~ In k (map fst pre).
Proof.
  unfold SMap.sorted. rewrite map_app. intros Hs Hin Hpre.
  apply ascending_app in Hs. destruct Hs as (_ & _ & H).
  apply (key_lt_irrefl k). apply H; [exact Hpre|].
  apply in_map_iff. exists (k, v). auto.
Qed.

(** The turn of the loop at an entry whose delivery is transient. *)
Lemma visit_transient (k v : string) (w : World) (p : Pass) (rec : logRecord) :
  ctxErr E (clock w) = false ->
  LogRecordJson.Unmarshal v = (rec, None) ->
  transient (httpPost E (S (clock w)) (delivery_request w rec)) ->
  exists w',
    visit E (k, v) w p =
    (w', {| keys := keys p; count := count p;
            serverErr := Some (delivery_error
                                 (httpPost E (S (clock w)) (delivery_request w rec))) |},
     Break) /\
    sent w' = sent w ++ [(S (clock w), delivery_request w rec)] /\
    clock w' = S (S (clock w)) /\
    store w' = store w.
Proof.
  intros Hctx Hdec Htr. unfold visit. rewrite Hctx. cbn [snd]. rewrite Hdec.
  rewrite sendToServer_eq. cbv zeta.
  change (clock (tick w)) with (S (clock w)).
  change (delivery_request (tick w) rec) with (delivery_request w rec).
  destruct (httpPost E (S (clock w)) (delivery_request w rec)) as [resp|err].
  - cbn in Htr.
    replace ((200 <=? StatusCode resp) && (StatusCode resp <? 300))%Z with false
      by (symmetry; apply andb_false_iff; right; apply Z.ltb_ge; lia).
    replace ((300 <=? StatusCode resp) && (StatusCode resp <=? 500))%Z with false
      by (symmetry; apply andb_false_iff; right; apply Z.leb_gt; lia).
    replace (StatusCode resp >? 500)%Z with true
      by (symmetry; rewrite Z.gtb_ltb; apply Z.ltb_lt; lia).
    eexists. split; [reflexivity|]. cbn. auto.
  - eexists. split; [reflexivity|]. cbn. auto.
Qed.

Lemma walks_frame (pre : Pebble.Iterator) (w w1 : World) (p p1 : Pass) :
  walks E pre w p w1 p1 -> store w1 = store w /\ (clock w <= clock w1)%nat.
Proof.
  induction 1 as [|kv r w p w1 p1 w' p' Hv _ IH]; [auto|].
  apply visit_frame in Hv. destruct Hv as [Hs Hc]. destruct IH as [Hs' Hc'].
  rewrite Hs', Hs. split; [reflexivity|lia].
Qed.

Lemma sendToServer_err (rec : logRecord) (w : World) (e : error) :
  snd (snd (sendToServer E rec w)) = Some e ->
  transient (httpPost E (clock w) (delivery_request w rec)).
Proof.
  rewrite sendToServer_eq. cbv zeta.
  destruct (httpPost E (clock w) (delivery_request w rec)) as [resp|err]; [|cbn; auto].
  destruct (_ && _); [discriminate|].
  destruct (_ && _); [discriminate|].
  destruct (StatusCode resp >? 500)%Z eqn:H; [|discriminate].
  intros _. cbn. rewrite Z.gtb_ltb in H. apply Z.ltb_lt in H. exact H.
Qed.

Lemma visit_sent (kv : string * string) (w w' : World) (p p' : Pass) (fl : Flow) :
  visit E kv w p = (w', p', fl) ->
  (forall x, In x (sent w) -> In x (sent w')) /\
  (serverErr p' = serverErr p \/
   exists t rq, In (t, rq) (sent w') /\ (clock w <= t)%nat /\ transient (httpPost E t rq)).
Proof.
  unfold visit. destruct (ctxErr E (clock w)).
  - intros [= <- <- <-]. cbn. auto.
  - destruct (LogRecordJson.Unmarshal (snd kv)) as [rec [err|]].
    + intros [= <- <- <-]. cbn. auto.
    + destruct (sendToServer_frame E rec (tick w)) as (_ & _ & Hsent).
      pose proof (sendToServer_err rec (tick w)) as Herr.
      destruct (sendToServer E rec (tick w)) as [w1 [addKey [err|]]].
      * cbn [fst snd] in Hsent, Herr. intros [= <- <- <-].
        rewrite Hsent. split; [intros x Hx; apply in_or_app; auto|].
        right. exists (clock (tick w)), (delivery_request (tick w) rec).
        split; [apply in_or_app; right; left; reflexivity|].
        split; [cbn; lia|]. eapply Herr. reflexivity.
      * cbn [fst] in Hsent.
        destruct addKey; intros [= <- <- <-]; rewrite Hsent;
          (split; [intros x Hx; apply in_or_app; auto|left; reflexivity]).
Qed.

Lemma scan_sent (iter : Pebble.Iterator) :
  forall (w w' : World) (p p' : Pass),
    scan E iter w p = (w', p') ->
    (forall x, In x (sent w) -> In x (sent w')) /\
    (serverErr p' = serverErr p \/
     exists t rq, In (t, rq) (sent w') /\ (clock w <= t)%nat /\ transient (httpPost E t rq)).
Proof.
  induction iter as [|kv r IH]; intros w w' p p' H; cbn in H.
  - inversion H; subst. auto.
  - destruct (visit E kv w p) as [[w1 p1] fl] eqn:Hv.
    pose proof (visit_frame E _ _ _ _ _ _ Hv) as [_ Hclk].
    apply visit_sent in Hv. destruct Hv as [Hin Herr].
    destruct fl.
    + apply IH in H. destruct H as [Hin' Herr']. split; [auto|].
      destruct Herr' as [Heq|(t & rq & H1 & H2 & H3)].
      * destruct Herr as [Heq1|(t & rq & H1 & H2 & H3)].
        -- left. congruence.
        -- right. exists t, rq. auto.
      * right. exists t, rq. split; [exact H1|]. split; [lia|exact H3].
    + inversion H; subst. auto.
Qed.

Lemma batch_deletes_no_fault (ks : list string) :
  (forall t, deleteFault E t = None) ->
  forall b t, exists b' t', batch_deletes E ks b t = (b', t', None).
Proof.
  intros Hno. induction ks as [|k r IH]; intros b t; cbn.
  - eauto.
  - unfold Pebble.Delete. rewrite Hno. apply IH.
Qed.

Lemma deleteKeysBatch_no_fault (db : Pebble.DB) (ks : list string) (t : nat) :
  (forall t, deleteFault E t = None /\ commitFault E t = None) ->
  snd (deleteKeysBatch E db ks t) = None.
Proof.
  intros Hno. unfold deleteKeysBatch.
  destruct (batch_deletes_no_fault ks (fun t => proj1 (Hno t)) Pebble.NewBatch t)
    as (b' & t' & Hb).
  rewrite Hb. unfold Pebble.Commit. rewrite (proj2 (Hno t')). reflexivity.
Qed.

(** C2, as amended: when a pass over a store in key order has walked
    the entries before an entry without leaving the loop, and the
    delivery of that entry is transient (a status above 500 or a
    transport failure), the pass posts nothing after that request,
    the entry and every entry after it stay in the store, and only
    keys of earlier entries are marked; the marked keys go to one
    batch delete: when it succeeds they are all gone from the store
    and the pass returns the transient error, when it fails the
    store is unchanged and the pass returns the error of the delete.
    A pass none of whose deliveries is transient returns no error
    when the batch delete does not fail. *)
Theorem ProcessPebble_transient_abort (w : World) (db : Pebble.DB) :
  store w = Some db ->
  SMap.sorted db ->
  (forall pre k v post w1 p1 rec,
      db = pre ++ (k, v) :: post ->
      walks E pre w pass0 w1 p1 ->
      ctxErr E (clock w1) = false ->
      LogRecordJson.Unmarshal v = (rec, None) ->
      transient (httpPost E (S (clock w1)) (delivery_request w1 rec)) ->
      exists w' r db',
        ProcessPebble E w = Some (w', r) /\
        store w' = Some db' /\
        sent w' = sent w1 ++ [(S (clock w1), delivery_request w1 rec)] /\
        (forall kv, In kv ((k, v) :: post) -> In kv db') /\
        (forall k', In k' (keys p1) -> In k' (map fst pre)) /\
        match delete_error E db (keys p1) (S (S (clock w1))) with
        | None =>
            r = Some (delivery_error (httpPost E (S (clock w1)) (delivery_request w1 rec))) /\
            db' = Pebble.apply (keys p1) db /\
            (forall k', In k' (keys p1) -> SMap.lookup k' db' = None)
        | Some e => r = Some e /\ db' = db
        end) /\
  (forall w' r,
      ProcessPebble E w = Some (w', r) ->
      (forall t rq, In (t, rq) (sent w') -> (clock w <= t)%nat ->
                    ~ transient (httpPost E t rq)) ->
      (forall t, deleteFault E t = None /\ commitFault E t = None) ->
      r = None).
Proof.
  intros Hdb Hsorted. split.
  - intros pre k v post w1 p1 rec Hsplit Hwalk Hctx Hdec Htr.
    rewrite (ProcessPebble_eq E w db Hdb). subst db.
    rewrite (scan_after_walks _ _ _ _ _ _ Hwalk). cbn [scan].
    destruct (visit_transient k v w1 p1 rec Hctx Hdec Htr) as (w2 & Hv & Hsent & Hclk & Hst).
    rewrite Hv. cbn [keys count serverErr].
    destruct (walks_frame _ _ _ _ _ Hwalk) as [Hst1 _].
    assert (Hstore2 : store w2 = Some (pre ++ (k, v) :: post))
      by (rewrite Hst, Hst1; exact Hdb).
    assert (Hmarked : forall k', In k' (keys p1) -> In k' (map fst pre)).
    { intros k' Hk'. destruct (walks_keys _ _ _ _ _ Hwalk k' Hk') as [[]|(v' & Hin & _)].
      apply in_map_iff. exists (k', v'). auto. }
    assert (Hkept : forall kv, In kv ((k, v) :: post) ->
                               In kv (Pebble.apply (keys p1) (pre ++ (k, v) :: post))).
    { intros [k' v'] Hin. apply In_apply_out; [|apply in_or_app; right; exact Hin].
      intros Hk'. apply Hmarked in Hk'.
      eapply sorted_split_disjoint; eassumption. }
    rewrite Hclk. unfold delete_error.
    destruct (keys p1) as [|k0 ks0] eqn:Hkeys.
    + cbn [List.length Nat.ltb Nat.leb].
      do 3 eexists. split; [reflexivity|]. split; [exact Hstore2|].
      split; [exact Hsent|]. split; [intros kv Hin; apply in_or_app; right; exact Hin|].
      split; [exact Hmarked|]. split; [reflexivity|]. split; [reflexivity|].
      intros k' [].
    + cbn [List.length Nat.ltb Nat.leb].
      destruct (deleteKeysBatch E (pre ++ (k, v) :: post) (k0 :: ks0) (S (S (clock w1))))
        as [[db' t] [e|]] eqn:Hdel; cbn [snd].
      * apply deleteKeysBatch_err in Hdel. subst db'.
        do 3 eexists. split; [reflexivity|]. split; [exact Hstore2|].
        split; [exact Hsent|]. split; [intros kv Hin; apply in_or_app; right; exact Hin|].
        split; [exact Hmarked|]. split; reflexivity.
      * apply deleteKeysBatch_ok in Hdel. subst db'.
        do 3 eexists. split; [reflexivity|]. split; [reflexivity|].
        split; [exact Hsent|]. split; [exact Hkept|].
        split; [exact Hmarked|]. split; [reflexivity|]. split; [reflexivity|].
        intros k' Hk'. apply lookup_apply_in. exact Hk'.
  - intros w' r Hpp Hnt Hnf.
    rewrite (ProcessPebble_eq E w db Hdb) in Hpp.
    destruct (scan E db w _) as [w1 p] eqn:Hscan.
    pose proof (scan_frame E _ _ _ _ _ Hscan) as [_ Hclk].
    apply scan_sent in Hscan. destruct Hscan as [Hin Herr].
    assert (Hsent : forall x, In x (sent w1) -> In x (sent w')).
    { destruct (0 <? List.length (keys p))%nat.
      - destruct (deleteKeysBatch E db (keys p) (clock w1)) as [[db' t] [e|]];
          inversion Hpp; subst; cbn; auto.
      - inversion Hpp; subst; cbn; auto. }
    assert (Hp : serverErr p = None).
    { destruct Herr as [Heq|(t & rq & H1 & H2 & H3)]; [exact Heq|].
      exfalso. apply (Hnt t rq); auto. }
    destruct (0 <? List.length (keys p))%nat.
    + pose proof (deleteKeysBatch_no_fault db (keys p) (clock w1) Hnf) as Hd.
      destruct (deleteKeysBatch E db (keys p) (clock w1)) as [[db' t] [e|]];
        [discriminate|]. inversion Hpp; subst. exact Hp.
    + inversion Hpp; subst. exact Hp.
Qed.

End ReplayPass.

Lemma storeABC_sorted : SMap.sorted Scenario.storeABC.
Proof. unfold SMap.sorted. cbn. repeat split; repeat constructor. Qed.

Lemma ProcessPebble_transient_abort_witness :
  store (Scenario.agent Scenario.storeABC) = Some Scenario.storeABC /\
  SMap.sorted Scenario.storeABC /\
  exists w',
    ProcessPebble (Scenario.ok_then_busy None) (Scenario.agent Scenario.storeABC)
    = Some (w', Some "server_error, status 503") /\
    store w' = Some [("1700000000000000002_7", Scenario.value0);
                     ("1700000000000000003_7", Scenario.value0)].
Proof.
  split; [reflexivity|]. split; [exact storeABC_sorted|].
  destruct (ProcessPebble_transient_abort (Scenario.ok_then_busy None)
              (Scenario.agent Scenario.storeABC) Scenario.storeABC eq_refl storeABC_sorted)
    as [H _].
  edestruct (H [("1700000000000000001_7", Scenario.value0)]
               "1700000000000000002_7" Scenario.value0
               [("1700000000000000003_7", Scenario.value0)])
    as (w' & r & db' & Hpp & Hst & _ & _ & _ & Hres).
  - reflexivity.
  - eapply walks_cons; [vm_compute; reflexivity|apply walks_nil].
  - reflexivity.
  - vm_compute. reflexivity.
  - vm_compute. reflexivity.
  - vm_compute in Hres. destruct Hres as (-> & -> & _).
    exists w'. split; [exact Hpp|exact Hst].
Defined.

(** C2 as stated fails: when the batch delete fails, the entry marked
    earlier in the pass is not deleted and the pass returns the error of
    the delete, not the first transient error. Here A is answered with
    200 and marked, B is answered with 503, and the commit of the batch
    fails. *)
Lemma ProcessPebble_delete_failure :
  exists w' w1 p1,
    ProcessPebble (Scenario.ok_then_busy (Some "no space left on device"))
                  (Scenario.agent Scenario.storeABC)
    = Some (w', Some "no space left on device") /\
    store w' = Some Scenario.storeABC /\
    walks (Scenario.ok_then_busy (Some "no space left on device"))
          [("1700000000000000001_7", Scenario.value0)]
          (Scenario.agent Scenario.storeABC) pass0 w1 p1 /\
    keys p1 = ["1700000000000000001_7"] /\
    delivery_error (httpPost (Scenario.ok_then_busy (Some "no space left on device"))
                             (S (clock w1)) (delivery_request w1 Scenario.record0))
    = "server_error, status 503".
Proof.
  do 3 eexists.
  split; [vm_compute; reflexivity|].
  split; [vm_compute; reflexivity|].
  split; [eapply walks_cons; [vm_compute; reflexivity|apply walks_nil]|].
  split; vm_compute; reflexivity.
Qed.

(** ** Entries that do not decode *)

Section Undecodable.

Variable E : Env.

Lemma ProcessPebble_keeps_undecodable (w : World) (db : Pebble.DB) (k v : string) (e : error) :
  store w = Some db ->
  SMap.sorted db ->
  In (k, v) db ->
  snd (LogRecordJson.Unmarshal v) = Some e ->
  exists w' r db',
    ProcessPebble E w = Some (w', r) /\
    store w' = Some db' /\ SMap.sorted db' /\ In (k, v) db'.
Proof.
  intros Hdb Hsorted Hin Hdec.
  rewrite (ProcessPebble_eq E w db Hdb).
  destruct (scan E db w _) as [w1 p] eqn:Hscan.
  pose proof (scan_frame E _ _ _ _ _ Hscan) as [Hst _].
  assert (Hout : ~ In k (keys p)).
  { intros Hk. destruct (scan_keys E _ _ _ _ _ Hscan k Hk) as [[]|(v' & Hin' & Hd)].
    rewrite (sorted_In_unique db k v v' Hsorted Hin Hin') in Hdec. congruence. }
  assert (Hst1 : store w1 = Some db) by (rewrite Hst; exact Hdb).
  destruct (0 <? List.length (keys p))%nat.
  - destruct (deleteKeysBatch E db (keys p) (clock w1)) as [[db' t] [err|]] eqn:Hdel.
    + apply deleteKeysBatch_err in Hdel. subst db'.
      do 3 eexists. split; [reflexivity|]. split; [exact Hst1|]. auto.
    + apply deleteKeysBatch_ok in Hdel. subst db'.
      do 3 eexists. split; [reflexivity|]. split; [reflexivity|].
      split; [apply sorted_apply; exact Hsorted|].
      apply In_apply_out; assumption.
  - do 3 eexists. split; [reflexivity|]. split; [exact Hst1|]. auto.
Qed.

(** C9: an entry of the store whose value does not decode as a
    [logRecord] is passed over by the loop of the pass: no request is
    posted for it and the marked keys stay as they were (the loop
    goes on to the next entry when the context is not cancelled);
    after any number of passes the entry is still in the store, and
    [PebbleIsEmpty] reports the store as not empty. *)
Theorem undecodable_entry_stays (w : World) (db : Pebble.DB) (k v : string) (e : error) :
  store w = Some db ->
  SMap.sorted db ->
  In (k, v) db ->
  snd (LogRecordJson.Unmarshal v) = Some e ->
  (forall w1 p,
      exists w1' fl,
        visit E (k, v) w1 p = (w1', p, fl) /\
        sent w1' = sent w1 /\
        (ctxErr E (clock w1) = false ->
         fl = Next /\
         stdout w1' = stdout w1 ++ [{| event := "pebble_read_error";
                                       fields := [("error", JStr e)] |}])) /\
  (forall n,
      exists w' db',
        replays E n w = Some w' /\
        store w' = Some db' /\
        In (k, v) db' /\
        PebbleIsEmpty (store w') = false).
Proof.
  intros Hdb Hsorted Hin Hdec. split.
  - intros w1 p. unfold visit. destruct (ctxErr E (clock w1)).
    + do 2 eexists. split; [reflexivity|]. split; [reflexivity|]. discriminate.
    + cbn [snd]. destruct (LogRecordJson.Unmarshal v) as [rec [err|]]; [|discriminate].
      cbn in Hdec. inversion Hdec; subst err.
      do 2 eexists. split; [reflexivity|]. split; [reflexivity|]. auto.
  - intros n. revert w db Hdb Hsorted Hin.
    induction n as [|n IH]; intros w db Hdb Hsorted Hin.
    + exists w, db. split; [reflexivity|]. split; [exact Hdb|]. split; [exact Hin|].
      rewrite Hdb. destruct db; [destruct Hin|reflexivity].
    + destruct (ProcessPebble_keeps_undecodable w db k v e Hdb Hsorted Hin Hdec)
        as (w1 & r & db1 & Hpp & Hst & Hs1 & Hin1).
      cbn [replays]. rewrite Hpp. apply (IH w1 db1); assumption.
Qed.

End Undecodable.

Lemma undecodable_entry_stays_witness :
  store (Scenario.agent [("1700000000000000001_7", "not a record")])
  = Some [("1700000000000000001_7", "not a record")] /\
  SMap.sorted [("1700000000000000001_7", "not a record")] /\
  In ("1700000000000000001_7", "not a record") [("1700000000000000001_7", "not a record")] /\
  snd (LogRecordJson.Unmarshal "not a record") = Some syntax_error /\
  exists w' db',
    replays (Scenario.always 200) 2 (Scenario.agent [("1700000000000000001_7", "not a record")])
    = Some w' /\
    store w' = Some db' /\
    In ("1700000000000000001_7", "not a record") db' /\
    PebbleIsEmpty (store w') = false.
Proof.
  assert (Hs : @SMap.sorted string [("1700000000000000001_7", "not a record")])
    by (unfold SMap.sorted; cbn; auto).
  split; [reflexivity|]. split; [exact Hs|]. split; [left; reflexivity|].
  split; [vm_compute; reflexivity|].
  apply (undecodable_entry_stays (Scenario.always 200)
           (Scenario.agent [("1700000000000000001_7", "not a record")])
           [("1700000000000000001_7", "not a record")]
           "1700000000000000001_7" "not a record" syntax_error
           eq_refl Hs (or_introl eq_refl) ltac:(vm_compute; reflexivity)).
Defined.
(** * Further properties *)

Import Numerals Replay Loop LogText Shutdown.

(** ** The keys of the store (tools/pebble.go, [SendLog]) *)

Section KeyFacts.

Lemma numeral_uint (d : Decimal.uint) : numeral (NilEmpty.string_of_uint d) = true.
Proof. induction d; cbn; auto. Qed.

Lemma numeral_decimal (z : Z) : numeral (Text.decimal z) = true.
Proof.
  unfold Text.decimal. destruct (Z.to_int z) as [d|d]; cbn;
    destruct d; cbn; auto using numeral_uint.
Qed.

Lemma decimal_inj (a b : Z) : Text.decimal a = Text.decimal b -> a = b.
Proof.
  unfold Text.decimal. intros H. apply DecimalZ.to_int_inj.
  assert (Hn : forall z, Z.to_int z <> Decimal.Pos Decimal.Nil /\
                         Z.to_int z <> Decimal.Neg Decimal.Nil).
  { intros [|p|p]; cbn; split; try discriminate;
      intros Hp; injection Hp as Hp; exact (DecimalPos.Unsigned.to_uint_nonnil p Hp). }
  apply (f_equal NilZero.int_of_string) in H.
  rewrite !NilZero.isi in H by apply Hn.
  congruence.
Qed.

Lemma split_at_underscore (a a' b b' : string) :
  numeral a = true -> numeral a' = true ->
  (a ++ String "_" b = a' ++ String "_" b')%string -> a = a' /\ b = b'.
Proof.
  revert a'. induction a as [|c a IH]; intros [|c' a'] Ha Ha' H; cbn in *.
  - injection H as H. auto.
  - injection H as Hc _. subst c'. discriminate Ha'.
  - injection H as Hc _. subst c. discriminate Ha.
  - injection H as Hc H. subst c'.
    apply andb_prop in Ha as [_ Ha]. apply andb_prop in Ha' as [_ Ha'].
    destruct (IH a' Ha Ha' H) as [-> ->]. auto.
Qed.

Lemma make_key_inj (t r t' r' : Z) :
  make_key t r = make_key t' r' -> t = t' /\ r = r'.
Proof.
  unfold make_key. intros H.
  apply split_at_underscore in H; try apply numeral_decimal.
  destruct H as [H1 H2]. split; apply decimal_inj; assumption.
Qed.

End KeyFacts.

Section NumeralOrder.

Local Open Scope N_scope.

Lemma pow10_S (n : nat) : pow10 (S n) = 10 * pow10 n.
Proof. reflexivity. Qed.

Lemma pow10_pos (n : nat) : 0 < pow10 n.
Proof. induction n; cbn [pow10]; lia. Qed.

Lemma uint_value_acc (d : Decimal.uint) :
  forall acc, uint_value d acc = acc * pow10 (Decimal.nb_digits d) + uint_value d 0 /\
              uint_value d 0 < pow10 (Decimal.nb_digits d).
Proof.
  induction d; intros acc; cbn [uint_value Decimal.nb_digits];
    try (rewrite pow10_S;
         match goal with
         | |- context [uint_value d (?k + 10 * acc)] =>
             destruct (IHd (k + 10 * acc)) as [-> Hlt]; destruct (IHd (k + 10 * 0)) as [-> _]
         | |- context [uint_value d (10 * acc)] =>
             destruct (IHd (10 * acc)) as [-> Hlt]; destruct (IHd (10 * 0)) as [-> _]
         end; pose proof (pow10_pos (Decimal.nb_digits d)); split; lia).
  cbn. lia.
Qed.

Lemma of_uint_acc_value (d : Decimal.uint) :
  forall acc, N.pos (Pos.of_uint_acc d acc) = uint_value d (N.pos acc).
Proof. induction d; intros acc; cbn [Pos.of_uint_acc uint_value]; try rewrite IHd; reflexivity. Qed.

Lemma of_uint_value (d : Decimal.uint) : Pos.of_uint d = uint_value d 0.
Proof.
  induction d; cbn [Pos.of_uint uint_value]; try (rewrite of_uint_acc_value; reflexivity);
    [reflexivity | exact IHd].
Qed.

Lemma to_uint_value (p : positive) : uint_value (Pos.to_uint p) 0 = N.pos p.
Proof. rewrite <- of_uint_value. apply DecimalPos.Unsigned.of_to. Qed.

End NumeralOrder.

Section NumeralCompare.

Local Open Scope N_scope.

Lemma numeral_compare (d : Decimal.uint) :
  forall (d' : Decimal.uint) (s s' : string),
    Decimal.nb_digits d = Decimal.nb_digits d' ->
    uint_value d 0 < uint_value d' 0 ->
    String.compare (NilEmpty.string_of_uint d ++ s) (NilEmpty.string_of_uint d' ++ s') = Lt.
Proof.
  induction d; intros d' s s' Hn Hv; destruct d';
    cbn [Decimal.nb_digits] in Hn; try discriminate Hn;
    cbn [uint_value] in Hv; try (exfalso; lia);
    injection Hn as Hn;
    pose proof (proj2 (uint_value_acc d 0)) as L1;
    pose proof (proj2 (uint_value_acc d' 0)) as L2;
    digit_values uint_value_acc d d'; rewrite <- Hn in *;
    cbn [NilEmpty.string_of_uint append String.compare];
    first [ exfalso; lia
          | reflexivity
          | apply IHd; [assumption | lia] ].
Qed.

End NumeralCompare.

Section KeyOrderInTime.

Local Open Scope N_scope.

Lemma to_uint_head (p : positive) : head_nonzero (Pos.to_uint p) = true.
Proof.
  pose proof (DecimalPos.Unsigned.to_of (Pos.to_uint p)) as H.
  rewrite DecimalPos.Unsigned.of_to in H. cbn [N.to_uint] in H.
  pose proof (DecimalPos.Unsigned.to_uint_nonnil p) as Hnil.
  pose proof (DecimalPos.Unsigned.to_uint_nonzero p) as Hz.
  destruct (Pos.to_uint p) as [|d1| | | | | | | | |]; try reflexivity.
  - contradiction.
  - exfalso. destruct d1 as [|d2| | | | | | | | |]; try contradiction;
      match type of H with
      | _ = Decimal.unorm (Decimal.D0 ?u) =>
          assert (Hu : u <> Decimal.Nil) by discriminate;
          pose proof (DecimalFacts.nb_digits_unorm u Hu) as Hle;
          change (Decimal.unorm (Decimal.D0 u)) with (Decimal.unorm u) in H;
          rewrite <- H in Hle; cbn [Decimal.nb_digits] in Hle
      end; apply (Nat.nle_succ_diag_l _ Hle).
Qed.

Lemma head_nonzero_value (d : Decimal.uint) :
  head_nonzero d = true -> pow10 (Nat.pred (Decimal.nb_digits d)) <= uint_value d 0.
Proof.
  destruct d; cbn [head_nonzero]; try discriminate; intros _;
    cbn [uint_value Decimal.nb_digits Nat.pred];
    match goal with
    | |- context [uint_value d (?k + 10 * 0)] =>
        rewrite (proj1 (uint_value_acc d (k + 10 * 0)))
    end; lia.
Qed.

Lemma pow10_mono (n m : nat) : (n <= m)%nat -> pow10 n <= pow10 m.
Proof.
  induction 1 as [|m _ IH]; [lia|]. cbn [pow10]. pose proof (pow10_pos m). lia.
Qed.

(** A positive number with [n] digits... *)
Lemma nb_digits_range (p : positive) (n : nat) :
  pow10 n <= N.pos p -> N.pos p < pow10 (S n) ->
  Decimal.nb_digits (Pos.to_uint p) = S n.
Proof.
  intros Hlo Hhi.
  pose proof (proj2 (uint_value_acc (Pos.to_uint p) 0)) as Hlt.
  pose proof (head_nonzero_value _ (to_uint_head p)) as Hge.
  rewrite to_uint_value in *.
  destruct (Nat.lt_trichotomy (Decimal.nb_digits (Pos.to_uint p)) (S n)) as [H|[H|H]].
  - pose proof (pow10_mono (Decimal.nb_digits (Pos.to_uint p)) n ltac:(lia)). lia.
  - exact H.
  - pose proof (pow10_mono (S n) (Nat.pred (Decimal.nb_digits (Pos.to_uint p))) ltac:(lia)). lia.
Qed.

Lemma decimal_pos (p : positive) :
  Text.decimal (Z.pos p) = NilEmpty.string_of_uint (Pos.to_uint p).
Proof.
  unfold Text.decimal. cbn [Z.to_int NilZero.string_of_int NilZero.string_of_uint].
  pose proof (DecimalPos.Unsigned.to_uint_nonnil p). destruct (Pos.to_uint p); try reflexivity. contradiction.
Qed.

(** X3: two keys whose clock readings have the same number of digits
    (all readings from 10^18, in 2001, up to the largest int64 have
    nineteen) stand in the store in the order of the readings,
    whatever the draws: the pass, which walks the store in key order,
    visits the record received earlier first. *)
Theorem make_key_time_order (t t' r r' : Z) (n : nat) :
  (Z.of_N (pow10 n) <= t)%Z -> (t < t')%Z -> (t' < Z.of_N (pow10 (S n)))%Z ->
  SMap.key_lt (make_key t r) (make_key t' r').
Proof.
  intros Hlo Hlt Hhi. pose proof (pow10_pos n) as Hp.
  destruct t as [|p|p]; try lia. destruct t' as [|p'|p']; try lia.
  unfold SMap.key_lt, make_key. rewrite !decimal_pos.
  apply numeral_compare.
  - rewrite (nb_digits_range p n), (nb_digits_range p' n); try reflexivity; lia.
  - rewrite !to_uint_value. lia.
Qed.

End KeyOrderInTime.

Lemma make_key_time_order_witness :
  (Z.of_N (pow10 18) <= 1700000000000000000)%Z /\
  (1700000000000000000 < 1700000000000000001)%Z /\
  (1700000000000000001 < Z.of_N (pow10 19))%Z /\
  SMap.key_lt (make_key 1700000000000000000 999) (make_key 1700000000000000001 0).
Proof.
  assert (H1 : (Z.of_N (pow10 18) <= 1700000000000000000)%Z) by (vm_compute; discriminate).
  assert (H2 : (1700000000000000000 < 1700000000000000001)%Z) by reflexivity.
  assert (H3 : (1700000000000000001 < Z.of_N (pow10 19))%Z) by reflexivity.
  split; [exact H1|]. split; [exact H2|]. split; [exact H3|].
  exact (make_key_time_order 1700000000000000000 1700000000000000001 999 0 18 H1 H2 H3).
Defined.

(** ** The numbers the agent prints *)

Section NumberLiterals.

Lemma drop_digits_uint (d : Decimal.uint) :
  drop_digits (NilEmpty.string_of_uint d) = EmptyString.
Proof. induction d; cbn; auto. Qed.

Lemma valid_number_uint (d : Decimal.uint) :
  head_nonzero d = true -> valid_number (NilEmpty.string_of_uint d) = true.
Proof.
  destruct d; cbn [head_nonzero]; try discriminate; intros _;
    cbn [NilEmpty.string_of_uint]; unfold valid_number;
    match goal with
    | |- context [String ?c (NilEmpty.string_of_uint ?d)] =>
        change ((c =? "-")%char) with false; cbv iota;
        change (Text.is_digit c) with true;
        change ((c =? "0")%char) with false; cbv iota
    end; rewrite drop_digits_uint; reflexivity.
Qed.

(** [%d] prints a number literal of JSON. *)
Lemma valid_number_decimal (z : Z) : valid_number (Text.decimal z) = true.
Proof.
  destruct z as [|p|p]; [reflexivity| |].
  - rewrite decimal_pos. apply valid_number_uint. apply to_uint_head.
  - unfold Text.decimal. cbn [Z.to_int NilZero.string_of_int NilZero.string_of_uint].
    pose proof (to_uint_head p) as Hh. pose proof (valid_number_uint _ Hh) as Hv.
    destruct (Pos.to_uint p) eqn:Hd; try discriminate Hh; exact Hv.
Qed.

End NumberLiterals.

(** ** What an enqueue does to the store (tools/pebble.go, [SendLog]) *)

Section EnqueueFacts.

Variable E : Env.

Lemma SendLog_frame (req : LogRequest) (w w' : World) (db : Pebble.DB) (resp : LogResponse) :
  store w = Some db ->
  SendLog E req w = Some (w', resp) ->
  sent w' = sent w /\ fs w' = fs w /\ files (config w') = files (config w) /\
  clock w' = (4 + clock w)%nat /\
  (resp = stored /\ setFault E (3 + clock w) = None /\
   store w' = Some (SMap.insert (enqueue_key E w)
                      (encode (LogRecordJson.to_json (enqueued_record E req w))) db) /\
   stdout w' = stdout w ++ [{| event := "log_stored";
                               fields := [("key", JStr (enqueue_key E w))] |}]
   \/
   resp = write_failed /\ store w' = Some db /\
   exists err, setFault E (3 + clock w) = Some err /\
               stdout w' = stdout w ++ [{| event := "pebble_write_error";
                                           fields := [("error", JStr err)] |}]).
Proof.
  intros Hdb H. rewrite (SendLog_eq E req w db Hdb) in H. cbv zeta in H.
  destruct (setFault E (3 + clock w)) as [err|]; injection H as <- <-.
  - repeat split. right. repeat split; [exact Hdb|]. exists err. split; reflexivity.
  - repeat split. left. repeat split.
Qed.

(** X1: [SendLog] on an open store in key order leaves a store in key
    order in which every other key holds what it held; when it answers
    success the key it chose holds the marshalled record, and when it
    answers failure the store is as it was. It posts nothing and
    writes to neither outcome log. *)
Theorem SendLog_writes_one_key (req : LogRequest) (w w' : World) (db : Pebble.DB)
        (resp : LogResponse) :
  store w = Some db ->
  SMap.sorted db ->
  SendLog E req w = Some (w', resp) ->
  exists db',
    store w' = Some db' /\
    SMap.sorted db' /\
    (forall k, k <> enqueue_key E w -> SMap.lookup k db' = SMap.lookup k db) /\
    (Success resp = true ->
     SMap.lookup (enqueue_key E w) db'
     = Some (encode (LogRecordJson.to_json (enqueued_record E req w)))) /\
    (Success resp = false -> db' = db) /\
    sent w' = sent w /\
    successLines w' = successLines w /\
    failureLines w' = failureLines w.
Proof.
  intros Hdb Hsorted H.
  destruct (SendLog_frame req w w' db resp Hdb H) as (H1 & H2 & H3 & _ & Hcase).
  unfold successLines, failureLines. rewrite H3.
  destruct Hcase as [(-> & _ & Hst & _)|(-> & Hst & _)].
  - eexists. split; [exact Hst|]. split; [apply sorted_insert; exact Hsorted|].
    split; [intros k Hk; apply lookup_insert_other; congruence|].
    split; [intros _; apply lookup_insert_same|].
    split; [discriminate|auto].
  - exists db. split; [exact Hst|]. split; [exact Hsorted|].
    split; [reflexivity|]. split; [discriminate|auto].
Qed.

(** X2: the keys of two successive stored enqueues are equal exactly
    when both the clock reading and the random draw are; when they
    differ, both records are in the store after the second enqueue. *)
Theorem SendLog_distinct_keys (req1 req2 : LogRequest) (w w1 w2 : World) (db : Pebble.DB) :
  store w = Some db ->
  SendLog E req1 w = Some (w1, stored) ->
  SendLog E req2 w1 = Some (w2, stored) ->
  (enqueue_key E w = enqueue_key E w1 <->
   UnixNano (timeNow E (S (clock w))) = UnixNano (timeNow E (S (clock w1))) /\
   randIntn E (S (S (clock w))) = randIntn E (S (S (clock w1)))) /\
  (enqueue_key E w <> enqueue_key E w1 ->
   exists db2,
     store w2 = Some db2 /\
     SMap.lookup (enqueue_key E w) db2
     = Some (encode (LogRecordJson.to_json (enqueued_record E req1 w))) /\
     SMap.lookup (enqueue_key E w1) db2
     = Some (encode (LogRecordJson.to_json (enqueued_record E req2 w1)))).
Proof.
  intros Hdb H1 H2. split.
  - unfold enqueue_key. split.
    + apply make_key_inj.
    + intros [-> ->]. reflexivity.
  - intros Hne.
    destruct (SendLog_frame req1 w w1 db stored Hdb H1) as (_ & _ & _ & _ & Hcase1).
    destruct Hcase1 as [(_ & _ & Hst1 & _)|(Hbad & _)]; [|discriminate Hbad].
    destruct (SendLog_frame req2 w1 w2 _ stored Hst1 H2) as (_ & _ & _ & _ & Hcase2).
    destruct Hcase2 as [(_ & _ & Hst2 & _)|(Hbad & _)]; [|discriminate Hbad].
    eexists. split; [exact Hst2|]. split.
    + rewrite lookup_insert_other by congruence. apply lookup_insert_same.
    + apply lookup_insert_same.
Qed.

End EnqueueFacts.

Lemma SendLog_writes_one_key_witness :
  let w := Scenario.agent Scenario.storeABC in
  let w' := Cases.after_SendLog Cases.ticking Scenario.requestA w in
  store w = Some Scenario.storeABC /\
  SMap.sorted Scenario.storeABC /\
  SendLog Cases.ticking Scenario.requestA w = Some (w', stored) /\
  exists db',
    store w' = Some db' /\
    SMap.lookup "1700000000000000001_7" db' = Some Scenario.value0 /\
    SMap.lookup (enqueue_key Cases.ticking w) db'
    = Some (encode (LogRecordJson.to_json (enqueued_record Cases.ticking Scenario.requestA w))).
Proof.
  cbv zeta.
  assert (H1 : store (Scenario.agent Scenario.storeABC) = Some Scenario.storeABC) by reflexivity.
  assert (H2 : SMap.sorted Scenario.storeABC) by exact storeABC_sorted.
  assert (H3 : SendLog Cases.ticking Scenario.requestA (Scenario.agent Scenario.storeABC)
               = Some (Cases.after_SendLog Cases.ticking Scenario.requestA
                         (Scenario.agent Scenario.storeABC), stored)) by (vm_compute; reflexivity).
  split; [exact H1|]. split; [exact H2|]. split; [exact H3|].
  destruct (SendLog_writes_one_key Cases.ticking _ _ _ _ _ H1 H2 H3)
    as (db' & G1 & _ & G3 & G4 & _).
  exists db'. split; [exact G1|]. split.
  - rewrite G3; [reflexivity|]. intros Heq. vm_compute in Heq. discriminate Heq.
  - apply G4. reflexivity.
Defined.

Lemma SendLog_distinct_keys_witness :
  let E := Cases.ticking in
  let w := Scenario.agent [] in
  let w1 := Cases.after_SendLog E Scenario.requestA w in
  let w2 := Cases.after_SendLog E Scenario.requestB w1 in
  store w = Some [] /\
  SendLog E Scenario.requestA w = Some (w1, stored) /\
  SendLog E Scenario.requestB w1 = Some (w2, stored) /\
  enqueue_key E w <> enqueue_key E w1 /\
  exists db2,
    store w2 = Some db2 /\
    SMap.lookup (enqueue_key E w) db2
    = Some (encode (LogRecordJson.to_json (enqueued_record E Scenario.requestA w))) /\
    SMap.lookup (enqueue_key E w1) db2
    = Some (encode (LogRecordJson.to_json (enqueued_record E Scenario.requestB w1))).
Proof.
  cbv zeta.
  set (E := Cases.ticking). set (w := Scenario.agent []).
  set (w1 := Cases.after_SendLog E Scenario.requestA w).
  set (w2 := Cases.after_SendLog E Scenario.requestB w1).
  assert (H1 : store w = Some []) by reflexivity.
  assert (H2 : SendLog E Scenario.requestA w = Some (w1, stored)) by (vm_compute; reflexivity).
  assert (H3 : SendLog E Scenario.requestB w1 = Some (w2, stored)) by (vm_compute; reflexivity).
  assert (Hne : enqueue_key E w <> enqueue_key E w1)
    by (intros Heq; vm_compute in Heq; discriminate Heq).
  split; [exact H1|]. split; [exact H2|]. split; [exact H3|]. split; [exact Hne|].
  exact (proj2 (SendLog_distinct_keys E _ _ w w1 w2 [] H1 H2 H3) Hne).
Defined.

(** ** The test client (internal/client/main.go) *)

Section ClientFacts.

Local Open Scope string_scope.

Lemma escape_numeral (s : string) : numeral s = true -> escape s = s.
Proof.
  induction s as [|c r IH]; cbn [numeral escape]; [reflexivity|].
  intros H. apply andb_prop in H as [Hc Hr]. rewrite (IH Hr).
  assert (Hone : escape_char c = String c EmptyString).
  { revert Hc. each_char c; cbn; intros H; try discriminate H; reflexivity. }
  rewrite Hone. reflexivity.
Qed.

Lemma escape_app (a b : string) : escape (a ++ b) = escape a ++ escape b.
Proof.
  induction a as [|c a IH]; cbn [append escape]; [reflexivity|].
  rewrite IH, append_assoc. reflexivity.
Qed.

Lemma jsonPayload_encode (i : Z) :
  Client.jsonPayload i
  = encode (JObj [("msg", JStr ("log message " ++ Text.decimal i)); ("level", JStr "INFO")]).
Proof.
  unfold Client.jsonPayload, Client.q. cbn [encode].
  unfold quote. rewrite escape_app, (escape_numeral _ (numeral_decimal i)).
  cbn. rewrite ?append_assoc. reflexivity.
Qed.

Variable E : Env.

(** X5: for every index, the payload the test client builds decodes
    at the agent without error, so nothing is substituted for it:
    the record enqueued has the two members of the text as its payload
    and the pipeline of the client, and the bytes stored for it decode
    back to that record. *)
Theorem client_request_kept (i : Z) (w w' : World) (db : Pebble.DB) :
  store w = Some db ->
  SendLog E (Client.request i) w = Some (w', stored) ->
  let rec := {| Payload := Some (Client.payload i);
                Pipelines := Some ["test-pipeline"];
                ReceivedAt := RFC3339Nano (timeNow E (clock w)) |} in
  snd (Unmarshal_map (JsonData (Client.request i))) = None /\
  enqueued_record E (Client.request i) w = rec /\
  exists data,
    store w' = Some (SMap.insert (enqueue_key E w) data db) /\
    LogRecordJson.Unmarshal data = (rec, None).
Proof.
  intros Hdb Hsend. cbv zeta.
  assert (Hparse : Unmarshal_map (Client.jsonPayload i) = (Some (Client.payload i), None)).
  { unfold Unmarshal_map. rewrite jsonPayload_encode, parse_encode.
    - reflexivity.
    - apply lit_obj. repeat constructor.
    - cbn. unfold maxNestingDepth. lia. }
  assert (Hrec : enqueued_record E (Client.request i) w
                 = {| Payload := Some (Client.payload i);
                      Pipelines := Some ["test-pipeline"];
                      ReceivedAt := RFC3339Nano (timeNow E (clock w)) |}).
  { unfold enqueued_record, kept_payload. cbn [Client.request JsonData reqPipelines].
    rewrite Hparse. reflexivity. }
  split; [cbn [Client.request JsonData]; rewrite Hparse; reflexivity|].
  split; [exact Hrec|].
  destruct (SendLog_frame E _ w w' db stored Hdb Hsend) as (_ & _ & _ & _ & Hcase).
  destruct Hcase as [(_ & _ & Hst & _)|(Hbad & _)]; [|discriminate Hbad].
  eexists. split; [exact Hst|].
  rewrite Hrec. apply (Unmarshal_Marshal _).
  - cbn [Payload go_map]. constructor.
    + cbn. repeat split; repeat constructor.
    + repeat constructor.
  - cbn [Payload gomap_nesting Client.payload nesting map snd list_max fold_right Nat.max].
    unfold maxNestingDepth. lia.
Qed.

End ClientFacts.

Lemma client_request_kept_witness :
  let E := Scenario.always 200 in
  let w := Scenario.agent [] in
  let w' := Cases.after_SendLog E (Client.request 0) w in
  store w = Some [] /\
  SendLog E (Client.request 0) w = Some (w', stored) /\
  enqueued_record E (Client.request 0) w
  = {| Payload := Some [("level", JStr "INFO"); ("msg", JStr "log message 0")];
       Pipelines := Some ["test-pipeline"];
       ReceivedAt := "2023-11-14T22:13:20Z" |}.
Proof.
  cbv zeta.
  assert (H1 : store (Scenario.agent []) = Some []) by reflexivity.
  assert (H2 : SendLog (Scenario.always 200) (Client.request 0) (Scenario.agent [])
               = Some (Cases.after_SendLog (Scenario.always 200) (Client.request 0)
                         (Scenario.agent []), stored)) by (vm_compute; reflexivity).
  split; [exact H1|]. split; [exact H2|].
  exact (proj1 (proj2 (client_request_kept (Scenario.always 200) 0 _ _ [] H1 H2))).
Defined.

(** ** What goes on the wire and into the outcome logs (tools/client.go) *)

Section DecodedRecords.

Local Open Scope nat_scope.







End DecodedRecords.

Section OnTheWire.

Variable E : Env.


Lemma parse_line (v : json) :
  lit_ok v -> nesting v <= maxNestingDepth -> parse (encode v ++ newline) = Some v.
Proof.
  intros Hlit Hn. unfold parse.
  pose proof (parse_value_encode v Hlit (S (String.length (encode v ++ newline)))
                maxNestingDepth newline) as H.
  rewrite H.
  - apply Nat.leb_le in Hn. rewrite Hn. reflexivity.
  - rewrite length_append. apply Nat.lt_succ_r, Nat.le_add_r.
  - reflexivity.
Qed.

(** X7: the line [logToFile] writes to the success log and the line
    it writes to the failure log are each a JSON document, the
    newline included, that holds the record under [log_data] and the
    extras under [context], provided the payload nests at least two
    levels less deep than the scanner allows. *)
Theorem outcome_lines_parse (rec : logRecord) (resp : Response) :
  go_map (Payload rec) ->
  gomap_nesting (Payload rec) + 2 <= maxNestingDepth ->
  parse (success_line rec)
  = Some (JObj [("context", JObj []); ("log_data", LogRecordJson.to_json rec)]) /\
  parse (failure_line rec resp)
  = Some (JObj [("context", JObj [("response", JStr (Body resp));
                                  ("responseCode", JNum (Text.decimal (StatusCode resp)))]);
                ("log_data", LogRecordJson.to_json rec)]).
Proof.
  intros Hgo Hn.
  pose proof (to_json_lit_ok rec Hgo) as Hlit.
  assert (Hdeep : nesting (LogRecordJson.to_json rec) < maxNestingDepth).
  { unfold LogRecordJson.to_json.
    change (nesting (JObj ?l)) with (S (list_max (map (fun kv => nesting (snd kv)) l))).
    unfold list_max. cbn [map snd fold_right nesting].
    pose proof (nesting_of_strings (Pipelines rec)) as Hs.
    assert (Hpay : nesting (of_gomap (Payload rec)) = gomap_nesting (Payload rec))
      by (destruct (Payload rec); reflexivity).
    assert (H3 : 3 <= maxNestingDepth) by (apply Nat.leb_le; vm_compute; reflexivity).
    rewrite Hpay. lia. }
  unfold success_line, failure_line. split; apply parse_line.
  - apply lit_obj. constructor; [apply lit_obj; constructor|].
    constructor; [exact Hlit|constructor].
  - change (nesting (JObj ?l)) with (S (list_max (map (fun kv => nesting (snd kv)) l))).
    unfold list_max. cbn [map snd fold_right]. cbn [nesting list_max map fold_right]. lia.
  - apply lit_obj. constructor.
    + cbn [snd]. apply lit_obj. constructor; [constructor|].
      constructor; [apply lit_num, valid_number_decimal|constructor].
    + constructor; [exact Hlit|constructor].
  - change (nesting (JObj ?l)) with (S (list_max (map (fun kv => nesting (snd kv)) l))).
    unfold list_max. cbn [map snd fold_right].
    change (nesting (JObj [("response", JStr (Body resp));
                           ("responseCode", JNum (Text.decimal (StatusCode resp)))]))
      with 1. lia.
Qed.

End OnTheWire.

Lemma outcome_lines_parse_witness :
  go_map (Payload Scenario.record0) /\
  gomap_nesting (Payload Scenario.record0) + 2 <= maxNestingDepth /\
  parse (failure_line Scenario.record0 {| StatusCode := 404; Body := "answer" |})
  = Some (JObj [("context", JObj [("response", JStr "answer");
                                  ("responseCode", JNum "404")]);
                ("log_data", LogRecordJson.to_json Scenario.record0)]).
Proof.
  assert (H1 : go_map (Payload Scenario.record0)).
  { cbn. constructor; [cbn; auto|repeat constructor]. }
  assert (H2 : gomap_nesting (Payload Scenario.record0) + 2 <= maxNestingDepth)
    by (apply Nat.leb_le; vm_compute; reflexivity).
  split; [exact H1|]. split; [exact H2|].
  exact (proj2 (outcome_lines_parse Scenario.record0 {| StatusCode := 404; Body := "answer" |}
                  H1 H2)).
Defined.

(** ** The replay pass, whatever the environment answers
       (tools/pebble.go, [ProcessPebble]) *)

Section VisitCases.

Local Open Scope Z_scope.

Variable E : Env.

Lemma delivery_request_config (w w1 : World) (rec : logRecord) :
  ServerHost (config w1) = ServerHost (config w) ->
  ApiKey (config w1) = ApiKey (config w) ->
  delivery_request w1 rec = delivery_request w rec.
Proof. unfold delivery_request. intros -> ->. reflexivity. Qed.

Lemma logToFile_endpoint rec b ex w :
  ServerHost (config (logToFile rec b ex w)) = ServerHost (config w) /\
  ApiKey (config (logToFile rec b ex w)) = ApiKey (config w) /\
  fs (logToFile rec b ex w) = fs w /\
  slept (logToFile rec b ex w) = slept w /\
  AcceptingFlag (files (config (logToFile rec b ex w))) = AcceptingFlag (files (config w)) /\
  acceptingFlagPath (files (config (logToFile rec b ex w)))
  = acceptingFlagPath (files (config w)).
Proof.
  unfold logToFile.
  destruct (b && is_open (successLog (files (config w)))); [cbn; auto 6|].
  destruct (negb b && is_open (failureLog (files (config w)))); cbn; auto 6.
Qed.

Lemma same_agent_refl w : same_agent w w.
Proof. repeat split. Qed.

Lemma same_agent_trans w1 w2 w3 : same_agent w1 w2 -> same_agent w2 w3 -> same_agent w1 w3.
Proof.
  unfold same_agent. intros (a1&a2&a3&a4&a5&a6&a7) (b1&b2&b3&b4&b5&b6&b7).
  repeat split; congruence.
Qed.

Lemma sendToServer_same_agent rec w : same_agent w (fst (sendToServer E rec w)).
Proof.
  rewrite sendToServer_eq. cbv zeta.
  destruct (httpPost E (clock w) (delivery_request w rec)) as [resp|err].
  - destruct (_ && _).
    + cbn [fst].
      destruct (logToFile_endpoint rec true [] (fst (post E (delivery_request w rec) w)))
        as (H1 & H2 & H3 & H4 & H5 & H6).
      destruct (logToFile_frame rec true [] (fst (post E (delivery_request w rec) w)))
        as (H7 & _).
      unfold same_agent. rewrite H1, H2, H3, H4, H5, H6, H7. repeat split.
    + destruct (_ && _).
      * cbn [fst].
        destruct (logToFile_endpoint rec false
                    [("response", JStr (Body resp)); ("responseCode", JInt (StatusCode resp))]
                    (fst (post E (delivery_request w rec) w)))
          as (H1 & H2 & H3 & H4 & H5 & H6).
        destruct (logToFile_frame rec false
                    [("response", JStr (Body resp)); ("responseCode", JInt (StatusCode resp))]
                    (fst (post E (delivery_request w rec) w))) as (H7 & _).
        unfold same_agent, store in *. cbn [LogJson config fs slept].
        rewrite H1, H2, H3, H4, H5, H6, H7. repeat split.
      * destruct (Z.gtb _ _); cbn; repeat split.
  - cbn. repeat split.
Qed.

(** The three ways through the body of the loop. *)
Lemma visit_cases (kv : string * string) (w w' : World) (p p' : Pass) (fl : Flow) :
  visit E kv w p = (w', p', fl) ->
  same_agent w w' /\
  ((ctxErr E (clock w) = true /\ sent w' = sent w /\ p' = p /\ fl = Break) \/
   (ctxErr E (clock w) = false /\ decodes (snd kv) = false /\
    sent w' = sent w /\ p' = p /\ fl = Next) \/
   (ctxErr E (clock w) = false /\ decodes (snd kv) = true /\
    sent w' = sent w ++ [(S (clock w), delivery_request w (record_of (snd kv)))] /\
    match httpPost E (S (clock w)) (delivery_request w (record_of (snd kv))) with
    | inl resp =>
        if StatusCode resp <=? 500 then p' = mark (fst kv) p /\ fl = Next
        else p' = failed (delivery_error (inl resp)) p /\ fl = Break
    | inr err => p' = failed err p /\ fl = Break
    end)).
Proof.
  unfold visit, decodes, record_of.
  destruct (ctxErr E (clock w)) eqn:Hc.
  - intros [= <- <- <-]. split; [repeat split|]. left. auto.
  - destruct (LogRecordJson.Unmarshal (snd kv)) as [rec [err|]] eqn:Hu; cbn [fst snd].
    + intros [= <- <- <-]. split; [repeat split|]. right. left. auto.
    + pose proof (sendToServer_same_agent rec (tick w)) as Hsame.
      pose proof (sendToServer_frame E rec (tick w)) as (_ & _ & Hsent).
      assert (Hrq : delivery_request (tick w) rec = delivery_request w rec) by reflexivity.
      rewrite Hrq in Hsent.
      rewrite sendToServer_eq in *. cbv zeta in *. rewrite Hrq in *.
      change (clock (tick w)) with (S (clock w)) in *.
      change (sent (tick w)) with (sent w) in *.
      destruct (httpPost E (S (clock w)) (delivery_request w rec)) as [resp|err'].
      * destruct ((200 <=? StatusCode resp) && (StatusCode resp <? 300)) eqn:H2;
          [|destruct ((300 <=? StatusCode resp) && (StatusCode resp <=? 500)) eqn:H3;
            [|destruct (StatusCode resp >? 500) eqn:H5]];
          cbn [fst] in Hsent;
          intros [= <- <- <-]; (split; [exact Hsame|]); right; right;
          (split; [reflexivity|]); (split; [reflexivity|]); (split; [exact Hsent|]);
          destruct (Z.leb_spec (StatusCode resp) 500); try (split; reflexivity); lia.
      * cbn [fst] in Hsent.
        intros [= <- <- <-]. split; [exact Hsame|]. right. right.
        split; [reflexivity|]. split; [reflexivity|]. split; [exact Hsent|]. split; reflexivity.
Qed.

End VisitCases.

Section ScanFacts.

Local Open Scope Z_scope.

Variable E : Env.

Lemma checked_le (t0 t1 : nat) (x : nat * Request) :
  (t0 <= t1)%nat -> checked E t1 x -> checked E t0 x.
Proof. intros Hle (t & H1 & H2 & H3). exists t. repeat split; [assumption|lia|assumption]. Qed.

Lemma scan_marks (iter : Pebble.Iterator) :
  forall (w w' : World) (p p' : Pass),
    scan E iter w p = (w', p') ->
    NoDup (map fst iter) ->
    same_agent w w' /\
    exists ks new,
      keys p' = keys p ++ ks /\
      count p' = count p + Z.of_nat (List.length ks) /\
      sent w' = sent w ++ new /\
      NoDup ks /\
      (forall k, In k ks ->
                 exists v t, In (k, v) iter /\ decodes v = true /\
                             In (t, delivery_request w (record_of v)) new /\
                             resolved E t (delivery_request w (record_of v))) /\
      (List.length new <= List.length iter)%nat /\
      Forall (checked E (clock w)) new.
Proof.
  induction iter as [|kv rest IH]; intros w w' p p' H Hnd; cbn [scan] in H.
  - injection H as <- <-. split; [apply same_agent_refl|].
    exists [], []. rewrite !app_nil_r. cbn. repeat split; try constructor; try lia;
      try contradiction.
  - cbn [map] in Hnd. apply NoDup_cons_iff in Hnd as [Hk Hnd].
    destruct (visit E kv w p) as [[w1 p1] fl] eqn:Hv.
    pose proof (visit_frame E kv w p w1 p1 fl Hv) as [_ Hclock].
    apply visit_cases in Hv. destruct Hv as [Hsame Hv].
    assert (Hrq : forall rec, delivery_request w1 rec = delivery_request w rec).
    { intros rec. destruct Hsame as (a1 & a2 & _). apply delivery_request_config; assumption. }
    assert (Htail : forall w2 p2,
               (fl = Next -> scan E rest w1 p1 = (w2, p2)) ->
               (fl = Break -> (w2, p2) = (w1, p1)) ->
               same_agent w1 w2 /\
               exists ks new,
                 keys p2 = keys p1 ++ ks /\
                 count p2 = count p1 + Z.of_nat (List.length ks) /\
                 sent w2 = sent w1 ++ new /\
                 NoDup ks /\
                 (forall k, In k ks ->
                            exists v t, In (k, v) rest /\ decodes v = true /\
                                        In (t, delivery_request w (record_of v)) new /\
                                        resolved E t (delivery_request w (record_of v))) /\
                 (List.length new <= List.length rest)%nat /\
                 Forall (checked E (clock w1)) new).
    { intros w2 p2 Hn Hb. destruct fl.
      - destruct (IH w1 w2 p1 p2 (Hn eq_refl) Hnd)
          as (Hs & ks & new & H1 & H2 & H3 & H4 & H5 & H6 & H7).
        split; [exact Hs|]. exists ks, new. repeat split; try assumption.
        intros k Hin. destruct (H5 k Hin) as (v & t & G1 & G2 & G3 & G4).
        exists v, t. rewrite !Hrq in G3, G4. repeat split; assumption.
      - injection (Hb eq_refl) as -> ->. split; [apply same_agent_refl|].
        exists [], []. rewrite !app_nil_r. cbn. repeat split; try constructor; try lia;
          try contradiction. }
    specialize (Htail w' p').
    destruct Htail as (Hs2 & ks & new & H1 & H2 & H3 & H4 & H5 & H6 & H7).
    { intros ->. exact H. }
    { intros ->. symmetry. exact H. }
    split; [exact (same_agent_trans _ _ _ Hsame Hs2)|].
    assert (Hkeep : forall k, In k ks ->
              forall pre, exists v t, In (k, v) (kv :: rest) /\ decodes v = true /\
                          In (t, delivery_request w (record_of v)) (pre ++ new) /\
                          resolved E t (delivery_request w (record_of v))).
    { intros k Hin pre. destruct (H5 k Hin) as (v & t & G1 & G2 & G3 & G4).
      exists v, t. repeat split; try assumption; [right; assumption|].
      apply in_or_app. right. assumption. }
    assert (Hchk : Forall (checked E (clock w)) new).
    { eapply Forall_impl; [|exact H7]. intros x. apply checked_le. lia. }
    destruct Hv as [(Hc & Hsent & -> & ->)|[(Hc & Hd & Hsent & -> & ->)|(Hc & Hd & Hsent & Hpost)]].
    + exists ks, new. rewrite H3, Hsent. repeat split; try assumption; [|cbn; lia].
      intros k Hin. exact (Hkeep k Hin []).
    + exists ks, new. rewrite H3, Hsent. repeat split; try assumption; [|cbn; lia].
      intros k Hin. exact (Hkeep k Hin []).
    + set (rq := delivery_request w (record_of (snd kv))) in *.
      assert (Hfirst : checked E (clock w) (S (clock w), rq)).
      { exists (clock w). repeat split; [lia|assumption]. }
      destruct (httpPost E (S (clock w)) rq) as [resp|err] eqn:Hp.
      * destruct (Z.leb_spec (StatusCode resp) 500) as [Hle|Hgt].
        -- destruct Hpost as [-> ->].
           exists (fst kv :: ks), ((S (clock w), rq) :: new).
           rewrite H1, H2, H3, Hsent. cbn [mark keys count List.length].
           rewrite <- !app_assoc. cbn [app].
           repeat split; try reflexivity.
           ++ lia.
           ++ constructor; [|assumption].
              intros Hin. destruct (H5 _ Hin) as (v & _ & G1 & _).
              apply Hk. apply (in_map fst) in G1. exact G1.
           ++ intros k [<-|Hin].
              ** exists (snd kv), (S (clock w)). destruct kv as [k v]. cbn [fst snd] in *.
                 repeat split; [left; reflexivity|assumption|left; reflexivity|].
                 exists resp. split; [exact Hp|exact Hle].
              ** exact (Hkeep k Hin [(S (clock w), rq)]).
           ++ lia.
           ++ constructor; assumption.
        -- destruct Hpost as [-> ->].
           exists ks, ((S (clock w), rq) :: new).
           rewrite H1, H2, H3, Hsent. cbn [failed keys count List.length].
           rewrite <- !app_assoc. cbn [app].
           repeat split; try reflexivity; try assumption; [|lia|constructor; assumption].
           intros k Hin. exact (Hkeep k Hin [(S (clock w), rq)]).
      * destruct Hpost as [-> ->].
        exists ks, ((S (clock w), rq) :: new).
        rewrite H1, H2, H3, Hsent. cbn [failed keys count List.length].
        rewrite <- !app_assoc. cbn [app].
        repeat split; try reflexivity; try assumption; [|lia|constructor; assumption].
        intros k Hin. exact (Hkeep k Hin [(S (clock w), rq)]).
Qed.

End ScanFacts.

Section ApplyFacts.

Lemma remove_filter (k : string) (db : Pebble.DB) :
  SMap.remove k db = filter (fun kv => negb (String.eqb k (fst kv))) db.
Proof.
  induction db as [|[k' v'] r IH]; cbn; [reflexivity|].
  destruct (String.eqb k k'); cbn; rewrite IH; reflexivity.
Qed.

Lemma apply_filter (ks : list string) :
  forall db : Pebble.DB,
    Pebble.apply ks db = filter (fun kv => negb (existsb (fun k => String.eqb k (fst kv)) ks)) db.
Proof.
  unfold Pebble.apply.
  induction ks as [|k ks IH]; intros db; cbn [fold_left existsb].
  - cbn. induction db as [|kv r IHr]; cbn; [reflexivity|]. rewrite <- IHr. reflexivity.
  - rewrite IH, remove_filter.
    induction db as [|kv r IHr]; cbn; [reflexivity|].
    destruct (String.eqb k (fst kv)); cbn; [exact IHr|].
    destruct (existsb _ ks); cbn; rewrite IHr; reflexivity.
Qed.

Lemma In_apply_incl (ks : list string) (db : Pebble.DB) kv :
  In kv (Pebble.apply ks db) -> In kv db.
Proof. rewrite apply_filter. intros H. apply filter_In in H. tauto. Qed.

Lemma In_apply_removed (ks : list string) (db : Pebble.DB) k v :
  In (k, v) db -> ~ In (k, v) (Pebble.apply ks db) -> In k ks.
Proof.
  intros Hin Hout. destruct (in_dec string_dec k ks) as [H|H]; [exact H|].
  exfalso. apply Hout. apply In_apply_out; assumption.
Qed.





End ApplyFacts.

Section PassOutcome.

Local Open Scope Z_scope.

Variable E : Env.

(** The scan of a pass over a store in key order, and the delete that
    follows it. *)
Lemma ProcessPebble_shape (w : World) (db : Pebble.DB) :
  store w = Some db ->
  SMap.sorted db ->
  exists w1 p new,
    scan E db w pass0 = (w1, p) /\
    same_agent w w1 /\
    sent w1 = sent w ++ new /\
    count p = Z.of_nat (List.length (keys p)) /\
    NoDup (keys p) /\
    (forall k, In k (keys p) ->
               exists v t, In (k, v) db /\ decodes v = true /\
                           In (t, delivery_request w (record_of v)) new /\
                           resolved E t (delivery_request w (record_of v))) /\
    (List.length new <= List.length db)%nat /\
    Forall (checked E (clock w)) new /\
    ProcessPebble E w =
    if (0 <? List.length (keys p))%nat then
      match deleteKeysBatch E db (keys p) (clock w1) with
      | (_, t, Some err) =>
          Some (LogJson "pebble_delete_error" [("error", JStr err)] (set_clock t w1), Some err)
      | (db', t, None) =>
          Some (LogJson "pebble_processed" [("processed_count", JInt (count p))]
                  (with_Db (Some db') (set_clock t w1)), serverErr p)
      end
    else Some (LogJson "pebble_processed_none" [] w1, serverErr p).
Proof.
  intros Hdb Hsorted.
  destruct (scan E db w pass0) as [w1 p] eqn:Hscan.
  pose proof (ProcessPebble_eq E w db Hdb) as Heq.
  change {| keys := []; count := 0; serverErr := None |} with pass0 in Heq.
  rewrite Hscan in Heq.
  destruct (scan_marks E db w w1 pass0 p Hscan (ascending_NoDup _ Hsorted))
    as (Hsame & ks & new & H1 & H2 & H3 & H4 & H5 & H6 & H7).
  cbn [pass0 keys count app] in H1, H2. subst ks. rewrite Z.add_0_l in H2.
  exists w1, p, new.
  split; [reflexivity|]. split; [exact Hsame|]. split; [exact H3|]. split; [exact H2|].
  split; [exact H4|]. split; [exact H5|]. split; [exact H6|]. split; [exact H7|exact Heq].
Qed.

(** X8: whatever the environment answers, a pass over an open store
    in key order returns, leaves a store in key order that holds
    nothing it did not hold before, and removes an entry only if the
    value decodes and the request for its record was posted during
    the pass and answered with a status of at most 500. *)
Theorem ProcessPebble_removes_only_resolved (w : World) (db : Pebble.DB) :
  store w = Some db ->
  SMap.sorted db ->
  exists w' r db' new,
    ProcessPebble E w = Some (w', r) /\
    store w' = Some db' /\
    SMap.sorted db' /\
    sent w' = sent w ++ new /\
    (forall kv, In kv db' -> In kv db) /\
    (forall k v, In (k, v) db -> ~ In (k, v) db' ->
                 decodes v = true /\
                 exists t, In (t, delivery_request w (record_of v)) new /\
                           resolved E t (delivery_request w (record_of v))).
Proof.
  intros Hdb Hsorted.
  destruct (ProcessPebble_shape w db Hdb Hsorted)
    as (w1 & p & new & Hscan & Hsame & Hsent & Hcount & Hnd & Hkeys & Hlen & Hchk & Heq).
  assert (Hst1 : store w1 = Some db).
  { destruct Hsame as (_ & _ & _ & _ & _ & _ & Hs). rewrite Hs. exact Hdb. }
  rewrite Heq.
  destruct (0 <? List.length (keys p))%nat.
  - destruct (deleteKeysBatch E db (keys p) (clock w1)) as [[db' t] [err|]] eqn:Hd.
    + exists (LogJson "pebble_delete_error" [("error", JStr err)] (set_clock t w1)),
        (Some err), db, new.
      repeat split; try assumption; try tauto.
    + apply deleteKeysBatch_ok in Hd. subst db'.
      exists (LogJson "pebble_processed" [("processed_count", JInt (count p))]
                (with_Db (Some (Pebble.apply (keys p) db)) (set_clock t w1))),
        (serverErr p), (Pebble.apply (keys p) db), new.
      split; [reflexivity|]. split; [reflexivity|].
      split; [apply sorted_apply; exact Hsorted|].
      split; [exact Hsent|].
      split; [intros kv; apply In_apply_incl|].
      intros k v Hin Hout.
      pose proof (In_apply_removed _ _ _ _ Hin Hout) as Hk.
      destruct (Hkeys k Hk) as (v' & t' & G1 & G2 & G3 & G4).
      assert (v' = v) by (eapply sorted_In_unique; eassumption). subst v'.
      split; [exact G2|]. exists t'. split; assumption.
  - exists (LogJson "pebble_processed_none" [] w1), (serverErr p), db, new.
    repeat split; try assumption; try tauto.
Qed.

End PassOutcome.

Lemma ProcessPebble_removes_only_resolved_witness :
  let E := Scenario.ok_then_busy None in
  let w := Scenario.agent Scenario.storeABC in
  store w = Some Scenario.storeABC /\
  SMap.sorted Scenario.storeABC /\
  exists w' r db' new,
    ProcessPebble E w = Some (w', r) /\
    store w' = Some db' /\
    sent w' = sent w ++ new /\
    (forall k v, In (k, v) Scenario.storeABC -> ~ In (k, v) db' ->
                 exists t, In (t, delivery_request w (record_of v)) new /\
                           resolved E t (delivery_request w (record_of v))).
Proof.
  cbv zeta.
  assert (H1 : store (Scenario.agent Scenario.storeABC) = Some Scenario.storeABC)
    by reflexivity.
  split; [exact H1|]. split; [exact storeABC_sorted|].
  destruct (ProcessPebble_removes_only_resolved (Scenario.ok_then_busy None) _ _
              H1 storeABC_sorted) as (w' & r & db' & new & G1 & G2 & _ & G4 & _ & G6).
  exists w', r, db', new. split; [exact G1|]. split; [exact G2|]. split; [exact G4|].
  intros k v Hin Hout. exact (proj2 (G6 k v Hin Hout)).
Defined.

Section PassReport.

Local Open Scope Z_scope.

Variable E : Env.


Lemma scan_cancelled (iter : Pebble.Iterator) (w : World) (p : Pass) :
  ctxErr E (clock w) = true ->
  exists w', scan E iter w p = (w', p) /\ sent w' = sent w /\ store w' = store w /\
             stdout w' = stdout w.
Proof.
  intros Hc. destruct iter as [|kv rest]; cbn [scan].
  - exists w. auto.
  - unfold visit. rewrite Hc. exists (tick w). auto.
Qed.

(** X10: a pass posts at most one request for each entry, and each
    request directly follows a question to the context that found it
    not cancelled; a pass that finds the context cancelled at its
    first question posts nothing, removes nothing and returns no
    error. *)
Theorem ProcessPebble_cancellation (w : World) (db : Pebble.DB) :
  store w = Some db ->
  SMap.sorted db ->
  exists w' r new,
    ProcessPebble E w = Some (w', r) /\
    sent w' = sent w ++ new /\
    (List.length new <= List.length db)%nat /\
    (forall t rq, In (t, rq) new ->
                  exists t0, t = S t0 /\ (clock w <= t0)%nat /\ ctxErr E t0 = false) /\
    (ctxErr E (clock w) = true -> new = [] /\ r = None /\ store w' = Some db).
Proof.
  intros Hdb Hsorted.
  destruct (ProcessPebble_shape E w db Hdb Hsorted)
    as (w1 & p & new & Hscan & Hsame & Hsent & Hcount & Hnd & Hkeys & Hlen & Hchk & Heq).
  assert (Hst1 : store w1 = Some db).
  { destruct Hsame as (_ & _ & _ & _ & _ & _ & Hs). rewrite Hs. exact Hdb. }
  assert (Hnew : forall t rq, In (t, rq) new ->
                   exists t0, t = S t0 /\ (clock w <= t0)%nat /\ ctxErr E t0 = false).
  { intros t rq Hin. rewrite Forall_forall in Hchk. exact (Hchk _ Hin). }
  assert (Hcancel : ctxErr E (clock w) = true -> new = [] /\ keys p = [] /\ serverErr p = None).
  { intros Hc. destruct (scan_cancelled db w pass0 Hc) as (w2 & Hs2 & Hsent2 & _).
    rewrite Hscan in Hs2. injection Hs2 as <- ->.
    rewrite Hsent2 in Hsent. split; [|split; reflexivity].
    apply (f_equal (@List.length _)) in Hsent. rewrite length_app in Hsent.
    destruct new; [reflexivity|cbn in Hsent; lia]. }
  rewrite Heq.
  destruct (0 <? List.length (keys p))%nat eqn:Hpos.
  - destruct (deleteKeysBatch E db (keys p) (clock w1)) as [[db' t] [err|]] eqn:Hd.
    + exists (LogJson "pebble_delete_error" [("error", JStr err)] (set_clock t w1)),
        (Some err), new.
      split; [reflexivity|]. split; [exact Hsent|]. split; [exact Hlen|].
      split; [exact Hnew|].
      intros Hc. destruct (Hcancel Hc) as (_ & Hk & _). rewrite Hk in Hpos.
      discriminate Hpos.
    + exists (LogJson "pebble_processed" [("processed_count", JInt (count p))]
                (with_Db (Some db') (set_clock t w1))), (serverErr p), new.
      split; [reflexivity|]. split; [exact Hsent|]. split; [exact Hlen|].
      split; [exact Hnew|].
      intros Hc. destruct (Hcancel Hc) as (_ & Hk & _). rewrite Hk in Hpos.
      discriminate Hpos.
  - exists (LogJson "pebble_processed_none" [] w1), (serverErr p), new.
    split; [reflexivity|]. split; [exact Hsent|]. split; [exact Hlen|].
    split; [exact Hnew|].
    intros Hc. destruct (Hcancel Hc) as (Hn & _ & Hr). auto.
Qed.

End PassReport.


Lemma ProcessPebble_cancellation_witness :
  let E := Scenario.ok_then_busy None in
  let w := Scenario.agent Scenario.storeABC in
  store w = Some Scenario.storeABC /\
  SMap.sorted Scenario.storeABC /\
  exists w' r new,
    ProcessPebble E w = Some (w', r) /\
    sent w' = sent w ++ new /\
    List.length new <= 3 /\
    (forall t rq, In (t, rq) new -> exists t0, t = S t0 /\ ctxErr E t0 = false).
Proof.
  cbv zeta.
  assert (H1 : store (Scenario.agent Scenario.storeABC) = Some Scenario.storeABC)
    by reflexivity.
  split; [exact H1|]. split; [exact storeABC_sorted|].
  destruct (ProcessPebble_cancellation (Scenario.ok_then_busy None) _ _ H1 storeABC_sorted)
    as (w' & r & new & G1 & G2 & G3 & G4 & _).
  exists w', r, new. split; [exact G1|]. split; [exact G2|]. split; [exact G3|].
  intros t rq Hin. destruct (G4 t rq Hin) as (t0 & Ht & _ & Hc). exists t0. auto.
Defined.

(** ** The replay pass that nothing interrupts *)

Section Drain.

Local Open Scope Z_scope.

Variable E : Env.

Hypothesis never_cancelled : forall t, ctxErr E t = false.
Hypothesis always_resolved : forall t rq, ~ transient (httpPost E t rq).

Lemma scan_all (iter : Pebble.Iterator) :
  forall (w w' : World) (p p' : Pass),
    scan E iter w p = (w', p') ->
    same_agent w w' /\
    keys p' = keys p ++ map fst (readable iter) /\
    serverErr p' = serverErr p /\
    map snd (sent w') = map snd (sent w) ++ requests_for w iter.
Proof.
  unfold requests_for.
  induction iter as [|kv rest IH]; intros w w' p p' H; cbn [scan] in H.
  - injection H as <- <-. cbn. rewrite !app_nil_r. split; [apply same_agent_refl|auto].
  - destruct (visit E kv w p) as [[w1 p1] fl] eqn:Hv.
    apply visit_cases in Hv. destruct Hv as [Hsame Hv].
    assert (Hrq : forall rec, delivery_request w1 rec = delivery_request w rec).
    { intros rec. destruct Hsame as (a1 & a2 & _). apply delivery_request_config; assumption. }
    rewrite never_cancelled in Hv.
    destruct Hv as [(Hc & _)|[(_ & Hd & Hsent & -> & ->)|(_ & Hd & Hsent & Hpost)]];
      [discriminate Hc| |].
    + destruct (IH w1 w' p p' H) as (Hs & H1 & H2 & H3).
      split; [exact (same_agent_trans _ _ _ Hsame Hs)|].
      cbn [readable filter]. rewrite Hd. fold (readable rest).
      rewrite H1, H2, H3, Hsent. repeat split.
      f_equal. apply map_ext. intros a. apply Hrq.
    + pose proof (always_resolved (S (clock w)) (delivery_request w (record_of (snd kv)))) as Hnt.
      destruct (httpPost E (S (clock w)) (delivery_request w (record_of (snd kv))))
        as [resp|err]; cbn [transient] in Hnt; [|exfalso; apply Hnt; exact I].
      destruct (Z.leb_spec (StatusCode resp) 500) as [Hle|Hgt]; [|lia].
      destruct Hpost as [-> ->].
      destruct (IH w1 w' _ p' H) as (Hs & H1 & H2 & H3).
      split; [exact (same_agent_trans _ _ _ Hsame Hs)|].
      cbn [readable filter]. rewrite Hd. fold (readable rest).
      rewrite H1, H2, H3, Hsent. cbn [mark keys serverErr map].
      rewrite map_app, <- !app_assoc. cbn [map snd app fst].
      repeat split.
      do 2 f_equal. apply map_ext. intros a. apply Hrq.
Qed.

Lemma apply_readable (db : Pebble.DB) :
  NoDup (map fst db) ->
  Pebble.apply (map fst (readable db)) db = unreadable db.
Proof.
  intros Hnd. rewrite apply_filter. unfold unreadable.
  apply filter_ext_in. intros [k v] Hin. cbn [fst snd]. f_equal.
  destruct (decodes v) eqn:Hd.
  - apply existsb_exists. exists k. split; [|apply String.eqb_refl].
    apply (in_map fst (readable db) (k, v)). apply filter_In. auto.
  - destruct (existsb _ _) eqn:Hex; [|reflexivity].
    apply existsb_exists in Hex as (k' & Hin' & Heq). apply String.eqb_eq in Heq. subst k'.
    apply in_map_iff in Hin' as ([k2 v2] & Hk & Hin2). cbn in Hk. subst k2.
    apply filter_In in Hin2 as [Hin2 Hd2]. cbn [snd] in Hd2.
    assert (v2 = v).
    { clear -Hnd Hin Hin2. induction db as [|[k1 v1] r IH]; [destruct Hin|].
      cbn [map fst] in Hnd. apply NoDup_cons_iff in Hnd as [Hk Hnd].
      destruct Hin as [Heq|Hin], Hin2 as [Heq2|Hin2].
      - congruence.
      - injection Heq as -> ->. exfalso. apply Hk. apply (in_map fst) in Hin2. exact Hin2.
      - injection Heq2 as -> ->. exfalso. apply Hk. apply (in_map fst) in Hin. exact Hin.
      - auto. }
    congruence.
Qed.

Hypothesis no_fault : forall t, deleteFault E t = None /\ commitFault E t = None.

Lemma ProcessPebble_uninterrupted (w : World) (db : Pebble.DB) :
  store w = Some db ->
  SMap.sorted db ->
  exists w',
    ProcessPebble E w = Some (w', None) /\
    store w' = Some (unreadable db) /\
    map snd (sent w') = map snd (sent w) ++ requests_for w db /\
    fs w' = fs w /\
    AcceptingFlag (files (config w')) = AcceptingFlag (files (config w)) /\
    acceptingFlagPath (files (config w')) = acceptingFlagPath (files (config w)) /\
    ServerHost (config w') = ServerHost (config w).
Proof.
  intros Hdb Hsorted.
  pose proof (ProcessPebble_eq E w db Hdb) as Heq.
  change {| keys := []; count := 0; serverErr := None |} with pass0 in Heq.
  destruct (scan E db w pass0) as [w1 p] eqn:Hscan.
  destruct (scan_all db w w1 pass0 p Hscan) as (Hsame & Hkeys & Herr & Hsent).
  destruct Hsame as (a1 & a2 & a3 & a4 & a5 & a6 & a7).
  cbn [pass0 keys serverErr app] in Hkeys, Herr.
  rewrite Heq, Herr.
  destruct (0 <? List.length (keys p))%nat eqn:Hpos.
  - pose proof (deleteKeysBatch_no_fault E db (keys p) (clock w1) no_fault) as Hnf.
    destruct (deleteKeysBatch E db (keys p) (clock w1)) as [[db' t] err] eqn:Hd.
    cbn [snd] in Hnf. subst err.
    apply deleteKeysBatch_ok in Hd. subst db'.
    eexists. split; [reflexivity|].
    rewrite Hkeys, (apply_readable db (ascending_NoDup _ Hsorted)).
    repeat split; assumption.
  - eexists. split; [reflexivity|].
    assert (Hnone : readable db = []).
    { rewrite Hkeys in Hpos. destruct (readable db); [reflexivity|discriminate Hpos]. }
    rewrite <- (apply_readable db (ascending_NoDup _ Hsorted)), Hnone.
    repeat split; try assumption.
    cbn [map Pebble.apply fold_left]. rewrite <- Hdb. exact a7.
Qed.

(** X11: when the context is never cancelled, every attempt is
    answered with a status of at most 500 and the store reports no
    fault, a pass returns no error, posts one request for each entry
    that decodes, in key order, and leaves in the store exactly the
    entries that do not decode. *)
Theorem ProcessPebble_drains (w : World) (db : Pebble.DB) :
  store w = Some db ->
  SMap.sorted db ->
  exists w',
    ProcessPebble E w = Some (w', None) /\
    store w' = Some (unreadable db) /\
    map snd (sent w') = map snd (sent w) ++ requests_for w db.
Proof.
  intros Hdb Hsorted.
  destruct (ProcessPebble_uninterrupted w db Hdb Hsorted) as (w' & H1 & H2 & H3 & _).
  exists w'. auto.
Qed.

End Drain.

Lemma always_200_resolved : forall t rq, ~ transient (httpPost (Scenario.always 200) t rq).
Proof. intros t rq H. cbn in H. lia. Qed.

Lemma always_200_no_fault :
  forall t, deleteFault (Scenario.always 200) t = None /\
            commitFault (Scenario.always 200) t = None.
Proof. intros t. split; reflexivity. Qed.

Lemma always_200_healthy :
  forall t url, exists resp, httpGet (Scenario.always 200) t url = inl resp /\
                             StatusCode resp = 200%Z.
Proof. intros t url. eexists. split; reflexivity. Qed.

Lemma ProcessPebble_drains_witness :
  let E := Scenario.always 200 in
  let w := Scenario.agent Scenario.storeABC in
  (forall t, ctxErr E t = false) /\
  (forall t rq, ~ transient (httpPost E t rq)) /\
  (forall t, deleteFault E t = None /\ commitFault E t = None) /\
  store w = Some Scenario.storeABC /\
  SMap.sorted Scenario.storeABC /\
  exists w',
    ProcessPebble E w = Some (w', None) /\
    store w' = Some [] /\
    map snd (sent w') = [delivery_request w Scenario.record0;
                         delivery_request w Scenario.record0;
                         delivery_request w Scenario.record0].
Proof.
  cbv zeta.
  assert (H0 : forall t, ctxErr (Scenario.always 200) t = false) by reflexivity.
  assert (H1 : store (Scenario.agent Scenario.storeABC) = Some Scenario.storeABC)
    by reflexivity.
  split; [exact H0|]. split; [exact always_200_resolved|]. split; [exact always_200_no_fault|].
  split; [exact H1|]. split; [exact storeABC_sorted|].
  destruct (ProcessPebble_drains (Scenario.always 200) H0 always_200_resolved
              always_200_no_fault _ _ H1 storeABC_sorted) as (w' & G1 & G2 & G3).
  exists w'. split; [exact G1|]. split; [rewrite G2; vm_compute; reflexivity|].
  rewrite G3. vm_compute. reflexivity.
Defined.

Section EndToEnd.

Variable E : Env.

Hypothesis never_cancelled : forall t, ctxErr E t = false.
Hypothesis always_resolved : forall t rq, ~ transient (httpPost E t rq).
Hypothesis no_fault : forall t, deleteFault E t = None /\ commitFault E t = None.

Lemma SendLog_endpoint (req : LogRequest) (w w' : World) (db : Pebble.DB) (resp : LogResponse) :
  store w = Some db ->
  SendLog E req w = Some (w', resp) ->
  ServerHost (config w') = ServerHost (config w) /\ ApiKey (config w') = ApiKey (config w).
Proof.
  intros Hdb H. rewrite (SendLog_eq E req w db Hdb) in H. cbv zeta in H.
  destruct (setFault E (3 + clock w)); injection H as <- <-; split; reflexivity.
Qed.

Lemma lookup_filter_out (f : string * string -> bool) (db : Pebble.DB) (k v : string) :
  SMap.sorted db -> In (k, v) db -> f (k, v) = false ->
  SMap.lookup k (filter f db) = None.
Proof.
  intros Hs Hin Hf.
  destruct (SMap.lookup k (filter f db)) as [v'|] eqn:Hl; [|reflexivity].
  apply lookup_In in Hl. apply filter_In in Hl as [Hin' Hf'].
  assert (v' = v) by (eapply sorted_In_unique; eassumption). subst v'. congruence.
Qed.

(** X12: a request that [SendLog] stored, with a payload that nests
    less deep than the scanner allows, is delivered by the next pass
    that nothing interrupts: the request for the enqueued record is
    among those posted, and its key is no longer in the store. *)
Theorem enqueued_then_delivered (req : LogRequest) (w w1 : World) (db : Pebble.DB) :
  store w = Some db ->
  SMap.sorted db ->
  SendLog E req w = Some (w1, stored) ->
  (gomap_nesting (kept_payload (JsonData req)) < maxNestingDepth)%nat ->
  exists w2 db2,
    ProcessPebble E w1 = Some (w2, None) /\
    In (delivery_request w (enqueued_record E req w)) (map snd (sent w2)) /\
    store w2 = Some db2 /\
    SMap.lookup (enqueue_key E w) db2 = None.
Proof.
  intros Hdb Hsorted Hsend Hdeep.
  destruct (SendLog_endpoint req w w1 db stored Hdb Hsend) as (Hhost & Hkey).
  destruct (SendLog_frame E req w w1 db stored Hdb Hsend) as (_ & _ & _ & _ & Hcase).
  destruct Hcase as [(_ & _ & Hst1 & _)|(Hbad & _)]; [|discriminate Hbad].
  set (key := enqueue_key E w) in *.
  set (rec := enqueued_record E req w) in *.
  set (data := encode (LogRecordJson.to_json rec)) in *.
  set (db1 := SMap.insert key data db) in *.
  assert (Hs1 : SMap.sorted db1) by (apply sorted_insert; exact Hsorted).
  assert (Hin : In (key, data) db1) by (apply lookup_In, lookup_insert_same).
  assert (Hround : LogRecordJson.Unmarshal data = (rec, None)).
  { apply (Unmarshal_Marshal rec); [apply kept_payload_go|exact Hdeep]. }
  assert (Hdec : decodes data = true) by (unfold decodes; rewrite Hround; reflexivity).
  assert (Hrec : record_of data = rec) by (unfold record_of; rewrite Hround; reflexivity).
  destruct (ProcessPebble_uninterrupted E never_cancelled always_resolved no_fault w1 db1
              Hst1 Hs1) as (w2 & Hpp & Hst2 & Hsent & _).
  exists w2, (unreadable db1).
  split; [exact Hpp|]. split; [|split; [exact Hst2|]].
  - rewrite Hsent. apply in_or_app. right. unfold requests_for.
    rewrite <- (delivery_request_config w w1 rec Hhost Hkey), <- Hrec.
    apply (in_map (fun kv => delivery_request w1 (record_of (snd kv))) (readable db1)
                  (key, data)).
    apply filter_In. split; [exact Hin|exact Hdec].
  - apply (lookup_filter_out _ db1 key data Hs1 Hin). cbn [snd]. rewrite Hdec. reflexivity.
Qed.

End EndToEnd.

Lemma ticking_resolved : forall t rq, ~ transient (httpPost Cases.ticking t rq).
Proof. intros t rq H. cbn in H. lia. Qed.

Lemma enqueued_then_delivered_witness :
  let E := Cases.ticking in
  let w := Scenario.agent Scenario.storeABC in
  let w1 := Cases.after_SendLog E Scenario.requestA w in
  (forall t, ctxErr E t = false) /\
  (forall t rq, ~ transient (httpPost E t rq)) /\
  (forall t, deleteFault E t = None /\ commitFault E t = None) /\
  store w = Some Scenario.storeABC /\
  SMap.sorted Scenario.storeABC /\
  SendLog E Scenario.requestA w = Some (w1, stored) /\
  gomap_nesting (kept_payload (JsonData Scenario.requestA)) < maxNestingDepth /\
  exists w2 db2,
    ProcessPebble E w1 = Some (w2, None) /\
    In (delivery_request w (enqueued_record E Scenario.requestA w)) (map snd (sent w2)) /\
    store w2 = Some db2 /\
    SMap.lookup (enqueue_key E w) db2 = None.
Proof.
  cbv zeta.
  set (E := Cases.ticking). set (w := Scenario.agent Scenario.storeABC).
  set (w1 := Cases.after_SendLog E Scenario.requestA w).
  assert (H0 : forall t, ctxErr E t = false) by reflexivity.
  assert (Hf : forall t, deleteFault E t = None /\ commitFault E t = None)
    by (intros t; split; reflexivity).
  assert (H1 : store w = Some Scenario.storeABC) by reflexivity.
  assert (H2 : SendLog E Scenario.requestA w = Some (w1, stored)) by (vm_compute; reflexivity).
  assert (H3 : gomap_nesting (kept_payload (JsonData Scenario.requestA)) < maxNestingDepth)
    by (apply Nat.ltb_lt; vm_compute; reflexivity).
  split; [exact H0|]. split; [exact ticking_resolved|]. split; [exact Hf|].
  split; [exact H1|]. split; [exact storeABC_sorted|]. split; [exact H2|]. split; [exact H3|].
  exact (enqueued_then_delivered E H0 ticking_resolved Hf _ w w1 _ H1 storeABC_sorted H2 H3).
Defined.

(** ** The accepting flag and the control loop (tools/config.go, main.go) *)

Section FlagRelease.

Lemma Remove_idem (p : string) (l : list string) : Remove p (Remove p l) = Remove p l.
Proof.
  unfold Remove. induction l as [|x l IH]; cbn [filter]; [reflexivity|].
  destruct (negb (String.eqb p x)) eqn:Hx; [|exact IH].
  cbn [filter]. rewrite Hx, IH. reflexivity.
Qed.

Lemma exists_path_Remove_other (p q : string) (l : list string) :
  q <> p -> exists_path q (Remove p l) = exists_path q l.
Proof.
  intros Hne. unfold exists_path, Remove.
  induction l as [|x l IH]; cbn [filter existsb]; [reflexivity|].
  destruct (String.eqb_spec p x) as [->|Hpx]; cbn [negb existsb].
  - destruct (String.eqb_spec q x); [contradiction|exact IH].
  - rewrite IH. reflexivity.
Qed.

Lemma Disable_facts (w : World) :
  let w1 := fst (DisableAcceptingFlag w) in
  AcceptingFlag (files (config w1)) = None /\
  acceptingFlagPath (files (config w1)) = acceptingFlagPath (files (config w)) /\
  SocketPath (files (config w1)) = SocketPath (files (config w)) /\
  dbPath (files (config w1)) = dbPath (files (config w)) /\
  successLog (files (config w1)) = successLog (files (config w)) /\
  failureLog (files (config w1)) = failureLog (files (config w)) /\
  fs w1 = Remove (acceptingFlagPath (files (config w))) (fs w).
Proof.
  cbv zeta. unfold DisableAcceptingFlag.
  destruct (AcceptingFlag (files (config w))) eqn:Hf; cbn; rewrite ?Hf; repeat split.
Qed.

(** X13: [DisableAcceptingFlag] never reports an error; after it the
    agent holds no flag handle and the flag file does not exist; a
    second release changes nothing, an acquire that follows succeeds,
    and no other path of the base directory is touched. *)
Theorem Disable_releases (w : World) :
  let w1 := fst (DisableAcceptingFlag w) in
  snd (DisableAcceptingFlag w) = None /\
  AcceptingFlag (files (config w1)) = None /\
  flag_exists w1 = false /\
  DisableAcceptingFlag w1 = (w1, None) /\
  snd (EnableAcceptingFlag w1) = None /\
  (forall q, q <> acceptingFlagPath (files (config w)) ->
             exists_path q (fs w1) = exists_path q (fs w)).
Proof.
  cbv zeta.
  pose proof (flag_exists_after_Disable w) as Hflag.
  split; [reflexivity|].
  destruct (Disable_facts w) as (Hnone & _ & _ & _ & _ & _ & Hfs).
  split; [exact Hnone|]. split; [exact Hflag|].
  split; [|split].
  - unfold DisableAcceptingFlag at 1. rewrite Hnone.
    unfold DisableAcceptingFlag.
    destruct (AcceptingFlag (files (config w))); cbn [fst]; unfold with_fs;
      cbn [fs config set_AcceptingFlag with_files with_config files acceptingFlagPath
           clock stdout sent slept];
      rewrite Remove_idem; reflexivity.
  - rewrite (Enable_when_absent _ Hflag). reflexivity.
  - intros q Hq. rewrite Hfs. apply exists_path_Remove_other. exact Hq.
Qed.

End FlagRelease.

Section Turn.

Local Open Scope Z_scope.

Variable E : Env.

Lemma IsHealthSuccess_probe (w : World) :
  snd (IsHealthSuccess E (tick w)) = probe E w /\
  same_agent w (fst (IsHealthSuccess E (tick w))) /\
  sent (fst (IsHealthSuccess E (tick w))) = sent w /\
  clock (fst (IsHealthSuccess E (tick w))) = S (S (clock w)).
Proof.
  unfold IsHealthSuccess, probe. cbn [tick clock config].
  destruct (httpGet E (S (clock w)) (ServerHost (config w))); cbn; repeat split.
Qed.

Lemma mainIteration_healthy (w : World) :
  ctxErr E (clock w) = false ->
  probe E w = true ->
  mainIteration E w =
  if PebbleIsEmpty (Db (config (after_probe w))) then
    Some (LogJson "pebble_empty_exiting" [] (after_probe w), BreakMain)
  else
    match ProcessPebble E (after_probe w) with
    | None => None
    | Some (w, Some err) =>
        let w := LogJson "pebble_process_error" [("error", JStr err)] w in
        if ctxErr E (clock w) then Some (tick w, BreakMain)
        else Some (tick w, Continue)
    | Some (w, None) =>
        if ctxErr E (clock w) then Some (tick w, BreakMain)
        else Some (Sleep 10000 (tick w), Continue)
    end.
Proof.
  intros Hc Hp. unfold mainIteration, after_probe. rewrite Hc.
  unfold probe in Hp. unfold IsHealthSuccess. cbn [tick clock config].
  destruct (httpGet E (S (clock w)) (ServerHost (config w))) as [resp|err]; [|discriminate Hp].
  rewrite Hp. rewrite FlushPebbleDB_id. reflexivity.
Qed.

Lemma mainIteration_unhealthy (w : World) :
  ctxErr E (clock w) = false ->
  probe E w = false ->
  exists w2,
    w2 = fst (IsHealthSuccess E (tick w)) /\
    same_agent w w2 /\ sent w2 = sent w /\
    mainIteration E w =
    match AcceptingFlag (files (config w2)) with
    | None =>
        Some (Sleep 5000 (LogJson "main_unhealthy_accepting_logs" []
                            (fst (EnableAcceptingFlag w2))), Continue)
    | Some _ => Some (Sleep 5000 w2, Continue)
    end.
Proof.
  intros Hc Hp. unfold mainIteration. rewrite Hc.
  destruct (IsHealthSuccess_probe w) as (H1 & H2 & H3 & _).
  destruct (IsHealthSuccess E (tick w)) as [w2 h]. cbn [fst snd] in *.
  rewrite H1, Hp. exists w2. split; [reflexivity|]. split; [exact H2|]. split; [exact H3|].
  destruct (AcceptingFlag (files (config w2))); rewrite ?FlushPebbleDB_id; reflexivity.
Qed.

Lemma after_probe_frame (w : World) :
  store (after_probe w) = store w /\
  sent (after_probe w) = sent w /\
  AcceptingFlag (files (config (after_probe w))) = None /\
  acceptingFlagPath (files (config (after_probe w))) = acceptingFlagPath (files (config w)) /\
  ServerHost (config (after_probe w)) = ServerHost (config w) /\
  ApiKey (config (after_probe w)) = ApiKey (config w) /\
  flag_exists (after_probe w) = false.
Proof.
  pose proof (flag_exists_after_Disable (tick (tick w))) as Hflag.
  change (flag_exists (fst (DisableAcceptingFlag (tick (tick w)))))
    with (flag_exists (after_probe w)) in Hflag.
  unfold after_probe, DisableAcceptingFlag, store in *.
  destruct (AcceptingFlag (files (config (tick (tick w))))) eqn:Hf;
    cbn in *; rewrite ?Hf; repeat split; exact Hflag.
Qed.

End Turn.

Section LoopFacts.

Local Open Scope Z_scope.

Variable E : Env.

Lemma scan_same_agent (iter : Pebble.Iterator) :
  forall (w w' : World) (p p' : Pass), scan E iter w p = (w', p') -> same_agent w w'.
Proof.
  induction iter as [|kv rest IH]; intros w w' p p' H; cbn [scan] in H.
  - injection H as <- <-. apply same_agent_refl.
  - destruct (visit E kv w p) as [[w1 p1] fl] eqn:Hv.
    apply visit_cases in Hv. destruct Hv as [Hsame _].
    destruct fl.
    + exact (same_agent_trans _ _ _ Hsame (IH _ _ _ _ H)).
    + injection H as <- <-. exact Hsame.
Qed.

Lemma ProcessPebble_total (w : World) (db : Pebble.DB) :
  store w = Some db ->
  exists w' r,
    ProcessPebble E w = Some (w', r) /\
    fs w' = fs w /\
    AcceptingFlag (files (config w')) = AcceptingFlag (files (config w)) /\
    acceptingFlagPath (files (config w')) = acceptingFlagPath (files (config w)) /\
    slept w' = slept w.
Proof.
  intros Hdb. rewrite (ProcessPebble_eq E w db Hdb).
  destruct (scan E db w _) as [w1 p] eqn:Hscan.
  apply scan_same_agent in Hscan. destruct Hscan as (_ & _ & a3 & a4 & a5 & a6 & _).
  destruct (0 <? List.length (keys p))%nat.
  - destruct (deleteKeysBatch E db (keys p) (clock w1)) as [[db' t] [err|]];
      eexists; eexists; (split; [reflexivity|]); cbn; auto.
  - eexists; eexists; (split; [reflexivity|]); cbn; auto.
Qed.

Lemma mainIteration_total (w : World) :
  exists w' c, mainIteration E w = Some (w', c).
Proof.
  destruct (ctxErr E (clock w)) eqn:Hc.
  - unfold mainIteration. rewrite Hc. eauto.
  - destruct (probe E w) eqn:Hp.
    + rewrite (mainIteration_healthy E w Hc Hp).
      destruct (Db (config (after_probe w))) as [db|] eqn:Hdb; [|cbn; eauto].
      destruct (PebbleIsEmpty (Some db)); [eauto|].
      destruct (ProcessPebble_total (after_probe w) db Hdb) as (w1 & r & -> & _).
      destruct r as [err|]; cbv zeta.
      * case_cancelled; eauto.
      * case_cancelled; eauto.
    + destruct (mainIteration_unhealthy E w Hc Hp) as (w2 & _ & _ & _ & ->).
      destruct (AcceptingFlag (files (config w2))); eauto.
Qed.

(** X15: the control loop never dereferences a nil handle: for every
    environment and every state, a nil store and nil log handles
    included, any number of turns returns a state. *)
Theorem mainRoutine_no_panic (fuel : nat) :
  forall w : World, exists w' left, mainRoutine fuel E w = Some (w', left).
Proof.
  induction fuel as [|n IH]; intros w; cbn [mainRoutine]; [eauto|].
  destruct (mainIteration_total w) as (w1 & c & ->).
  destruct c; [apply IH|eauto].
Qed.

Lemma Enable_frame (w : World) :
  store (fst (EnableAcceptingFlag w)) = store w /\
  sent (fst (EnableAcceptingFlag w)) = sent w /\
  slept (fst (EnableAcceptingFlag w)) = slept w.
Proof.
  unfold EnableAcceptingFlag, OpenFile_excl, store.
  destruct (exists_path _ _); cbn; auto.
Qed.

(** X14: after a turn of the control loop that did not start
    cancelled, the flag file exists exactly when the probe of the turn
    did not report healthy, and a handle the agent holds stands for an
    existing file; a turn whose probe did not report healthy goes on
    with the loop, posts nothing, leaves the store as it is and sleeps
    five seconds. *)
Theorem turn_sets_flag (w w' : World) (c : LoopCtl) :
  ctxErr E (clock w) = false ->
  flag_held_exists w ->
  mainIteration E w = Some (w', c) ->
  flag_exists w' = negb (probe E w) /\
  flag_held_exists w' /\
  (probe E w = false ->
   c = Continue /\ sent w' = sent w /\ store w' = store w /\ slept w' = slept w ++ [5000]).
Proof.
  intros Hc Hinv H.
  destruct (probe E w) eqn:Hp; cbn [negb].
  - rewrite (mainIteration_healthy E w Hc Hp) in H.
    destruct (after_probe_frame w) as (_ & _ & Hnone & Hpath & _ & _ & Hflag).
    assert (Hres : forall w1,
               fs w1 = fs (after_probe w) ->
               AcceptingFlag (files (config w1)) = None ->
               acceptingFlagPath (files (config w1))
               = acceptingFlagPath (files (config (after_probe w))) ->
               flag_exists w1 = false /\ flag_held_exists w1).
    { intros w1 H1 H2 H3. unfold flag_exists, flag_held_exists in *.
      rewrite H1, H2, H3. split; [exact Hflag|]. intros Hne. contradiction. }
    split; [|split; [|discriminate]].
    all: destruct (Db (config (after_probe w))) as [db|] eqn:Hdb;
      [destruct (PebbleIsEmpty (Some db));
       [injection H as <- <-; apply Hres; auto
       |destruct (ProcessPebble_total (after_probe w) db Hdb)
          as (w1 & r & Hpp & a1 & a2 & a3 & _);
        rewrite Hpp in H; rewrite Hnone in a2;
        destruct r as [err|]; cbv zeta in H;
        case_cancelled; injection H as <- <-; apply Hres; assumption]
      |cbn in H; injection H as <- <-; apply Hres; auto].
  - destruct (mainIteration_unhealthy E w Hc Hp) as (w2 & _ & Hsame & Hsent & Heq).
    rewrite Heq in H. destruct Hsame as (_ & _ & a3 & a4 & a5 & a6 & a7).
    destruct (AcceptingFlag (files (config w2))) as [h|] eqn:Hh.
    + injection H as <- <-.
      assert (Hex : flag_exists (Sleep 5000 w2) = true).
      { unfold flag_exists. cbn [Sleep fs config]. rewrite a3, a6.
        apply Hinv. rewrite <- a5. discriminate. }
      split; [exact Hex|]. split; [intros _; exact Hex|]. intros _.
      cbn [Sleep sent slept]. unfold store in *. cbn [Sleep config].
      rewrite a4. auto.
    + injection H as <- <-.
      pose proof (flag_exists_after_Enable w2) as Hex.
      destruct (Enable_frame w2) as (b1 & b2 & b3).
      assert (Hex' : flag_exists (Sleep 5000 (LogJson "main_unhealthy_accepting_logs" []
                                               (fst (EnableAcceptingFlag w2)))) = true)
        by exact Hex.
      split; [exact Hex'|]. split; [intros _; exact Hex'|]. intros _.
      cbn [Sleep LogJson sent slept]. unfold store in *. cbn [Sleep LogJson config].
      rewrite b1, b2, b3, a4, a7. auto.
Qed.

End LoopFacts.

Lemma turn_sets_flag_witness :
  let E := Cases.unreachable in
  let w := Scenario.agent [] in
  let w' := Cases.after_turn E w in
  ctxErr E (clock w) = false /\
  flag_held_exists w /\
  mainIteration E w = Some (w', Continue) /\
  probe E w = false /\
  flag_exists w' = true /\
  sent w' = [] /\
  slept w' = [5000%Z].
Proof.
  cbv zeta.
  set (E := Cases.unreachable). set (w := Scenario.agent []).
  set (w' := Cases.after_turn E w).
  assert (H1 : ctxErr E (clock w) = false) by reflexivity.
  assert (H2 : flag_held_exists w) by (intros H; exfalso; apply H; reflexivity).
  assert (H3 : mainIteration E w = Some (w', Continue)) by (vm_compute; reflexivity).
  assert (Hp : probe E w = false) by reflexivity.
  split; [exact H1|]. split; [exact H2|]. split; [exact H3|]. split; [exact Hp|].
  destruct (turn_sets_flag E w w' Continue H1 H2 H3) as (G1 & _ & G3).
  rewrite Hp in G1. split; [exact G1|].
  destruct (G3 Hp) as (_ & G4 & _ & G6). split; [exact G4|exact G6].
Defined.

Section Liveness.

Local Open Scope Z_scope.

Variable E : Env.

Hypothesis never_cancelled : forall t, ctxErr E t = false.
Hypothesis always_healthy :
  forall t url, exists resp, httpGet E t url = inl resp /\ StatusCode resp = 200.
Hypothesis always_resolved : forall t rq, ~ transient (httpPost E t rq).
Hypothesis no_fault : forall t, deleteFault E t = None /\ commitFault E t = None.

Lemma probe_true (w : World) : probe E w = true.
Proof.
  unfold probe. destruct (always_healthy (S (clock w)) (ServerHost (config w))) as (resp & -> & ->).
  reflexivity.
Qed.

Lemma sorted_filter (f : string * string -> bool) (db : Pebble.DB) :
  SMap.sorted db -> SMap.sorted (filter f db).
Proof.
  unfold SMap.sorted. induction db as [|kv r IH]; cbn [filter map SMap.ascending]; [auto|].
  intros [Hall Hr]. destruct (f kv); [|exact (IH Hr)].
  cbn [map SMap.ascending]. split; [|exact (IH Hr)].
  rewrite Forall_forall in *. intros k Hk. apply Hall.
  apply in_map_iff in Hk as (x & <- & Hx). apply in_map. apply filter_In in Hx. tauto.
Qed.

Lemma unreadable_idem (db : Pebble.DB) : unreadable (unreadable db) = unreadable db.
Proof.
  unfold unreadable. induction db as [|kv r IH]; cbn [filter]; [reflexivity|].
  destruct (negb (decodes (snd kv))) eqn:Hd; [|exact IH].
  cbn [filter]. rewrite Hd, IH. reflexivity.
Qed.

Lemma requests_for_config (w w1 : World) (db : Pebble.DB) :
  ServerHost (config w1) = ServerHost (config w) ->
  ApiKey (config w1) = ApiKey (config w) ->
  requests_for w1 db = requests_for w db.
Proof.
  intros H1 H2. unfold requests_for. apply map_ext. intros kv.
  apply delivery_request_config; assumption.
Qed.

(** One turn under a healthy server, from a store that is not
    empty. *)
Lemma healthy_turn (w : World) (db : Pebble.DB) :
  store w = Some db ->
  SMap.sorted db ->
  db <> [] ->
  exists w',
    mainIteration E w = Some (w', Continue) /\
    store w' = Some (unreadable db) /\
    map snd (sent w') = map snd (sent w) ++ requests_for w db.
Proof.
  intros Hdb Hsorted Hne.
  rewrite (mainIteration_healthy E w (never_cancelled _) (probe_true w)).
  destruct (after_probe_frame w) as (Hst & Hsent & _ & _ & Hhost & Hkey & _).
  unfold store in Hst, Hdb. rewrite Hst, Hdb.
  destruct db as [|kv r] eqn:Hshape; [contradiction|]. rewrite <- Hshape in *.
  replace (PebbleIsEmpty (Some db)) with false by (rewrite Hshape; reflexivity).
  destruct (ProcessPebble_uninterrupted E never_cancelled always_resolved no_fault
              (after_probe w) db) as (w1 & Hpp & Hs1 & Hsent1 & _).
  { unfold store. rewrite Hst. exact Hdb. }
  { exact Hsorted. }
  rewrite Hpp, never_cancelled.
  eexists. split; [reflexivity|].
  unfold store in *. cbn [Sleep tick config sent].
  rewrite Hs1, Hsent1, Hsent, (requests_for_config w (after_probe w) db Hhost Hkey). auto.
Qed.

(** X16: under a server that is always healthy and answers every
    attempt with a status of at most 500, with no cancellation and no
    fault of the store, the loop over an open store in key order is
    left within two turns, with the store empty, one request posted
    for each entry and no flag file, when every entry decodes; and it
    is never left when some entry does not decode. *)
Theorem mainRoutine_healthy_server (w : World) (db : Pebble.DB) :
  store w = Some db ->
  SMap.sorted db ->
  (unreadable db = [] ->
   exists w',
     (forall fuel, mainRoutine (S (S fuel)) E w = Some (w', true)) /\
     store w' = Some [] /\
     map snd (sent w') = map snd (sent w) ++ requests_for w db /\
     flag_exists w' = false) /\
  (unreadable db <> [] ->
   forall fuel, exists w', mainRoutine fuel E w = Some (w', false)).
Proof.
  intros Hdb Hsorted.
  assert (Hexit : forall w0, store w0 = Some [] ->
            mainIteration E w0 = Some (LogJson "pebble_empty_exiting" [] (after_probe w0),
                                       BreakMain)).
  { intros w0 H0. rewrite (mainIteration_healthy E w0 (never_cancelled _) (probe_true w0)).
    destruct (after_probe_frame w0) as (Hst & _). unfold store in Hst, H0.
    rewrite Hst, H0. reflexivity. }
  assert (Hend : forall w0, store w0 = Some [] ->
            store (LogJson "pebble_empty_exiting" [] (after_probe w0)) = Some [] /\
            sent (LogJson "pebble_empty_exiting" [] (after_probe w0)) = sent w0 /\
            flag_exists (LogJson "pebble_empty_exiting" [] (after_probe w0)) = false).
  { intros w0 H0. destruct (after_probe_frame w0) as (Hst & Hsent & _ & _ & _ & _ & Hflag).
    unfold store in *. cbn [LogJson config sent]. rewrite Hst, Hsent. auto. }
  split.
  - intros Hall. destruct db as [|kv r] eqn:Hshape.
    + exists (LogJson "pebble_empty_exiting" [] (after_probe w)).
      destruct (Hend w Hdb) as (H1 & H2 & H3).
      split; [intros fuel; cbn [mainRoutine]; rewrite (Hexit w Hdb); reflexivity|].
      split; [exact H1|]. split; [|exact H3].
      rewrite H2. cbn. rewrite app_nil_r. reflexivity.
    + rewrite <- Hshape in *.
      destruct (healthy_turn w db Hdb Hsorted) as (w1 & Hturn & Hs1 & Hsent1).
      { rewrite Hshape. discriminate. }
      rewrite Hall in Hs1.
      exists (LogJson "pebble_empty_exiting" [] (after_probe w1)).
      destruct (Hend w1 Hs1) as (H1 & H2 & H3).
      split; [intros fuel; cbn [mainRoutine]; rewrite Hturn, (Hexit w1 Hs1); reflexivity|].
      split; [exact H1|]. split; [|exact H3].
      rewrite H2. exact Hsent1.
  - intros Hpoison fuel. revert w db Hdb Hsorted Hpoison.
    induction fuel as [|n IH]; intros w db Hdb Hsorted Hpoison; cbn [mainRoutine]; [eauto|].
    destruct (healthy_turn w db Hdb Hsorted) as (w1 & Hturn & Hs1 & _).
    { intros ->. apply Hpoison. reflexivity. }
    rewrite Hturn. apply (IH w1 (unreadable db) Hs1).
    + apply sorted_filter. exact Hsorted.
    + rewrite unreadable_idem. exact Hpoison.
Qed.

End Liveness.

Lemma mainRoutine_healthy_server_witness :
  let E := Scenario.always 200 in
  let w := Scenario.agent Scenario.storeABC in
  (forall t, ctxErr E t = false) /\
  (forall t url, exists resp, httpGet E t url = inl resp /\ StatusCode resp = 200%Z) /\
  (forall t rq, ~ transient (httpPost E t rq)) /\
  (forall t, deleteFault E t = None /\ commitFault E t = None) /\
  store w = Some Scenario.storeABC /\
  SMap.sorted Scenario.storeABC /\
  unreadable Scenario.storeABC = [] /\
  exists w',
    (forall fuel, mainRoutine (S (S fuel)) E w = Some (w', true)) /\
    store w' = Some [] /\
    List.length (sent w') = 3 /\
    flag_exists w' = false.
Proof.
  cbv zeta.
  assert (H0 : forall t, ctxErr (Scenario.always 200) t = false) by reflexivity.
  assert (H1 : store (Scenario.agent Scenario.storeABC) = Some Scenario.storeABC)
    by reflexivity.
  assert (H2 : unreadable Scenario.storeABC = []) by (vm_compute; reflexivity).
  split; [exact H0|]. split; [exact always_200_healthy|]. split; [exact always_200_resolved|].
  split; [exact always_200_no_fault|]. split; [exact H1|]. split; [exact storeABC_sorted|].
  split; [exact H2|].
  destruct (proj1 (mainRoutine_healthy_server (Scenario.always 200) H0 always_200_healthy
                     always_200_resolved always_200_no_fault _ _ H1 storeABC_sorted) H2)
    as (w' & G1 & G2 & G3 & G4).
  exists w'. split; [exact G1|]. split; [exact G2|]. split; [|exact G4].
  rewrite <- (length_map snd), G3. vm_compute. reflexivity.
Defined.

(** ** What the agent prints (tools/log.go) *)

Section LogTextFacts.

Local Open Scope string_scope.

Lemma lookup_of_list_into_other (k : string) (l : list (string * json)) :
  forall m, Forall (fun kv => fst kv <> k) l ->
            SMap.lookup k (SMap.of_list_into m l) = SMap.lookup k m.
Proof.
  unfold SMap.of_list_into.
  induction l as [|[k1 v1] r IH]; intros m Hall; cbn [fold_left]; [reflexivity|].
  inversion Hall as [|? ? Hk Hr]; subst. cbn [fst snd] in *.
  rewrite (IH _ Hr). apply lookup_insert_other. exact Hk.
Qed.

Lemma scalar_lit_ok (v : json) : scalar v = true -> lit_ok v /\ nesting v = 0%nat.
Proof. destruct v; cbn; intros H; try discriminate H; split; try reflexivity; constructor; exact H. Qed.

(** A plain line is printed as a JSON object that names its event. *)
Lemma LogJson_line_parses (now : string) (l : LogLine) :
  plain l = true ->
  parse (text now l) = Some (JObj (entry now l)) /\
  SMap.lookup "event" (entry now l) = Some (JStr (event l)) /\
  SMap.lookup "time" (entry now l) = Some (JStr now).
Proof.
  intros Hplain. unfold plain in Hplain. rewrite forallb_forall in Hplain.
  assert (Hkeys : forall k, k = "time" \/ k = "event" ->
                            Forall (fun kv => fst kv <> k) (fields l)).
  { intros k Hk. apply Forall_forall. intros kv Hin Heq.
    specialize (Hplain kv Hin). apply andb_prop in Hplain as [Hplain _].
    apply andb_prop in Hplain as [Ht He].
    destruct Hk as [Hk|Hk]; subst k; rewrite Heq in *; discriminate. }
  assert (Hscalar : Forall (fun kv => lit_ok (snd kv) /\ nesting (snd kv) = 0%nat) (fields l)).
  { apply Forall_forall. intros kv Hin. apply scalar_lit_ok.
    specialize (Hplain kv Hin). apply andb_prop in Hplain as [_ Hs]. exact Hs. }
  unfold text, entry.
  set (base := SMap.of_list [("time", JStr now); ("event", JStr (event l))]).
  assert (Hbase : Forall (fun kv => lit_ok (snd kv) /\ nesting (snd kv) = 0%nat) base)
    by (subst base; cbn; repeat constructor).
  pose proof (Forall_of_list_into _ base (fields l) Hbase Hscalar) as Hall.
  split; [|split].
  - apply parse_line.
    + apply lit_obj. eapply Forall_impl; [|exact Hall]. intros kv [H _]. exact H.
    + change (nesting (JObj ?x)) with (S (list_max (map (fun kv => nesting (snd kv)) x))).
      assert (Hz : (list_max (map (fun kv => nesting (snd kv))
                                (SMap.of_list_into base (fields l))) <= 0)%nat).
      { apply list_max_le. rewrite Forall_map. eapply Forall_impl; [|exact Hall].
        intros kv [_ H]. rewrite H. constructor. }
      pose proof two_le_maxNestingDepth. lia.
  - rewrite lookup_of_list_into_other by (apply Hkeys; auto). reflexivity.
  - rewrite lookup_of_list_into_other by (apply Hkeys; auto). reflexivity.
Qed.

End LogTextFacts.

Section PrintedLines.

Local Open Scope string_scope.
Local Open Scope list_scope.

Variable E : Env.

Lemma prints_refl (w w' : World) : stdout w' = stdout w -> prints_plain w w'.
Proof. intros H. exists []. rewrite List.app_nil_r. split; [exact H|constructor]. Qed.

Lemma prints_trans (w1 w2 w3 : World) :
  prints_plain w1 w2 -> prints_plain w2 w3 -> prints_plain w1 w3.
Proof.
  intros (o1 & H1 & P1) (o2 & H2 & P2). exists (o1 ++ o2).
  rewrite H2, H1, List.app_assoc. split; [reflexivity|]. apply Forall_app. auto.
Qed.

Lemma prints_LogJson (ev : string) (fl : list (string * json)) (w w' : World) :
  plain {| event := ev; fields := fl |} = true ->
  prints_plain w w' ->
  prints_plain w (LogJson ev fl w').
Proof.
  intros Hp H. apply (prints_trans w w'); [exact H|].
  exists [{| event := ev; fields := fl |}]. split; [reflexivity|]. constructor; [exact Hp|constructor].
Qed.

Lemma plain_error (ev err : string) :
  plain {| event := ev; fields := [("error", JStr err)] |} = true.
Proof. reflexivity. Qed.

Lemma plain_int (ev k : string) (z : Z) :
  (k =? "time") = false -> (k =? "event") = false ->
  plain {| event := ev; fields := [(k, JInt z)] |} = true.
Proof.
  intros H1 H2. unfold plain. cbn [fields forallb fst snd]. rewrite H1, H2.
  unfold JInt. cbn [scalar negb andb]. rewrite valid_number_decimal. reflexivity.
Qed.

Lemma sendToServer_prints (rec : logRecord) (w : World) :
  prints_plain w (fst (sendToServer E rec w)).
Proof.
  rewrite sendToServer_eq. cbv zeta.
  assert (Hpost : prints_plain w (fst (post E (delivery_request w rec) w)))
    by (apply prints_refl; reflexivity).
  assert (Hfile : forall b ex, prints_plain w (logToFile rec b ex
                                               (fst (post E (delivery_request w rec) w)))).
  { intros b ex. apply (prints_trans _ _ _ Hpost). apply prints_refl.
    apply (logToFile_frame rec b ex). }
  destruct (httpPost E (clock w) (delivery_request w rec)) as [resp|err].
  - destruct (_ && _); [apply Hfile|].
    destruct (_ && _).
    + cbn [fst]. apply prints_LogJson; [apply plain_int; reflexivity|apply Hfile].
    + destruct (Z.gtb _ _); cbn [fst]; [|exact Hpost].
      apply prints_LogJson; [apply plain_int; reflexivity|exact Hpost].
  - cbn [fst]. apply prints_LogJson; [apply plain_error|exact Hpost].
Qed.

Lemma visit_prints (kv : string * string) (w w' : World) (p p' : Pass) (fl : Flow) :
  visit E kv w p = (w', p', fl) -> prints_plain w w'.
Proof.
  unfold visit. destruct (ctxErr E (clock w)).
  - intros [= <- <- <-]. apply prints_refl. reflexivity.
  - destruct (LogRecordJson.Unmarshal (snd kv)) as [rec [err|]].
    + intros [= <- <- <-]. apply prints_LogJson; [apply plain_error|].
      apply prints_refl. reflexivity.
    + pose proof (sendToServer_prints rec (tick w)) as H.
      destruct (sendToServer E rec (tick w)) as [w1 [addKey [err|]]]; cbn [fst] in H.
      * intros [= <- <- <-]. exact H.
      * destruct addKey; intros [= <- <- <-]; exact H.
Qed.

Lemma scan_prints (iter : Pebble.Iterator) :
  forall (w w' : World) (p p' : Pass), scan E iter w p = (w', p') -> prints_plain w w'.
Proof.
  induction iter as [|kv rest IH]; intros w w' p p' H; cbn [scan] in H.
  - injection H as <- <-. apply prints_refl. reflexivity.
  - destruct (visit E kv w p) as [[w1 p1] fl] eqn:Hv. apply visit_prints in Hv.
    destruct fl.
    + exact (prints_trans _ _ _ Hv (IH _ _ _ _ H)).
    + injection H as <- <-. exact Hv.
Qed.

Lemma ProcessPebble_prints (w w' : World) (r : option error) :
  ProcessPebble E w = Some (w', r) -> prints_plain w w'.
Proof.
  intros H. destruct (store w) as [db|] eqn:Hdb.
  - rewrite (ProcessPebble_eq E w db Hdb) in H.
    destruct (scan E db w _) as [w1 p] eqn:Hscan. apply scan_prints in Hscan.
    destruct (0 <? List.length (keys p))%nat.
    + destruct (deleteKeysBatch E db (keys p) (clock w1)) as [[db' t] [err|]];
        injection H as <- <-.
      * apply prints_LogJson; [apply plain_error|].
        apply (prints_trans _ _ _ Hscan). apply prints_refl. reflexivity.
      * apply prints_LogJson; [apply plain_int; reflexivity|].
        apply (prints_trans _ _ _ Hscan). apply prints_refl. reflexivity.
    + injection H as <- <-. apply prints_LogJson; [reflexivity|exact Hscan].
  - unfold ProcessPebble in H. rewrite FlushPebbleDB_id in H.
    unfold store in Hdb. rewrite Hdb in H. discriminate H.
Qed.

Lemma mainIteration_prints (w w' : World) (c : LoopCtl) :
  mainIteration E w = Some (w', c) -> prints_plain w w'.
Proof.
  intros H. destruct (ctxErr E (clock w)) eqn:Hc.
  - unfold mainIteration in H. rewrite Hc in H. injection H as <- <-.
    apply prints_refl. reflexivity.
  - destruct (probe E w) eqn:Hp.
    + rewrite (mainIteration_healthy E w Hc Hp) in H.
      assert (Hafter : prints_plain w (after_probe w)).
      { unfold after_probe.
        apply (prints_trans w (LogJson "main_healthy_not_accepting_logs" []
                                 (fst (DisableAcceptingFlag (tick (tick w)))))).
        - apply prints_LogJson; [reflexivity|]. apply prints_refl.
          destruct (Disable_frame (tick (tick w))) as (_ & _ & _ & Hso). rewrite Hso. reflexivity.
        - apply prints_refl. reflexivity. }
      destruct (PebbleIsEmpty (Db (config (after_probe w)))).
      * injection H as <- <-. apply prints_LogJson; [reflexivity|exact Hafter].
      * destruct (ProcessPebble E (after_probe w)) as [[w1 r]|] eqn:Hpp; [|discriminate H].
        apply ProcessPebble_prints in Hpp.
        pose proof (prints_trans _ _ _ Hafter Hpp) as H1.
        destruct r as [err|]; cbv zeta in H.
        -- assert (H2 : prints_plain w (tick (LogJson "pebble_process_error"
                                                [("error", JStr err)] w1))).
           { apply (prints_LogJson "pebble_process_error" [("error", JStr err)] w w1);
               [apply plain_error|exact H1]. }
           case_cancelled; injection H as <- <-; exact H2.
        -- case_cancelled; injection H as <- <-;
             (apply (prints_trans _ _ _ H1); apply prints_refl; reflexivity).
    + destruct (mainIteration_unhealthy E w Hc Hp) as (w2 & Hw2 & _ & _ & Heq).
      rewrite Heq in H.
      assert (H2 : prints_plain w w2).
      { subst w2. unfold IsHealthSuccess.
        destruct (httpGet E (clock (tick w)) (ServerHost (config (tick w)))) as [resp|err];
          cbn [fst].
        - apply prints_refl. reflexivity.
        - apply prints_LogJson; [apply plain_error|]. apply prints_refl. reflexivity. }
      destruct (AcceptingFlag (files (config w2))); injection H as <- <-.
      * apply (prints_trans _ _ _ H2). apply prints_refl. reflexivity.
      * apply (prints_trans w (LogJson "main_unhealthy_accepting_logs" []
                                 (fst (EnableAcceptingFlag w2)))).
        -- apply prints_LogJson; [reflexivity|]. apply (prints_trans _ _ _ H2).
           apply prints_refl. unfold EnableAcceptingFlag, OpenFile_excl.
           destruct (exists_path _ _); reflexivity.
        -- apply prints_refl. reflexivity.
Qed.

Lemma mainRoutine_prints (fuel : nat) :
  forall (w w' : World) (b : bool), mainRoutine fuel E w = Some (w', b) -> prints_plain w w'.
Proof.
  induction fuel as [|n IH]; intros w w' b H; cbn [mainRoutine] in H.
  - injection H as <- <-. apply prints_refl. reflexivity.
  - destruct (mainIteration E w) as [[w1 c]|] eqn:Hit; [|discriminate H].
    apply mainIteration_prints in Hit.
    destruct c.
    + exact (prints_trans _ _ _ Hit (IH _ _ _ H)).
    + injection H as <- <-. exact Hit.
Qed.

Lemma SendLog_prints (req : LogRequest) (w w' : World) (resp : LogResponse) :
  SendLog E req w = Some (w', resp) -> prints_plain w w'.
Proof.
  intros H. destruct (store w) as [db|] eqn:Hdb.
  - destruct (SendLog_frame E req w w' db resp Hdb H) as (_ & _ & _ & _ & Hcase).
    destruct Hcase as [(_ & _ & _ & Hout)|(_ & _ & err & _ & Hout)];
      eexists; (split; [exact Hout|]); repeat constructor.
  - unfold SendLog in H. cbn [tick config] in H. unfold store in Hdb. rewrite Hdb in H.
    discriminate H.
Qed.

(** X17: every line the control loop or [SendLog] prints is, for any
    time stamp, a JSON object on a line of its own that carries the
    name of the event under [event] and the time stamp under [time]:
    no field of a line the agent prints overwrites either. *)
Theorem agent_lines_parse (fuel : nat) (req : LogRequest) (w w' : World)
        (b : bool) (resp : LogResponse) :
  mainRoutine fuel E w = Some (w', b) \/ SendLog E req w = Some (w', resp) ->
  exists out,
    stdout w' = stdout w ++ out /\
    forall l now,
      In l out ->
      parse (text now l) = Some (JObj (entry now l)) /\
      SMap.lookup "event" (entry now l) = Some (JStr (event l)) /\
      SMap.lookup "time" (entry now l) = Some (JStr now).
Proof.
  intros H.
  assert (Hp : prints_plain w w').
  { destruct H as [H|H]; [exact (mainRoutine_prints _ _ _ _ H)|exact (SendLog_prints _ _ _ _ H)]. }
  destruct Hp as (out & Hout & Hplain). exists out. split; [exact Hout|].
  intros l now Hin. apply LogJson_line_parses.
  rewrite Forall_forall in Hplain. exact (Hplain l Hin).
Qed.

End PrintedLines.

Lemma agent_lines_parse_witness :
  let E := Scenario.always 200 in
  let w := Scenario.agent [] in
  let w' := Cases.after_loop 1 E w in
  mainRoutine 1 E w = Some (w', true) /\
  exists out,
    stdout w' = stdout w ++ out /\
    forall l now,
      In l out ->
      parse (text now l) = Some (JObj (entry now l)) /\
      SMap.lookup "event" (entry now l) = Some (JStr (event l)).
Proof.
  cbv zeta.
  assert (H1 : mainRoutine 1 (Scenario.always 200) (Scenario.agent [])
               = Some (Cases.after_loop 1 (Scenario.always 200) (Scenario.agent []), true))
    by (vm_compute; reflexivity).
  split; [exact H1|].
  destruct (agent_lines_parse (Scenario.always 200) 1 Scenario.requestA _ _ true stored
              (or_introl H1)) as (out & G1 & G2).
  exists out. split; [exact G1|].
  intros l now Hin. destruct (G2 l now Hin) as (G3 & G4 & _). split; assumption.
Defined.

(** ** The way out (tools/config.go, [CloseFiles]; main.go) *)

Section ShutdownFacts.

Local Open Scope string_scope.
Local Open Scope list_scope.

Lemma exists_path_Remove_same (p : string) (l : list string) :
  exists_path p (Remove p l) = false.
Proof.
  unfold exists_path, Remove. induction l as [|x l IH]; cbn [filter existsb]; [reflexivity|].
  destruct (String.eqb_spec p x) as [->|Hne]; cbn [negb existsb]; [exact IH|].
  destruct (String.eqb_spec p x); [contradiction|exact IH].
Qed.

Lemma exists_path_Remove_false (p q : string) (l : list string) :
  exists_path q l = false -> exists_path q (Remove p l) = false.
Proof.
  unfold exists_path, Remove. induction l as [|x l IH]; cbn [filter existsb]; [reflexivity|].
  intros H. apply orb_false_elim in H as [Hx Hl].
  destruct (negb (String.eqb p x)); cbn [existsb]; [rewrite Hx|]; auto.
Qed.

Lemma deferred_state (w : World) :
  let w' := fst (deferred w) in
  let fs1 := Remove (SocketPath (files (config w)))
                    (Remove (acceptingFlagPath (files (config w))) (fs w)) in
  fs w' = (if drained w then Remove (dbPath (files (config w))) fs1 else fs1) /\
  store w' = store w /\
  acceptingFlagPath (files (config w')) = acceptingFlagPath (files (config w)) /\
  snd (deferred w)
  = (if is_open (successLog (files (config w))) then [HSuccessLog] else []) ++
    (if is_open (failureLog (files (config w))) then [HFailureLog] else []) ++
    (if is_open (store w) then [HDb] else []).
Proof.
  cbv zeta. unfold deferred.
  destruct (Disable_facts w) as (Hnone & Hp1 & Hp2 & Hp3 & Hl1 & Hl2 & Hfs).
  destruct (Disable_frame w) as (Hst & _).
  set (w1 := fst (DisableAcceptingFlag w)) in *.
  unfold CloseFiles, drained, store in *. cbv zeta.
  cbn [with_fs config fs files]. rewrite Hnone, Hp2, Hp3, Hl1, Hl2, Hfs, Hst.
  cbn [is_open app].
  destruct (Db (config w)) as [[|kv r]|];
    cbn [PebbleIsEmpty Pebble.NewIter fst snd with_fs config fs files is_open];
    rewrite ?Hp1, ?List.app_nil_r, <- ?List.app_assoc; auto.
Qed.

(** X18: the calls [main] defers, [DisableAcceptingFlag] and then
    [CloseFiles], leave neither the flag file nor the socket; the
    store directory is removed exactly when the store is open and
    empty, so a backlog is never deleted; the contents of the store
    are untouched; the flag handle, released before, is not closed
    again, and the store is closed exactly when it is open. *)
Theorem deferred_cleans (w : World) :
  dbPath (files (config w)) <> acceptingFlagPath (files (config w)) ->
  dbPath (files (config w)) <> SocketPath (files (config w)) ->
  let w' := fst (deferred w) in
  let closed := snd (deferred w) in
  flag_exists w' = false /\
  exists_path (SocketPath (files (config w))) (fs w') = false /\
  exists_path (dbPath (files (config w))) (fs w')
  = exists_path (dbPath (files (config w))) (fs w) && negb (drained w) /\
  store w' = store w /\
  ~ In HAcceptingFlag closed /\
  (In HDb closed <-> store w <> None).
Proof.
  intros Hflag Hsock. cbv zeta.
  destruct (deferred_state w) as (Hfs & Hst & Hpath & Hclosed).
  unfold flag_exists. rewrite Hfs, Hst, Hpath, Hclosed.
  assert (Hf1 : exists_path (acceptingFlagPath (files (config w)))
                  (Remove (SocketPath (files (config w)))
                     (Remove (acceptingFlagPath (files (config w))) (fs w))) = false)
    by apply exists_path_Remove_false, exists_path_Remove_same.
  repeat split.
  - destruct (drained w); [apply exists_path_Remove_false|]; exact Hf1.
  - destruct (drained w); [apply exists_path_Remove_false|]; apply exists_path_Remove_same.
  - destruct (drained w).
    + rewrite exists_path_Remove_same, andb_false_r. reflexivity.
    + rewrite andb_true_r, !exists_path_Remove_other by assumption. reflexivity.
  - intros Hin.
    destruct (is_open (successLog _)), (is_open (failureLog _)), (is_open (store w));
      cbn in Hin; intuition discriminate.
  - intros Hin Hnil. rewrite Hnil in Hin. cbn [is_open] in Hin.
    destruct (is_open (successLog _)), (is_open (failureLog _));
      cbn in Hin; intuition discriminate.
  - intros Hopen. destruct (store w); [|contradiction].
    cbn [is_open]. apply in_or_app. right. apply in_or_app. right. left. reflexivity.
Qed.

End ShutdownFacts.

Lemma deferred_cleans_witness :
  let w := Scenario.agent [] in
  dbPath (files (config w)) <> acceptingFlagPath (files (config w)) /\
  dbPath (files (config w)) <> SocketPath (files (config w)) /\
  flag_exists (fst (deferred w)) = false /\
  exists_path "/var/datanadhi/data-nadhi-agent.sock" (fs (fst (deferred w))) = false /\
  exists_path "/var/datanadhi/pebble" (fs (fst (deferred w))) = false /\
  In HDb (snd (deferred w)).
Proof.
  cbv zeta.
  assert (H1 : dbPath (files (config (Scenario.agent [])))
               <> acceptingFlagPath (files (config (Scenario.agent []))))
    by (intros H; discriminate H).
  assert (H2 : dbPath (files (config (Scenario.agent [])))
               <> SocketPath (files (config (Scenario.agent []))))
    by (intros H; discriminate H).
  split; [exact H1|]. split; [exact H2|].
  destruct (deferred_cleans (Scenario.agent []) H1 H2) as (G1 & G2 & G3 & _ & _ & G6).
  split; [exact G1|]. split; [exact G2|]. split; [exact (eq_trans G3 eq_refl)|].
  apply G6. discriminate.
Defined.

Section CleanExit.

Local Open Scope string_scope.
Local Open Scope list_scope.

Variable E : Env.

Hypothesis never_cancelled : forall t, ctxErr E t = false.

Lemma mainIteration_open (w w' : World) (c : LoopCtl) (db : Pebble.DB) :
  store w = Some db ->
  mainIteration E w = Some (w', c) ->
  match c with
  | BreakMain => store w' = Some []
  | Continue => exists db', store w' = Some db'
  end.
Proof.
  intros Hdb H.
  destruct (probe E w) eqn:Hp.
  - rewrite (mainIteration_healthy E w (never_cancelled _) Hp) in H.
    destruct (after_probe_frame w) as (Hst & _).
    assert (Hopen : store (after_probe w) = Some db) by (rewrite Hst; exact Hdb).
    unfold store in Hopen. rewrite Hopen in H.
    destruct db as [|kv r]; cbn [PebbleIsEmpty Pebble.NewIter] in H.
    + injection H as <- <-. exact Hopen.
    + destruct (ProcessPebble E (after_probe w)) as [[w1 r1]|] eqn:Hpp; [|discriminate H].
      destruct (ProcessPebble_clock E (after_probe w) w1 _ r1 Hopen Hpp) as (_ & db' & Hdb').
      destruct r1 as [err|]; cbv zeta in H; rewrite never_cancelled in H;
        injection H as <- <-; exists db'; exact Hdb'.
  - destruct (mainIteration_unhealthy E w (never_cancelled _) Hp)
      as (w2 & _ & Hsame & _ & Heq).
    rewrite Heq in H. destruct Hsame as (_ & _ & _ & _ & _ & _ & Hst).
    destruct (Enable_frame w2) as (He & _).
    destruct (AcceptingFlag (files (config w2))); injection H as <- <-; exists db.
    + rewrite <- Hdb, <- Hst. reflexivity.
    + rewrite <- Hdb, <- Hst, <- He. reflexivity.
Qed.

Lemma mainRoutine_exit (fuel : nat) :
  forall (w w' : World) (db : Pebble.DB),
    store w = Some db -> mainRoutine fuel E w = Some (w', true) -> store w' = Some [].
Proof.
  induction fuel as [|n IH]; intros w w' db Hdb H; cbn [mainRoutine] in H; [discriminate H|].
  destruct (mainIteration E w) as [[w1 c]|] eqn:Hit; [|discriminate H].
  pose proof (mainIteration_open w w1 c db Hdb Hit) as Hopen.
  destruct c.
  - destruct Hopen as (db1 & Hdb1). exact (IH w1 w' db1 Hdb1 H).
  - injection H as <-. exact Hopen.
Qed.

(** X19: when the context is never cancelled and the loop over an
    open store is left, the store is empty, and after the deferred
    calls neither the flag file nor the socket nor the store
    directory exists, and the store has been closed. *)
Theorem agent_stops_clean (fuel : nat) (w w' : World) (db : Pebble.DB) :
  store w = Some db ->
  mainRoutine fuel E w = Some (w', true) ->
  let w2 := fst (deferred w') in
  store w' = Some [] /\
  flag_exists w2 = false /\
  exists_path (SocketPath (files (config w'))) (fs w2) = false /\
  exists_path (dbPath (files (config w'))) (fs w2) = false /\
  In HDb (snd (deferred w')).
Proof.
  intros Hdb H. cbv zeta.
  pose proof (mainRoutine_exit fuel w w' db Hdb H) as Hempty.
  destruct (deferred_state w') as (Hfs & Hst & Hpath & Hclosed).
  unfold flag_exists. rewrite Hfs, Hpath, Hclosed.
  unfold drained. rewrite Hempty. cbn [is_open].
  split; [reflexivity|].
  split; [apply exists_path_Remove_false, exists_path_Remove_false, exists_path_Remove_same|].
  split; [apply exists_path_Remove_false, exists_path_Remove_same|].
  split; [apply exists_path_Remove_same|].
  apply in_or_app. right. apply in_or_app. right. left. reflexivity.
Qed.

End CleanExit.

Lemma agent_stops_clean_witness :
  let E := Scenario.always 200 in
  let w := Scenario.agent [] in
  let w' := Cases.after_loop 1 E w in
  (forall t, ctxErr E t = false) /\
  store w = Some [] /\
  mainRoutine 1 E w = Some (w', true) /\
  store w' = Some [] /\
  flag_exists (fst (deferred w')) = false /\
  exists_path (dbPath (files (config w'))) (fs (fst (deferred w'))) = false.
Proof.
  cbv zeta.
  assert (H0 : forall t, ctxErr (Scenario.always 200) t = false) by reflexivity.
  assert (H1 : store (Scenario.agent []) = Some []) by reflexivity.
  assert (H2 : mainRoutine 1 (Scenario.always 200) (Scenario.agent [])
               = Some (Cases.after_loop 1 (Scenario.always 200) (Scenario.agent []), true))
    by (vm_compute; reflexivity).
  split; [exact H0|]. split; [exact H1|]. split; [exact H2|].
  destruct (agent_stops_clean (Scenario.always 200) H0 1 _ _ [] H1 H2)
    as (G1 & G2 & _ & G4 & _).
  split; [exact G1|]. split; [exact G2|exact G4].
Defined.


(** ** Collisions, order of delivery, failed deletes and outages *)

Section InsertCount.

Context {V : Type}.
Implicit Types (m : list (string * V)) (k : string) (v : V).

Lemma lookup_below k m : Forall (SMap.key_lt k) (map fst m) -> SMap.lookup k m = None.
Proof.
  induction m as [|[k' v'] r IH]; cbn; [reflexivity|].
  intros H. inversion H as [|? ? Hlt Hr]; subst.
  destruct (String.eqb k k') eqn:Hk.
  - apply String.eqb_eq in Hk. subst k'. exfalso. exact (key_lt_irrefl _ Hlt).
  - exact (IH Hr).
Qed.

Lemma length_insert k v m :
  SMap.sorted m ->
  List.length (SMap.insert k v m)
  = match SMap.lookup k m with
    | Some _ => List.length m
    | None => S (List.length m)
    end.
Proof.
  induction m as [|[k' v'] r IH]; cbn; [reflexivity|].
  intros [Hall Hr].
  destruct (String.compare k k') eqn:Hc.
  - apply String.compare_eq_iff in Hc. subst k'. rewrite String.eqb_refl. reflexivity.
  - assert (Hk : String.eqb k k' = false).
    { apply String.eqb_neq. intros ->. rewrite compare_refl in Hc. discriminate Hc. }
    rewrite Hk. rewrite lookup_below; [reflexivity|].
    apply Forall_forall. intros a Ha. rewrite Forall_forall in Hall.
    exact (key_lt_trans _ _ _ Hc (Hall a Ha)).
  - assert (Hk : String.eqb k k' = false).
    { apply String.eqb_neq. intros ->. rewrite compare_refl in Hc. discriminate Hc. }
    rewrite Hk. cbn [List.length]. rewrite (IH Hr).
    destruct (SMap.lookup k r); reflexivity.
Qed.

End InsertCount.

Section Collision.

Variable E : Env.

(** X22: when two calls of [SendLog], one after the other, both answer
    success and choose the same key (the same nanosecond and the same
    random number), the second record replaces the first: the store
    holds as many entries after the second call as after the first,
    the key holds the second record, and every other key holds what
    it held. *)
Theorem SendLog_same_key_replaces (req1 req2 : LogRequest) (w w1 w2 : World)
        (db : Pebble.DB) (r1 r2 : LogResponse) :
  store w = Some db ->
  SMap.sorted db ->
  SendLog E req1 w = Some (w1, r1) ->
  SendLog E req2 w1 = Some (w2, r2) ->
  Success r1 = true ->
  Success r2 = true ->
  enqueue_key E w1 = enqueue_key E w ->
  exists db1 db2,
    store w1 = Some db1 /\
    store w2 = Some db2 /\
    List.length db2 = List.length db1 /\
    SMap.lookup (enqueue_key E w) db2
    = Some (encode (LogRecordJson.to_json (enqueued_record E req2 w1))) /\
    (forall k, k <> enqueue_key E w -> SMap.lookup k db2 = SMap.lookup k db).
Proof.
  intros Hdb Hs H1 H2 S1 S2 Hkey.
  destruct (SendLog_frame E req1 w w1 db r1 Hdb H1) as (_ & _ & _ & _ & Hcase1).
  destruct Hcase1 as [(_ & _ & Hst1 & _)|(-> & _)]; [|discriminate S1].
  destruct (SendLog_frame E req2 w1 w2 _ r2 Hst1 H2) as (_ & _ & _ & _ & Hcase2).
  destruct Hcase2 as [(_ & _ & Hst2 & _)|(-> & _)]; [|discriminate S2].
  rewrite Hkey in Hst2.
  eexists. eexists. split; [exact Hst1|]. split; [exact Hst2|].
  split; [|split].
  - rewrite length_insert by (apply sorted_insert; exact Hs).
    rewrite lookup_insert_same. reflexivity.
  - apply lookup_insert_same.
  - intros k Hk.
    rewrite lookup_insert_other by exact (not_eq_sym Hk).
    apply lookup_insert_other. exact (not_eq_sym Hk).
Qed.

End Collision.

Lemma SendLog_same_key_replaces_witness :
  let E := Scenario.always 200 in
  let w := Scenario.agent [] in
  let w1 := Cases.after_SendLog E Scenario.requestA w in
  let w2 := Cases.after_SendLog E Scenario.requestB w1 in
  store w = Some [] /\
  SMap.sorted ([] : Pebble.DB) /\
  SendLog E Scenario.requestA w = Some (w1, stored) /\
  SendLog E Scenario.requestB w1 = Some (w2, stored) /\
  enqueue_key E w1 = enqueue_key E w /\
  exists db2,
    store w2 = Some db2 /\
    List.length db2 = 1%nat /\
    SMap.lookup (enqueue_key E w) db2
    = Some (encode (LogRecordJson.to_json (enqueued_record E Scenario.requestB w1))).
Proof.
  cbv zeta.
  assert (H0 : store (Scenario.agent []) = Some []) by reflexivity.
  assert (Hs : SMap.sorted ([] : Pebble.DB)) by exact I.
  assert (H1 : SendLog (Scenario.always 200) Scenario.requestA (Scenario.agent [])
               = Some (Cases.after_SendLog (Scenario.always 200) Scenario.requestA
                         (Scenario.agent []), stored)) by (vm_compute; reflexivity).
  assert (H2 : SendLog (Scenario.always 200) Scenario.requestB
                 (Cases.after_SendLog (Scenario.always 200) Scenario.requestA (Scenario.agent []))
               = Some (Cases.after_SendLog (Scenario.always 200) Scenario.requestB
                         (Cases.after_SendLog (Scenario.always 200) Scenario.requestA
                            (Scenario.agent [])), stored)) by (vm_compute; reflexivity).
  assert (Hk : enqueue_key (Scenario.always 200)
                 (Cases.after_SendLog (Scenario.always 200) Scenario.requestA (Scenario.agent []))
               = enqueue_key (Scenario.always 200) (Scenario.agent []))
    by (vm_compute; reflexivity).
  split; [exact H0|]. split; [exact Hs|]. split; [exact H1|]. split; [exact H2|].
  split; [exact Hk|].
  destruct (SendLog_same_key_replaces (Scenario.always 200) _ _ _ _ _ _ _ _
              H0 Hs H1 H2 eq_refl eq_refl Hk)
    as (db1 & db2 & G1 & G2 & G3 & G4 & _).
  exists db2. split; [exact G2|]. split; [|exact G4].
  rewrite G3.
  assert (G1' : store (Cases.after_SendLog (Scenario.always 200) Scenario.requestA
                         (Scenario.agent [])) = Some db1) by exact G1.
  vm_compute in G1'. injection G1' as <-. reflexivity.
Defined.

Section Order.

Variable E : Env.

Hypothesis never_cancelled : forall t, ctxErr E t = false.
Hypothesis always_resolved : forall t rq, ~ transient (httpPost E t rq).
Hypothesis no_fault : forall t, deleteFault E t = None /\ commitFault E t = None.

Lemma enqueued_decodes (req : LogRequest) (w : World) :
  (gomap_nesting (kept_payload (JsonData req)) < maxNestingDepth)%nat ->
  decodes (encode (LogRecordJson.to_json (enqueued_record E req w))) = true /\
  record_of (encode (LogRecordJson.to_json (enqueued_record E req w)))
  = enqueued_record E req w.
Proof.
  intros Hdeep.
  assert (Hround : LogRecordJson.Unmarshal
                     (encode (LogRecordJson.to_json (enqueued_record E req w)))
                   = (enqueued_record E req w, None)).
  { apply (Unmarshal_Marshal (enqueued_record E req w)); [apply kept_payload_go|exact Hdeep]. }
  unfold decodes, record_of. rewrite Hround. split; reflexivity.
Qed.

(** X23: two requests that [SendLog] stored one after the other in an
    empty store, the key of the first before the key of the second,
    are posted by the next pass that nothing interrupts in the order
    they were received, and the store is empty again. With the keys
    the other way round the second request is posted first. *)
Theorem delivery_in_key_order (req1 req2 : LogRequest) (w w1 w2 : World) :
  store w = Some [] ->
  SendLog E req1 w = Some (w1, stored) ->
  SendLog E req2 w1 = Some (w2, stored) ->
  (gomap_nesting (kept_payload (JsonData req1)) < maxNestingDepth)%nat ->
  (gomap_nesting (kept_payload (JsonData req2)) < maxNestingDepth)%nat ->
  enqueue_key E w <> enqueue_key E w1 ->
  exists w3,
    ProcessPebble E w2 = Some (w3, None) /\
    store w3 = Some [] /\
    map snd (sent w3)
    = map snd (sent w) ++
      (if String.ltb (enqueue_key E w) (enqueue_key E w1)
       then [delivery_request w (enqueued_record E req1 w);
             delivery_request w (enqueued_record E req2 w1)]
       else [delivery_request w (enqueued_record E req2 w1);
             delivery_request w (enqueued_record E req1 w)]).
Proof.
  intros Hdb H1 H2 Hd1 Hd2 Hne.
  destruct (SendLog_endpoint E req1 w w1 [] stored Hdb H1) as (Hh1 & Hk1).
  destruct (SendLog_frame E req1 w w1 [] stored Hdb H1) as (Hs1 & _ & _ & _ & Hc1).
  destruct Hc1 as [(_ & _ & Hst1 & _)|(Hbad & _)]; [|discriminate Hbad].
  destruct (SendLog_endpoint E req2 w1 w2 _ stored Hst1 H2) as (Hh2 & Hk2).
  destruct (SendLog_frame E req2 w1 w2 _ stored Hst1 H2) as (Hs2 & _ & _ & _ & Hc2).
  destruct Hc2 as [(_ & _ & Hst2 & _)|(Hbad & _)]; [|discriminate Hbad].
  destruct (enqueued_decodes req1 w Hd1) as (Hdec1 & Hrec1).
  destruct (enqueued_decodes req2 w1 Hd2) as (Hdec2 & Hrec2).
  set (k1 := enqueue_key E w) in *. set (k2 := enqueue_key E w1) in *.
  set (d1 := encode (LogRecordJson.to_json (enqueued_record E req1 w))) in *.
  set (d2 := encode (LogRecordJson.to_json (enqueued_record E req2 w1))) in *.
  assert (Hs : SMap.sorted (SMap.insert k2 d2 (SMap.insert k1 d1 ([] : Pebble.DB)))).
  { apply sorted_insert. apply sorted_insert. exact I. }
  destruct (ProcessPebble_uninterrupted E never_cancelled always_resolved no_fault w2 _
              Hst2 Hs) as (w3 & Hpp & Hst3 & Hsent & _).
  exists w3. split; [exact Hpp|].
  assert (Hcfg : forall rec, delivery_request w2 rec = delivery_request w rec).
  { intros rec. apply delivery_request_config; congruence. }
  rewrite Hst3, Hsent, Hs2, Hs1. unfold requests_for, readable, unreadable.
  cbn [SMap.insert] in *. unfold String.ltb.
  destruct (String.compare k2 k1) eqn:Hc.
  - apply String.compare_eq_iff in Hc. exfalso. apply Hne. symmetry. exact Hc.
  - rewrite (key_lt_Gt _ _ Hc).
    cbn [filter snd map negb]. rewrite Hdec1, Hdec2. cbn [filter snd map negb].
    rewrite Hrec1, Hrec2, !Hcfg. split; reflexivity.
  - apply compare_Gt_lt in Hc. unfold SMap.key_lt in Hc. rewrite Hc.
    cbn [filter snd map negb]. rewrite Hdec1, Hdec2. cbn [filter snd map negb].
    rewrite Hrec1, Hrec2, !Hcfg. split; reflexivity.
Qed.

End Order.

Lemma delivery_in_key_order_witness :
  let E := Cases.ticking in
  let w := Scenario.agent [] in
  let w1 := Cases.after_SendLog E Scenario.requestA w in
  let w2 := Cases.after_SendLog E Scenario.requestB w1 in
  (forall t, ctxErr E t = false) /\
  (forall t rq, ~ transient (httpPost E t rq)) /\
  (forall t, deleteFault E t = None /\ commitFault E t = None) /\
  store w = Some [] /\
  SendLog E Scenario.requestA w = Some (w1, stored) /\
  SendLog E Scenario.requestB w1 = Some (w2, stored) /\
  (gomap_nesting (kept_payload (JsonData Scenario.requestA)) < maxNestingDepth)%nat /\
  (gomap_nesting (kept_payload (JsonData Scenario.requestB)) < maxNestingDepth)%nat /\
  enqueue_key E w <> enqueue_key E w1 /\
  exists w3,
    ProcessPebble E w2 = Some (w3, None) /\
    store w3 = Some [] /\
    map snd (sent w3)
    = [delivery_request w (enqueued_record E Scenario.requestA w);
       delivery_request w (enqueued_record E Scenario.requestB w1)].
Proof.
  cbv zeta.
  set (E := Cases.ticking). set (w := Scenario.agent []).
  set (w1 := Cases.after_SendLog E Scenario.requestA w).
  set (w2 := Cases.after_SendLog E Scenario.requestB w1).
  assert (H0 : forall t, ctxErr E t = false) by reflexivity.
  assert (Hf : forall t, deleteFault E t = None /\ commitFault E t = None)
    by (intros t; split; reflexivity).
  assert (Hdb : store w = Some []) by reflexivity.
  assert (H1 : SendLog E Scenario.requestA w = Some (w1, stored)) by (vm_compute; reflexivity).
  assert (H2 : SendLog E Scenario.requestB w1 = Some (w2, stored)) by (vm_compute; reflexivity).
  assert (Hd1 : (gomap_nesting (kept_payload (JsonData Scenario.requestA)) < maxNestingDepth)%nat)
    by (apply Nat.ltb_lt; vm_compute; reflexivity).
  assert (Hd2 : (gomap_nesting (kept_payload (JsonData Scenario.requestB)) < maxNestingDepth)%nat)
    by (apply Nat.ltb_lt; vm_compute; reflexivity).
  assert (Hne : enqueue_key E w <> enqueue_key E w1)
    by (intros Heq; vm_compute in Heq; discriminate Heq).
  split; [exact H0|]. split; [exact ticking_resolved|]. split; [exact Hf|].
  split; [exact Hdb|]. split; [exact H1|]. split; [exact H2|].
  split; [exact Hd1|]. split; [exact Hd2|]. split; [exact Hne|].
  destruct (delivery_in_key_order E H0 ticking_resolved Hf _ _ w w1 w2 Hdb H1 H2 Hd1 Hd2 Hne)
    as (w3 & G1 & G2 & G3).
  exists w3. split; [exact G1|]. split; [exact G2|].
  exact (eq_trans G3 eq_refl).
Defined.

Section Redelivery.

Local Open Scope Z_scope.

Variable E : Env.

Hypothesis never_cancelled : forall t, ctxErr E t = false.
Hypothesis always_resolved : forall t rq, ~ transient (httpPost E t rq).

(** X20: when the context is never cancelled and every attempt is
    answered with a status of at most 500, a pass that returns an
    error has posted a request for every entry that decodes and has
    removed none of them: the error is that of the batch delete, and
    the next pass posts the same records again. *)
Theorem ProcessPebble_error_removes_nothing (w w' : World) (db : Pebble.DB) (e : error) :
  store w = Some db ->
  ProcessPebble E w = Some (w', Some e) ->
  store w' = Some db /\
  map snd (sent w') = map snd (sent w) ++ requests_for w db /\
  readable db <> [] /\
  (exists t, snd (deleteKeysBatch E db (map fst (readable db)) t) = Some e) /\
  requests_for w' db = requests_for w db.
Proof.
  intros Hdb H.
  rewrite (ProcessPebble_eq E w db Hdb) in H.
  change {| keys := []; count := 0; serverErr := None |} with pass0 in H.
  destruct (scan E db w pass0) as [w1 p] eqn:Hscan.
  destruct (scan_all E never_cancelled always_resolved db w w1 pass0 p Hscan)
    as (Hsame & Hkeys & Herr & Hsent).
  destruct Hsame as (a1 & a2 & _ & _ & _ & _ & a7).
  cbn [pass0 keys serverErr app] in Hkeys, Herr.
  rewrite Herr in H.
  destruct (0 <? List.length (keys p))%nat eqn:Hpos; [|discriminate H].
  destruct (deleteKeysBatch E db (keys p) (clock w1)) as [[db' t] [err|]] eqn:Hd;
    [|discriminate H].
  injection H as <- <-.
  split; [rewrite <- Hdb; exact a7|].
  split; [exact Hsent|].
  split; [intros Hnil; rewrite Hkeys, Hnil in Hpos; discriminate Hpos|].
  split; [exists (clock w1); rewrite <- Hkeys, Hd; reflexivity|].
  apply requests_for_config; assumption.
Qed.

End Redelivery.

Lemma full_disk_resolved : forall t rq, ~ transient (httpPost Cases.full_disk t rq).
Proof. intros t rq H. cbn in H. lia. Qed.

Lemma ProcessPebble_error_removes_nothing_witness :
  let E := Cases.full_disk in
  let w := Scenario.agent Scenario.storeABC in
  (forall t, ctxErr E t = false) /\
  (forall t rq, ~ transient (httpPost E t rq)) /\
  store w = Some Scenario.storeABC /\
  exists w',
    ProcessPebble E w = Some (w', Some "no space left on device") /\
    store w' = Some Scenario.storeABC /\
    List.length (sent w') = 3%nat.
Proof.
  cbv zeta.
  assert (H0 : forall t, ctxErr Cases.full_disk t = false) by reflexivity.
  assert (H1 : store (Scenario.agent Scenario.storeABC) = Some Scenario.storeABC)
    by reflexivity.
  split; [exact H0|]. split; [exact full_disk_resolved|]. split; [exact H1|].
  destruct (ProcessPebble Cases.full_disk (Scenario.agent Scenario.storeABC))
    as [[w' [e|]]|] eqn:Hrun;
    [|vm_compute in Hrun; discriminate Hrun|vm_compute in Hrun; discriminate Hrun].
  destruct (ProcessPebble_error_removes_nothing Cases.full_disk H0 full_disk_resolved
              _ _ _ _ H1 Hrun) as (G1 & G2 & _).
  exists w'.
  assert (He : e = "no space left on device").
  { vm_compute in Hrun. injection Hrun as _ He. symmetry. exact He. }
  split; [rewrite He; reflexivity|]. split; [exact G1|].
  rewrite <- (length_map snd), G2. reflexivity.
Defined.

Section Outage.

Local Open Scope Z_scope.

Variable E : Env.

Hypothesis never_cancelled : forall t, ctxErr E t = false.
Hypothesis never_healthy : forall w, probe E w = false.

(** X21: while the probe never reports healthy and the context is not
    cancelled, the loop is never left; after any number of turns
    nothing has been posted, the store is as it was, and, from the
    first turn on, the flag file exists. *)
Theorem mainRoutine_outage (fuel : nat) :
  forall w : World,
    flag_held_exists w ->
    exists w',
      mainRoutine fuel E w = Some (w', false) /\
      sent w' = sent w /\
      store w' = store w /\
      flag_held_exists w' /\
      (fuel <> O -> flag_exists w' = true).
Proof.
  induction fuel as [|n IH]; intros w Hinv; cbn [mainRoutine].
  - exists w. repeat split; [exact Hinv|intros H; contradiction].
  - destruct (mainIteration_unhealthy E w (never_cancelled _) (never_healthy w))
      as (w2 & _ & Hsame & Hsent & Heq).
    destruct Hsame as (_ & _ & a3 & _ & a5 & a6 & a7).
    assert (Hturn : exists w1,
               mainIteration E w = Some (w1, Continue) /\
               sent w1 = sent w /\ store w1 = store w /\ flag_exists w1 = true).
    { rewrite Heq. destruct (AcceptingFlag (files (config w2))) as [h|] eqn:Hh.
      - eexists. split; [reflexivity|].
        cbn [Sleep sent]. unfold store, flag_exists in *. cbn [Sleep config fs].
        rewrite a3, a6. repeat split; try assumption.
        apply Hinv. rewrite <- a5. discriminate.
      - eexists. split; [reflexivity|].
        destruct (Enable_frame w2) as (b1 & b2 & _).
        pose proof (flag_exists_after_Enable w2) as Hex.
        cbn [Sleep LogJson sent]. unfold store in *. cbn [Sleep LogJson config].
        rewrite b1, b2. repeat split; try assumption. }
    destruct Hturn as (w1 & Hit & Hs1 & Hst1 & Hflag1).
    rewrite Hit.
    destruct (IH w1 (fun _ => Hflag1)) as (w' & Hrun & Hs & Hst & Hinv' & Hflag').
    exists w'. split; [exact Hrun|]. split; [congruence|]. split; [congruence|].
    split; [exact Hinv'|]. intros _.
    destruct n as [|m]; [|apply Hflag'; discriminate].
    cbn [mainRoutine] in Hrun. injection Hrun as <-. exact Hflag1.
Qed.

End Outage.

Lemma unreachable_never_healthy : forall w, probe Cases.unreachable w = false.
Proof. intros w. reflexivity. Qed.

Lemma mainRoutine_outage_witness :
  let E := Cases.unreachable in
  let w := Scenario.agent Scenario.storeABC in
  (forall t, ctxErr E t = false) /\
  (forall w, probe E w = false) /\
  flag_held_exists w /\
  exists w',
    mainRoutine 3 E w = Some (w', false) /\
    sent w' = [] /\
    store w' = Some Scenario.storeABC /\
    flag_exists w' = true.
Proof.
  cbv zeta.
  assert (H0 : forall t, ctxErr Cases.unreachable t = false) by reflexivity.
  assert (H2 : flag_held_exists (Scenario.agent Scenario.storeABC))
    by (intros H; exfalso; apply H; reflexivity).
  split; [exact H0|]. split; [exact unreachable_never_healthy|]. split; [exact H2|].
  destruct (mainRoutine_outage Cases.unreachable H0 unreachable_never_healthy 3 _ H2)
    as (w' & G1 & G2 & G3 & _ & G5).
  exists w'. split; [exact G1|]. split; [exact G2|]. split; [exact G3|].
  apply G5. discriminate.
Defined.
